(** * Room relay of the translating chat server (server.js)

    The Socket.IO handlers of server.js ([join], [chatMessage],
    [disconnect]) over the two process-wide maps [rooms] and
    [messageHistory], embedded as state-passing functions.

    Conventions of the embedding.
    - Payload fields are strings; a missing or otherwise falsy field is the
      empty string, so JavaScript truthiness of a field is [truthy].  A
      string is the UTF-8 encoding of the JavaScript string.
    - A JavaScript [Map] is an insertion-ordered association list with the
      operations of module [JsMap]; iteration order is list order.
    - The outside world (clock, Firestore, Gemini, Azure translator) is a
      state [World] with one oracle per remote call.  A rejected promise or
      thrown exception of a remote call is the answer [None].
    - Everything a handler does to the outside is collected, in program
      order, in a list of [Effect]s.  [console] output is not recorded.
    - [join] and [disconnect] run without interruption.  [chatMessage]
      awaits remote calls, and other events are handled while it waits:
      module [Async] is the server as a machine that takes one step per
      socket event and per answer of a remote call, the handlers in flight
      being part of its state.  The function [chatMessage] is the run of
      the handler in which nothing else is handled before its last answer
      has arrived. *)

From Stdlib Require Import String List Bool Arith Lia Ascii Sorted.
Import ListNotations.

#[local] Open Scope string_scope.
#[local] Open Scope list_scope.

(** ** JavaScript values *)

(** [!s] is false exactly for the non-empty string. *)
Definition truthy (s : string) : bool := negb (s =? "").

Definition byteIs (c : ascii) (n : nat) : bool := (nat_of_ascii c =? n)%nat.

(** The white space that [trim] strips is the WhiteSpace and LineTerminator
    characters of the language.  Those of one byte: U+0009 to U+000D and
    U+0020. *)
Definition space1 (c : ascii) : bool :=
  byteIs c 9 || byteIs c 10 || byteIs c 11 || byteIs c 12 || byteIs c 13
  || byteIs c 32.

(** Of two bytes: U+00A0. *)
Definition space2 (c1 c2 : ascii) : bool := byteIs c1 194 && byteIs c2 160.

(** Of three bytes: U+1680, U+2000 to U+200A, U+2028, U+2029, U+202F,
    U+205F, U+3000 and U+FEFF. *)
Definition space3 (c1 c2 c3 : ascii) : bool :=
  (byteIs c1 225 && byteIs c2 154 && byteIs c3 128)
  || (byteIs c1 226 && byteIs c2 128
      && (((128 <=? nat_of_ascii c3)%nat && (nat_of_ascii c3 <=? 138)%nat)
          || byteIs c3 168 || byteIs c3 169 || byteIs c3 175))
  || (byteIs c1 226 && byteIs c2 129 && byteIs c3 159)
  || (byteIs c1 227 && byteIs c2 128 && byteIs c3 128)
  || (byteIs c1 239 && byteIs c2 187 && byteIs c3 191).

(** The white space at the start of a text is dropped. *)
Fixpoint drop_space (l : list ascii) : list ascii :=
  match l with
  | [] => []
  | c1 :: l1 =>
      if space1 c1 then drop_space l1
      else match l1 with
           | [] => l
           | c2 :: l2 =>
               if space2 c1 c2 then drop_space l2
               else match l2 with
                    | [] => l
                    | c3 :: l3 =>
                        if space3 c1 c2 c3 then drop_space l3 else l
                    end
           end
  end.

(** The same at the end of a text, on the text in reverse: [r] starts with
    the last byte. *)
Fixpoint drop_space_end (r : list ascii) : list ascii :=
  match r with
  | [] => []
  | c3 :: r1 =>
      if space1 c3 then drop_space_end r1
      else match r1 with
           | [] => r
           | c2 :: r2 =>
               if space2 c2 c3 then drop_space_end r2
               else match r2 with
                    | [] => r
                    | c1 :: r3 =>
                        if space3 c1 c2 c3 then drop_space_end r3 else r
                    end
           end
  end.

(** [s.trim()] *)
Definition trim (s : string) : string :=
  string_of_list_ascii
    (rev (drop_space_end (rev (drop_space (list_ascii_of_string s))))).

(** [s.split('\n')] *)
Fixpoint split_nl (s : string) : list string :=
  match s with
  | EmptyString => [EmptyString]
  | String c rest =>
      if (nat_of_ascii c =? 10)%nat then EmptyString :: split_nl rest
      else match split_nl rest with
           | h :: t => String c h :: t
           | [] => [String c EmptyString]
           end
  end.

(** ** Insertion-ordered maps with string keys *)

Module JsMap.
Section Ops.
Context {V : Type}.

Fixpoint get (k : string) (m : list (string * V)) : option V :=
  match m with
  | [] => None
  | (k', v) :: m' => if k' =? k then Some v else get k m'
  end.

Definition has (k : string) (m : list (string * V)) : bool :=
  match get k m with Some _ => true | None => false end.

(** [m.set(k, v)]: an existing key keeps its position. *)
Fixpoint set (k : string) (v : V) (m : list (string * V))
  : list (string * V) :=
  match m with
  | [] => [(k, v)]
  | (k', v') :: m' =>
      if k' =? k then (k, v) :: m' else (k', v') :: set k v m'
  end.

Definition delete (k : string) (m : list (string * V))
  : list (string * V) :=
  filter (fun kv => negb (fst kv =? k)) m.

Definition size (m : list (string * V)) : nat := length m.

Definition keys (m : list (string * V)) : list string := map fst m.
End Ops.
End JsMap.

(** ** Data of the relay *)

(** The value stored per socket id in a room: [{ username, language, role }]. *)
Record User := mkUser {
  username : string;
  language : string;
  role : string
}.

(** A message object.  The join notice has only [username], [text],
    [timestamp] and [type]; the other fields are then absent. *)
Record Msg := mkMsg {
  msg_username : string;
  msg_text : string;
  msg_originalText : option string;
  msg_isTranslated : option bool;
  msg_timestamp : string;
  msg_type : string;
  msg_role : option string
}.

(** [rooms] and [messageHistory] *)
Record Server := mkServer {
  rooms : list (string * list (string * User));
  messageHistory : list (string * list Msg)
}.

Definition init : Server := mkServer [] [].

(** [socket.emit] reaches the handler's own socket, [io.to(name).emit] the
    Socket.IO room [name] (a socket id names the room of that socket). *)
Inductive Target :=
| Socket (id : string)
| To (name : string).

(** The four events sent to clients, with their payloads. *)
Inductive Payload :=
| ErrorP (message : string)
| MessageHistoryP (history : list Msg)
| MessageP (m : Msg)
| SuggestionsP (suggestions : list string).

Inductive Effect :=
| SocketJoin (id room : string)
| Emit (to : Target) (p : Payload)
| GetDocs
| GenerateContent (text : string) (answer : option string)
| TranslatePost (text lang : string) (answer : option string).

Record Run (World : Type) := mkRun {
  world : World;
  server : Server;
  out : list Effect
}.
Arguments mkRun {World} _ _ _.
Arguments world {World} _.
Arguments server {World} _.
Arguments out {World} _.

Inductive Event :=
| Join (id room username language role : string)
| ChatMessage (id room message language : string)
| Disconnect (id : string).

(** The filter of the history replay in [join]. *)
Definition visibleTo (role : string) (msg : Msg) : bool :=
  if role =? "user"
  then negb (msg_type msg =? "system") && negb (msg_type msg =? "private")
  else true.

Definition joinMessage (username timestamp : string) : Msg :=
  mkMsg "System" (username ++ " has joined the chat") None None
        timestamp "system" None.

(** [messageToSend] of the delivery loop. *)
Definition messageToSend (sender : User) (text message : string)
    (translated : bool) (timestamp : string) : Msg :=
  mkMsg (username sender) text (Some message) (Some translated)
        timestamp "public" (Some (role sender)).

(** [messageHistory.get(room).push(m)]; [None] when the room has no log
    (the call on [undefined] throws). *)
Definition pushHistory (room : string) (m : Msg)
    (h : list (string * list Msg)) : option (list (string * list Msg)) :=
  match JsMap.get room h with
  | Some log => Some (JsMap.set room (log ++ [m]) h)
  | None => None
  end.

(** The emits of the suggestion loop: one per entry whose role is agent. *)
Fixpoint pushSuggestions (suggestions : list string)
    (roomUsers : list (string * User)) : list Effect :=
  match roomUsers with
  | [] => []
  | (userId, user) :: rest =>
      if role user =? "agent"
      then Emit (To userId) (SuggestionsP suggestions)
             :: pushSuggestions suggestions rest
      else pushSuggestions suggestions rest
  end.

(** The body of [disconnect]'s loop, for the first room holding the socket. *)
Definition leaveRoom (id room : string) (users : list (string * User))
    (s : Server) : Server :=
  let users' := JsMap.delete id users in
  if (JsMap.size users' =? 0)%nat
  then mkServer (JsMap.delete room (rooms s))
                (JsMap.delete room (messageHistory s))
  else mkServer (JsMap.set room users' (rooms s)) (messageHistory s).

Definition disconnect (id : string) (s : Server) : Server :=
  match find (fun ru => JsMap.has id (snd ru)) (rooms s) with
  | Some (room, users) => leaveRoom id room users s
  | None => s
  end.

Section Relay.
Variable World : Type.
Variable KbDoc : Type.
(** [new Date().toISOString()] *)
Variable now : World -> string * World.
(** [getDocs(collection(db, 'kb'))], mapped to plain objects. *)
Variable getDocs : World -> option (list KbDoc) * World.
(** [model.generateContent(prompt)] then [response.text()]; the prompt is
    built from the message text and the knowledge base. *)
Variable generateContent :
  string -> list KbDoc -> World -> option string * World.
(** The POST to the translator; the answer is
    [response.data[0].translations[0].text]. *)
Variable axiosTranslate : string -> string -> World -> option string * World.

Definition getKnowledgeBase (w : World)
  : option (list KbDoc) * World * list Effect :=
  let '(r, w') := getDocs w in (r, w', [GetDocs]).

Definition translateText (text targetLanguage : string) (w : World)
  : option string * World * list Effect :=
  if negb (truthy text) || negb (truthy targetLanguage) then (None, w, [])
  else
    let '(r, w') := axiosTranslate text targetLanguage w in
    (r, w', [TranslatePost text targetLanguage r]).

(** [analyzeMessage], for an argument that is a string.  The chat handler
    passes the message, a non-empty string; what the function does with a
    value of another type is [analyzeValue] below. *)
Definition analyzeMessage (text : string) (w : World)
  : option (list string) * World * list Effect :=
  if negb (truthy text) then (None, w, [])
  else
    let '(kb, w1, e1) := getKnowledgeBase w in
    match kb with
    | None => (None, w1, e1)
    | Some [] => (None, w1, e1)
    | Some data =>
        let '(resp, w2) := generateContent text data w1 in
        match resp with
        | None => (None, w2, e1 ++ [GenerateContent text None])
        | Some body =>
            (Some (filter (fun s => truthy (trim s)) (split_nl body)),
             w2, e1 ++ [GenerateContent text (Some body)])
        end
    end.

(** [socket.on('join', ...)] *)
Definition join (id room uname lang rl : string) (w : World) (s : Server)
  : Run World :=
  if negb (truthy room) || negb (truthy uname) || negb (truthy lang)
     || negb (truthy rl)
  then mkRun w s [Emit (Socket id) (ErrorP "Invalid join parameters")]
  else
    let rooms1 :=
      if JsMap.has room (rooms s) then rooms s
      else JsMap.set room [] (rooms s) in
    let users :=
      match JsMap.get room rooms1 with Some u => u | None => [] end in
    let rooms2 :=
      JsMap.set room (JsMap.set id (mkUser uname lang rl) users) rooms1 in
    let replay :=
      match JsMap.get room (messageHistory s) with
      | Some log =>
          [Emit (Socket id) (MessageHistoryP (filter (visibleTo rl) log))]
      | None => []
      end in
    let '(timestamp, w') := now w in
    let m := joinMessage uname timestamp in
    let hist1 :=
      if JsMap.has room (messageHistory s) then messageHistory s
      else JsMap.set room [] (messageHistory s) in
    let log :=
      match JsMap.get room hist1 with Some l => l | None => [] end in
    mkRun w' (mkServer rooms2 (JsMap.set room (log ++ [m]) hist1))
          (SocketJoin id room :: replay ++ [Emit (To room) (MessageP m)]).

(** One iteration of the delivery loop of [chatMessage], for the entry
    [(userId, user)]: the result is the world, the history map and the
    effects of the iteration. *)
Definition deliverTo (sender : User) (room message lang timestamp : string)
    (userId : string) (user : User)
    (w : World) (h : list (string * list Msg))
  : World * list (string * list Msg) * list Effect :=
  let failed := Emit (To userId) (ErrorP "Message delivery failed") in
  let send (text : string) (translated : bool) (w' : World)
           (calls : list Effect) :=
    let m := messageToSend sender text message translated timestamp in
    match pushHistory room m h with
    | Some h' => (w', h', calls ++ [Emit (To userId) (MessageP m)])
    | None => (w', h, calls ++ [failed])
    end in
  if negb (language user =? lang) then
    let '(r, w', calls) := translateText message (language user) w in
    match r with
    | Some text => send text true w' calls
    | None => (w', h, calls ++ [failed])
    end
  else send message false w [].

(** The delivery loop over the entries of [roomUsers]. *)
Fixpoint deliverAll (sender : User) (room message lang timestamp : string)
    (roomUsers : list (string * User))
    (w : World) (h : list (string * list Msg))
  : World * list (string * list Msg) * list Effect :=
  match roomUsers with
  | [] => (w, h, [])
  | (userId, user) :: rest =>
      let '(w1, h1, o1) :=
        deliverTo sender room message lang timestamp userId user w h in
      let '(w2, h2, o2) :=
        deliverAll sender room message lang timestamp rest w1 h1 in
      (w2, h2, o1 ++ o2)
  end.

(** The suggestion part of [chatMessage]. *)
Definition suggest (id message : string) (sender : User)
    (roomUsers : list (string * User)) (w : World)
  : World * list Effect :=
  if role sender =? "user" then
    let '(r, w', calls) := analyzeMessage message w in
    match r with
    | Some suggestions =>
        (w', calls ++ pushSuggestions suggestions roomUsers)
    | None =>
        (w', calls ++
             [Emit (Socket id) (ErrorP "Failed to generate suggestions")])
    end
  else (w, []).

(** [socket.on('chatMessage', ...)] *)
Definition chatMessage (id room message lang : string)
    (w : World) (s : Server) : Run World :=
  if negb (truthy room) || negb (truthy message) || negb (truthy lang)
  then mkRun w s [Emit (Socket id) (ErrorP "Invalid message parameters")]
  else
    match JsMap.get room (rooms s) with
    | None => mkRun w s [Emit (Socket id) (ErrorP "Room not found")]
    | Some roomUsers =>
        match JsMap.get id roomUsers with
        | None =>
            mkRun w s [Emit (Socket id) (ErrorP "User not found in room")]
        | Some sender =>
            let '(timestamp, w0) := now w in
            let '(w1, o1) := suggest id message sender roomUsers w0 in
            let '(w2, h2, o2) :=
              deliverAll sender room message lang timestamp roomUsers
                         w1 (messageHistory s) in
            mkRun w2 (mkServer (rooms s) h2) (o1 ++ o2)
        end
    end.

(** [socket.on('disconnect', ...)]: nothing is sent to any client. *)
Definition onDisconnect (id : string) (w : World) (s : Server)
  : Run World :=
  mkRun w (disconnect id s) [].

Definition handle (ev : Event) (w : World) (s : Server) : Run World :=
  match ev with
  | Join id room uname lang rl => join id room uname lang rl w s
  | ChatMessage id room message lang => chatMessage id room message lang w s
  | Disconnect id => onDisconnect id w s
  end.

(** The events of a list handled one after the other. *)
Fixpoint runAll (evs : list Event) (w : World) (s : Server) : Run World :=
  match evs with
  | [] => mkRun w s []
  | ev :: evs' =>
      let r := handle ev w s in
      let r' := runAll evs' (world r) (server r) in
      mkRun (world r') (server r') (out r ++ out r')
  end.

(** The states of the two maps after any sequence of events, whatever the
    outside world answers. *)
Inductive reachable : Server -> Prop :=
| reach_init : reachable init
| reach_step ev w s :
    reachable s -> reachable (server (handle ev w s)).

End Relay.

(** ** Reading a run *)

(** The message objects pushed to clients, in the order of the emits. *)
Definition delivered (o : list Effect) : list Msg :=
  flat_map (fun e => match e with
                     | Emit _ (MessageP m) => [m]
                     | _ => []
                     end) o.

(** [ev] is a join event naming [room]. *)
Definition joinsRoom (room : string) (ev : Event) : bool :=
  match ev with
  | Join _ r _ _ _ => r =? room
  | _ => false
  end.

Definition deliveryFailed (userId : string) : Effect :=
  Emit (To userId) (ErrorP "Message delivery failed").

(** A join whose four fields are all present. *)
Definition validJoin (room uname lang rl : string) : Prop :=
  truthy room = true /\ truthy uname = true /\ truthy lang = true
  /\ truthy rl = true.

Definition orEmpty {A : Type} (o : option (list A)) : list A :=
  match o with Some l => l | None => [] end.

(** A chat message that passes the three checks of the handler: the fields
    are present, the room exists and the socket is one of its entries. *)
Definition accepted (id room message lang : string) (s : Server)
    (roomUsers : list (string * User)) (sender : User) : Prop :=
  truthy room = true /\ truthy message = true /\ truthy lang = true
  /\ JsMap.get room (rooms s) = Some roomUsers
  /\ JsMap.get id roomUsers = Some sender.

(** The keys of the registry and of every room are distinct: each is a
    JavaScript [Map]. *)
Definition distinctKeys (s : Server) : Prop :=
  NoDup (JsMap.keys (rooms s))
  /\ forall r us, In (r, us) (rooms s) -> NoDup (JsMap.keys us).

(** The socket ids that were sent the delivery failure, in the order of the
    emits. *)
Definition failedRecipients (o : list Effect) : list string :=
  flat_map (fun e => match e with
                     | Emit (To userId) (ErrorP msg) =>
                         if msg =? "Message delivery failed" then [userId]
                         else []
                     | _ => []
                     end) o.

(** The translator did not answer for the language of this profile: it was
    not asked (an empty argument), or a call for the message and that
    language failed in the run. *)
Definition translationFailed (message : string) (user : User)
    (o : list Effect) : Prop :=
  truthy message && truthy (language user) = false
  \/ In (TranslatePost message (language user) None) o.

(** The four ways one iteration of the delivery loop can go, as a relation
    between the history map before and after and the effects in between. *)
Inductive Delivery (sender : User) (room message lang timestamp : string)
    (userId : string) (user : User) (h : list (string * list Msg))
  : list (string * list Msg) -> list Effect -> Prop :=
| sent_original h' :
    language user = lang ->
    pushHistory room (messageToSend sender message message false timestamp) h
      = Some h' ->
    Delivery sender room message lang timestamp userId user h h'
      [Emit (To userId)
         (MessageP (messageToSend sender message message false timestamp))]
| sent_translated text h' :
    language user <> lang ->
    pushHistory room (messageToSend sender text message true timestamp) h
      = Some h' ->
    Delivery sender room message lang timestamp userId user h h'
      [TranslatePost message (language user) (Some text);
       Emit (To userId)
         (MessageP (messageToSend sender text message true timestamp))]
| translation_failed calls :
    language user <> lang ->
    (calls = [] /\ truthy message && truthy (language user) = false)
    \/ calls = [TranslatePost message (language user) None] ->
    Delivery sender room message lang timestamp userId user h h
      (calls ++ [deliveryFailed userId])
| push_failed calls :
    JsMap.get room h = None ->
    (forall e, In e calls ->
       exists text, e = TranslatePost message (language user) (Some text)) ->
    Delivery sender room message lang timestamp userId user h h
      (calls ++ [deliveryFailed userId]).

(** The delivery loop as a chain of iterations. *)
Inductive Deliveries (sender : User) (room message lang timestamp : string)
  : list (string * User) -> list (string * list Msg) ->
    list (string * list Msg) -> list Effect -> Prop :=
| deliveries_nil h :
    Deliveries sender room message lang timestamp [] h h []
| deliveries_cons userId user rest h h1 h2 o1 o2 :
    Delivery sender room message lang timestamp userId user h h1 o1 ->
    Deliveries sender room message lang timestamp rest h1 h2 o2 ->
    Deliveries sender room message lang timestamp
      ((userId, user) :: rest) h h2 (o1 ++ o2).

(** ** A concrete outside world

    The clock always answers the same instant, the knowledge base holds one
    document, Gemini answers three lines, and the translator knows one
    phrase in one direction. *)
Module Demo.
Definition now (w : unit) : string * unit :=
  ("2024-01-01T00:00:00.000Z", w).
Definition getDocs (w : unit) : option (list string) * unit :=
  (Some ["refunds"], w).
Definition generateContent (text : string) (kb : list string) (w : unit)
  : option string * unit :=
  (Some ("Greet" ++ String (ascii_of_nat 10)
           (" " ++ String (ascii_of_nat 10) "Offer a refund"))%string, w).
Definition axiosTranslate (text lang : string) (w : unit)
  : option string * unit :=
  (if (text =? "bonjour") && (lang =? "en") then Some "hello" else None, w).

Definition join := join unit now.
Definition chatMessage :=
  chatMessage unit string now getDocs generateContent axiosTranslate.
Definition reachable :=
  reachable unit string now getDocs generateContent axiosTranslate.

Definition ann : User := mkUser "Ann" "en" "agent".
Definition bob : User := mkUser "Bob" "fr" "user".

(** Ann, then Bob, have joined room r1. *)
Definition annAndBob : Server :=
  server (join "b1" "r1" "Bob" "fr" "user" tt
            (server (join "a1" "r1" "Ann" "en" "agent" tt init))).

(** Bob alone has joined room r1. *)
Definition bobAlone : Server :=
  server (join "b1" "r1" "Bob" "fr" "user" tt init).
End Demo.

(** ** Start-up: environment and configuration *)

Definition requiredEnvVars : list string :=
  ["PORT"; "CLIENT_URL"; "AZURE_TRANSLATOR_KEY"; "AZURE_TRANSLATOR_REGION";
   "GEMINI_API_KEY"].

(** [process.env[name]] is truthy: the variable is set, and not to the
    empty string. *)
Definition envSet (env : string -> option string) (name : string) : bool :=
  match env name with
  | Some v => truthy v
  | None => false
  end.

(** The loop over the required variables stops at the first one that is
    not set. *)
Fixpoint firstMissing (env : string -> option string) (names : list string)
  : option string :=
  match names with
  | [] => None
  | name :: rest =>
      if envSet env name then firstMissing env rest else Some name
  end.

(** The message of the error thrown at start-up, if one is thrown. *)
Definition validateEnv (env : string -> option string) : option string :=
  match firstMissing env requiredEnvVars with
  | Some name =>
      Some ("Missing required environment variable: " ++ name)%string
  | None => None
  end.

Inductive JsValue :=
| JsString (s : string)
| JsNumber (n : nat).

(** [process.env[name] || fallback] *)
Definition envOr (env : string -> option string) (name : string)
    (fallback : JsValue) : JsValue :=
  match env name with
  | Some v => if truthy v then JsString v else fallback
  | None => fallback
  end.

Record Config := mkConfig {
  port : JsValue;
  clientUrl : JsValue;
  translationEndpoint : string;
  translationKey : option string;
  translationRegion : option string
}.

Definition config (env : string -> option string) : Config :=
  mkConfig (envOr env "PORT" (JsNumber 3001))
           (envOr env "CLIENT_URL" (JsString "http://localhost:5173"))
           "https://api.cognitive.microsofttranslator.com"
           (env "AZURE_TRANSLATOR_KEY")
           (env "AZURE_TRANSLATOR_REGION").

(** ** The two HTTP routes *)

(** The answer of [GET /api/kb]: the documents, or status 500 with the
    error of [getKnowledgeBase]. *)
Inductive KbResponse (KbDoc : Type) :=
| KbOk (data : list KbDoc)
| KbServerError.
Arguments KbOk {KbDoc} _.
Arguments KbServerError {KbDoc}.

(** The answer of [POST /api/analyze].  The body of the 500 answer is the
    message of the caught error; it is not recorded. *)
Inductive AnalyzeResponse :=
| AnalyzeOk (suggestions : list string)
| TextRequired
| NoSuggestionsFound
| AnalyzeServerError.

Definition statusOf (r : AnalyzeResponse) : nat :=
  match r with
  | AnalyzeOk _ => 200
  | TextRequired => 400
  | NoSuggestionsFound => 404
  | AnalyzeServerError => 500
  end.

(** The [text] field of a request body: a string, a value that is falsy and
    not a string (the field is absent, or null, 0, false), or any other
    value (a number, an array, an object). *)
Inductive JsField :=
| FieldString (s : string)
| FieldFalsy
| FieldOther.

Definition fieldTruthy (f : JsField) : bool :=
  match f with
  | FieldString s => truthy s
  | FieldFalsy => false
  | FieldOther => true
  end.

Section Api.
Variable World : Type.
Variable KbDoc : Type.
Variable getDocs : World -> option (list KbDoc) * World.
Variable generateContent :
  string -> list KbDoc -> World -> option string * World.

(** [app.get('/api/kb', ...)] *)
Definition apiKb (w : World) : KbResponse KbDoc * World * list Effect :=
  let '(r, w', calls) := getKnowledgeBase World KbDoc getDocs w in
  match r with
  | Some data => (KbOk data, w', calls)
  | None => (KbServerError, w', calls)
  end.

(** [app.post('/api/analyze', ...)], for a body whose [text] field is a
    string. *)
Definition apiAnalyze (text : string) (w : World)
  : AnalyzeResponse * World * list Effect :=
  if negb (truthy text) then (TextRequired, w, [])
  else
    let '(r, w', calls) :=
      analyzeMessage World KbDoc getDocs generateContent text w in
    match r with
    | Some [] => (NoSuggestionsFound, w', calls)
    | Some suggestions => (AnalyzeOk suggestions, w', calls)
    | None => (AnalyzeServerError, w', calls)
    end.

(** [analyzeMessage] on any value: one that is not a string, or is the
    empty string, is refused before anything is read. *)
Definition analyzeValue (text : JsField) (w : World)
  : option (list string) * World * list Effect :=
  match text with
  | FieldString s =>
      analyzeMessage World KbDoc getDocs generateContent s w
  | FieldFalsy | FieldOther => (None, w, [])
  end.

(** [app.post('/api/analyze', ...)], for any body. *)
Definition apiAnalyzeBody (text : JsField) (w : World)
  : AnalyzeResponse * World * list Effect :=
  if negb (fieldTruthy text) then (TextRequired, w, [])
  else
    let '(r, w', calls) := analyzeValue text w in
    match r with
    | Some [] => (NoSuggestionsFound, w', calls)
    | Some suggestions => (AnalyzeOk suggestions, w', calls)
    | None => (AnalyzeServerError, w', calls)
    end.
End Api.

(** ** More ways to read a run and a state *)

(** The calls to the translator, as (text, target language), in order. *)
Definition translatorCalls (o : list Effect) : list (string * string) :=
  flat_map (fun e => match e with
                     | TranslatePost text lang _ => [(text, lang)]
                     | _ => []
                     end) o.

(** The errors sent, with their targets, in order. *)
Definition errorsSent (o : list Effect) : list (Target * string) :=
  flat_map (fun e => match e with
                     | Emit tgt (ErrorP msg) => [(tgt, msg)]
                     | _ => []
                     end) o.

Definition isJoinNotice (m : Msg) : Prop :=
  exists name timestamp, m = joinMessage name timestamp.

Definition isChatRecord (m : Msg) : Prop :=
  exists sender text message translated timestamp,
    m = messageToSend sender text message translated timestamp.

(** The three fields of a stored profile are present. *)
Definition validProfile (u : User) : Prop :=
  truthy (username u) = true /\ truthy (language u) = true
  /\ truthy (role u) = true.

(** A text made of white space only. *)
Inductive Spaces : list ascii -> Prop :=
| spaces_nil : Spaces []
| spaces_1 c l : space1 c = true -> Spaces l -> Spaces (c :: l)
| spaces_2 c1 c2 l : space2 c1 c2 = true -> Spaces l -> Spaces (c1 :: c2 :: l)
| spaces_3 c1 c2 c3 l :
    space3 c1 c2 c3 = true -> Spaces l -> Spaces (c1 :: c2 :: c3 :: l).

(** The same, read from the end. *)
Inductive SpacesEnd : list ascii -> Prop :=
| spaces_end_nil : SpacesEnd []
| spaces_end_1 c r : space1 c = true -> SpacesEnd r -> SpacesEnd (c :: r)
| spaces_end_2 c1 c2 r :
    space2 c1 c2 = true -> SpacesEnd r -> SpacesEnd (c2 :: c1 :: r)
| spaces_end_3 c1 c2 c3 r :
    space3 c1 c2 c3 = true -> SpacesEnd r -> SpacesEnd (c3 :: c2 :: c1 :: r).

Definition newline : ascii := ascii_of_nat 10.

(** The lines of an answer that pass the filter of [analyzeMessage]. *)
Definition nonBlankLines (body : string) : list string :=
  filter (fun s => truthy (trim s)) (split_nl body).

(** ** The server as a machine

    The chat handler is an [async] function: it gives way to other events
    at [await analyzeMessage(message)] (twice inside it, at the read of the
    knowledge base and at the call of the model) and at each
    [await translateText(...)].  [translateText] throws before it makes
    its request only for an empty message or an empty language; no accepted
    message and no registered profile has one ([profilesValid] holds of
    every reachable state), and there the machine lets the loop go on to
    the next entry in the same step.

    The state of the machine holds, with the two maps, the handlers that
    are waiting for an answer.  A handler keeps the [Map] object of its
    room, [roomUsers], and its loop iterates it while other handlers change
    it: an entry added during the loop is visited, an entry deleted before
    its turn is not.  A room map therefore has an identity and its entries
    carry the rank at which they were inserted; the iterator is the rank it
    will look at next. *)

Module Async.

(** An entry of a room map, with its rank of insertion. *)
Record Slot := mkSlot {
  slot_stamp : nat;
  slot_id : string;
  slot_user : User
}.

(** A [Map] object of socket id to profile: its identity, the rank of the
    next insertion, and its entries in the order of insertion. *)
Record RoomMap := mkRoomMap {
  map_id : nat;
  map_next : nat;
  map_slots : list Slot
}.

Definition mapHas (id : string) (m : RoomMap) : bool :=
  existsb (fun s => slot_id s =? id) (map_slots m).

Definition mapGet (id : string) (m : RoomMap) : option User :=
  match find (fun s => slot_id s =? id) (map_slots m) with
  | Some s => Some (slot_user s)
  | None => None
  end.

(** [m.set(id, u)]: the entry of an existing key keeps its rank. *)
Definition mapSet (id : string) (u : User) (m : RoomMap) : RoomMap :=
  if mapHas id m
  then mkRoomMap (map_id m) (map_next m)
         (map (fun s => if slot_id s =? id
                        then mkSlot (slot_stamp s) id u else s)
              (map_slots m))
  else mkRoomMap (map_id m) (S (map_next m))
         (map_slots m ++ [mkSlot (map_next m) id u]).

Definition mapDelete (id : string) (m : RoomMap) : RoomMap :=
  mkRoomMap (map_id m) (map_next m)
    (filter (fun s => negb (slot_id s =? id)) (map_slots m)).

Definition entries (slots : list Slot) : list (string * User) :=
  map (fun s => (slot_id s, slot_user s)) slots.

(** What a chat handler keeps from its arrival: its socket, the fields of
    the event, the map object and the sender it found, and the time it
    read. *)
Record Call := mkCall {
  call_socket : string;
  call_room : string;
  call_map : nat;
  call_sender : User;
  call_message : string;
  call_lang : string;
  call_timestamp : string
}.

Section Machine.
Variable KbDoc : Type.

(** Where a handler waits: for the knowledge base, for the model (it holds
    the documents read), or for the translation of the entry its loop has
    reached. *)
Inductive Phase :=
| AwaitKb
| AwaitModel (data : list KbDoc)
| AwaitTranslation (slot : Slot).

Inductive Remote :=
| GetDocsCall
| GenerateCall (text : string) (data : list KbDoc)
| TranslateCall (text lang : string).

(** What a step does to the outside: an emit, [socket.join], or a request
    to a remote service on behalf of a handler. *)
Inductive Out :=
| Sent (to : Target) (p : Payload)
| Joined (id room : string)
| Request (task : nat) (call : Remote).

(** What the machine is given: a socket event with the time read by its
    handler, or the answer to the request of a waiting handler; [None] is
    a call that failed. *)
Inductive Input :=
| InJoin (id room username language role timestamp : string)
| InChat (id room message language timestamp : string)
| InDisconnect (id : string)
| KbAnswer (task : nat) (answer : option (list KbDoc))
| ModelAnswer (task : nat) (answer : option string)
| TranslateAnswer (task : nat) (answer : option string).

Record State := mkState {
  st_rooms : list (string * RoomMap);
  st_history : list (string * list Msg);
  st_maps : nat;
  st_tasks : list (nat * (Call * Phase));
  st_next : nat
}.

Definition start : State := mkState [] [] 0 [] 0.

Fixpoint taskGet (tid : nat) (l : list (nat * (Call * Phase)))
  : option (Call * Phase) :=
  match l with
  | [] => None
  | (k, t) :: l' => if (k =? tid)%nat then Some t else taskGet tid l'
  end.

Definition taskDrop (tid : nat) (l : list (nat * (Call * Phase)))
  : list (nat * (Call * Phase)) :=
  filter (fun kt => negb (fst kt =? tid)%nat) l.

Definition taskPut (tid : nat) (t : Call * Phase)
    (l : list (nat * (Call * Phase))) : list (nat * (Call * Phase)) :=
  (tid, t) :: taskDrop tid l.

(** The entries of the handler's map object as they are now: those of the
    map registered under the room, when it is still that object; none when
    the object has been dropped from the registry, which happens only once
    it is empty. *)
Definition liveSlots (st : State) (c : Call) : list Slot :=
  match JsMap.get (call_room c) (st_rooms st) with
  | Some m => if (map_id m =? call_map c)%nat then map_slots m else []
  | None => []
  end.

Definition failedFor (sl : Slot) : Out :=
  Sent (To (slot_id sl)) (ErrorP "Message delivery failed").

Definition recordFor (c : Call) (text : string) (translated : bool) : Msg :=
  messageToSend (call_sender c) text (call_message c) translated
                (call_timestamp c).

(** [messageHistory.get(room).push(m)] then the emit to the recipient, or
    the failure when the push throws. *)
Definition pushAndSend (c : Call) (sl : Slot) (m : Msg)
    (h : list (string * list Msg)) : list (string * list Msg) * Out :=
  match pushHistory (call_room c) m h with
  | Some h' => (h', Sent (To (slot_id sl)) (MessageP m))
  | None => (h, failedFor sl)
  end.

(** The delivery loop over the entries still to visit, up to the first
    entry whose translation has to be awaited: the history, what was sent,
    and that entry if there is one. *)
Fixpoint serve (tid : nat) (c : Call) (slots : list Slot)
    (h : list (string * list Msg))
  : list (string * list Msg) * list Out * option Slot :=
  match slots with
  | [] => (h, [], None)
  | sl :: rest =>
      if language (slot_user sl) =? call_lang c then
        let '(h1, o1) :=
          pushAndSend c sl (recordFor c (call_message c) false) h in
        let '(h2, o, r) := serve tid c rest h1 in
        (h2, o1 :: o, r)
      else if negb (truthy (call_message c))
              || negb (truthy (language (slot_user sl))) then
        let '(h2, o, r) := serve tid c rest h in
        (h2, failedFor sl :: o, r)
      else
        (h,
         [Request tid
            (TranslateCall (call_message c) (language (slot_user sl)))],
         Some sl)
  end.

(** The loop from the rank [from] on: it ends, or the handler waits. *)
Definition loopFrom (tid : nat) (c : Call) (from : nat) (st : State)
  : State * list Out :=
  let slots :=
    filter (fun s => (from <=? slot_stamp s)%nat) (liveSlots st c) in
  let '(h, o, r) := serve tid c slots (st_history st) in
  (mkState (st_rooms st) h (st_maps st)
     (match r with
      | Some sl => taskPut tid (c, AwaitTranslation sl) (st_tasks st)
      | None => taskDrop tid (st_tasks st)
      end)
     (st_next st),
   o).

Definition suggestionFailed (c : Call) : Out :=
  Sent (Socket (call_socket c)) (ErrorP "Failed to generate suggestions").

(** The suggestion loop, over the entries of the map as they are now. *)
Definition suggestionsFor (st : State) (c : Call)
    (suggestions : list string) : list Out :=
  map (fun e => Sent (To (fst e)) (SuggestionsP suggestions))
      (filter (fun e => role (snd e) =? "agent")
              (entries (liveSlots st c))).

(** [socket.on('join', ...)] *)
Definition join (id room uname lang rl timestamp : string) (st : State)
  : State * list Out :=
  if negb (truthy room) || negb (truthy uname) || negb (truthy lang)
     || negb (truthy rl)
  then (st, [Sent (Socket id) (ErrorP "Invalid join parameters")])
  else
    let '(rooms1, maps1) :=
      if JsMap.has room (st_rooms st) then (st_rooms st, st_maps st)
      else (JsMap.set room (mkRoomMap (st_maps st) 0 []) (st_rooms st),
            S (st_maps st)) in
    let m :=
      match JsMap.get room rooms1 with
      | Some m => m
      | None => mkRoomMap (st_maps st) 0 []
      end in
    let rooms2 := JsMap.set room (mapSet id (mkUser uname lang rl) m) rooms1 in
    let replay :=
      match JsMap.get room (st_history st) with
      | Some log =>
          [Sent (Socket id) (MessageHistoryP (filter (visibleTo rl) log))]
      | None => []
      end in
    let notice := joinMessage uname timestamp in
    let hist1 :=
      if JsMap.has room (st_history st) then st_history st
      else JsMap.set room [] (st_history st) in
    let log :=
      match JsMap.get room hist1 with Some l => l | None => [] end in
    (mkState rooms2 (JsMap.set room (log ++ [notice]) hist1) maps1
             (st_tasks st) (st_next st),
     Joined id room :: replay ++ [Sent (To room) (MessageP notice)]).

(** [socket.on('disconnect', ...)] *)
Definition disconnect (id : string) (st : State) : State :=
  match find (fun rm => mapHas id (snd rm)) (st_rooms st) with
  | Some (room, m) =>
      let m' := mapDelete id m in
      if (length (map_slots m') =? 0)%nat
      then mkState (JsMap.delete room (st_rooms st))
                   (JsMap.delete room (st_history st))
                   (st_maps st) (st_tasks st) (st_next st)
      else mkState (JsMap.set room m' (st_rooms st)) (st_history st)
                   (st_maps st) (st_tasks st) (st_next st)
  | None => st
  end.

(** [socket.on('chatMessage', ...)] up to its first await. *)
Definition chat (id room message lang timestamp : string) (st : State)
  : State * list Out :=
  if negb (truthy room) || negb (truthy message) || negb (truthy lang)
  then (st, [Sent (Socket id) (ErrorP "Invalid message parameters")])
  else
    match JsMap.get room (st_rooms st) with
    | None => (st, [Sent (Socket id) (ErrorP "Room not found")])
    | Some m =>
        match mapGet id m with
        | None => (st, [Sent (Socket id) (ErrorP "User not found in room")])
        | Some sender =>
            let c := mkCall id room (map_id m) sender message lang
                            timestamp in
            let tid := st_next st in
            let st1 := mkState (st_rooms st) (st_history st) (st_maps st)
                               (st_tasks st) (S tid) in
            if role sender =? "user"
            then (mkState (st_rooms st) (st_history st) (st_maps st)
                          (taskPut tid (c, AwaitKb) (st_tasks st)) (S tid),
                  [Request tid GetDocsCall])
            else loopFrom tid c 0 st1
        end
    end.

(** The handler after an answer. *)
Definition resume (tid : nat) (c : Call) (ph : Phase) (i : Input)
    (st : State) : State * list Out :=
  match ph, i with
  | AwaitKb, KbAnswer _ (Some (d :: data)) =>
      (mkState (st_rooms st) (st_history st) (st_maps st)
               (taskPut tid (c, AwaitModel (d :: data)) (st_tasks st))
               (st_next st),
       [Request tid (GenerateCall (call_message c) (d :: data))])
  | AwaitKb, KbAnswer _ _ =>
      let '(st', o) := loopFrom tid c 0 st in (st', suggestionFailed c :: o)
  | AwaitModel _, ModelAnswer _ (Some body) =>
      let '(st', o) := loopFrom tid c 0 st in
      (st', suggestionsFor st c (nonBlankLines body) ++ o)
  | AwaitModel _, ModelAnswer _ None =>
      let '(st', o) := loopFrom tid c 0 st in (st', suggestionFailed c :: o)
  | AwaitTranslation sl, TranslateAnswer _ answer =>
      let '(h1, o1) :=
        match answer with
        | Some text => pushAndSend c sl (recordFor c text true) (st_history st)
        | None => (st_history st, failedFor sl)
        end in
      let '(st', o) :=
        loopFrom tid c (S (slot_stamp sl))
                 (mkState (st_rooms st) h1 (st_maps st) (st_tasks st)
                          (st_next st)) in
      (st', o1 :: o)
  | _, _ => (st, [])
  end.

(** The handler that an answer is for. *)
Definition answered (i : Input) : option nat :=
  match i with
  | KbAnswer tid _ | ModelAnswer tid _ | TranslateAnswer tid _ => Some tid
  | _ => None
  end.

Definition step (st : State) (i : Input) : State * list Out :=
  match i with
  | InJoin id room uname lang rl timestamp =>
      join id room uname lang rl timestamp st
  | InChat id room message lang timestamp =>
      chat id room message lang timestamp st
  | InDisconnect id => (disconnect id st, [])
  | KbAnswer tid _ | ModelAnswer tid _ | TranslateAnswer tid _ =>
      match taskGet tid (st_tasks st) with
      | Some (c, ph) => resume tid c ph i st
      | None => (st, [])
      end
  end.

(** The state after a list of inputs, and everything done on the way. *)
Fixpoint after (ins : list Input) (st : State) : State :=
  match ins with
  | [] => st
  | i :: rest => after rest (fst (step st i))
  end.

Fixpoint outputs (ins : list Input) (st : State) : list Out :=
  match ins with
  | [] => []
  | i :: rest => snd (step st i) ++ outputs rest (fst (step st i))
  end.

(** What is done on behalf of the handler [tid]: the outputs of the steps
    that take one of its answers. *)
Fixpoint outputsFor (tid : nat) (ins : list Input) (st : State) : list Out :=
  match ins with
  | [] => []
  | i :: rest =>
      (match answered i with
       | Some t => if (t =? tid)%nat then snd (step st i) else []
       | None => []
       end)
      ++ outputsFor tid rest (fst (step st i))
  end.

(** [P] holds of the state before each input of the list and of the last
    state. *)
Fixpoint throughout (P : State -> Prop) (ins : list Input) (st : State)
  : Prop :=
  P st /\ match ins with
          | [] => True
          | i :: rest => throughout P rest (fst (step st i))
          end.

Inductive reachable : State -> Prop :=
| reach_start : reachable start
| reach_step st i : reachable st -> reachable (fst (step st i)).

(** The call that an input starts or continues. *)
Definition callOf (st : State) (i : Input) : option Call :=
  match i with
  | InChat id room message lang timestamp =>
      if negb (truthy room) || negb (truthy message) || negb (truthy lang)
      then None
      else match JsMap.get room (st_rooms st) with
           | Some m =>
               match mapGet id m with
               | Some sender =>
                   Some (mkCall id room (map_id m) sender message lang
                                timestamp)
               | None => None
               end
           | None => None
           end
  | KbAnswer tid _ | ModelAnswer tid _ | TranslateAnswer tid _ =>
      match taskGet tid (st_tasks st) with
      | Some (c, _) => Some c
      | None => None
      end
  | _ => None
  end.

(** The messages sent, in order. *)
Definition sentMessages (o : list Out) : list Msg :=
  flat_map (fun e => match e with
                     | Sent _ (MessageP m) => [m]
                     | _ => []
                     end) o.

(** For each delivery of the loop, in order: the recipient and the message
    it was sent, or [None] for the delivery failure. *)
Definition outcomes (o : list Out) : list (string * option Msg) :=
  flat_map (fun e => match e with
                     | Sent (To id) (MessageP m) => [(id, Some m)]
                     | Sent (To id) (ErrorP msg) =>
                         if msg =? "Message delivery failed"
                         then [(id, None)] else []
                     | _ => []
                     end) o.

(** The requests made to the translator, as (text, language), in order. *)
Definition translateRequests (o : list Out) : list (string * string) :=
  flat_map (fun e => match e with
                     | Request _ (TranslateCall text lang) => [(text, lang)]
                     | _ => []
                     end) o.

(** The ranks of insertion grow along the entries. *)
Definition ranked (slots : list Slot) : Prop :=
  StronglySorted lt (map slot_stamp slots).

(** What a step does to the log of a room when it appends the messages it
    sends: the log grows by them, in order; a room without a log stays
    without one and nothing is sent. *)
Definition appended (room : string) (h h' : list (string * list Msg))
    (o : list Out) : Prop :=
  match JsMap.get room h with
  | Some log => JsMap.get room h' = Some (log ++ sentMessages o)
  | None => JsMap.get room h' = None /\ sentMessages o = []
  end.

(** The messages of the deliveries that succeeded. *)
Definition successes (l : list (string * option Msg)) : list Msg :=
  flat_map (fun oc => match snd oc with Some m => [m] | None => [] end) l.

(** The outcome of the delivery to an entry: it is addressed to the entry,
    and it is the failure or the message built for it. *)
Definition visited (c : Call) (sl : Slot) (oc : string * option Msg) : Prop :=
  fst oc = slot_id sl
  /\ (snd oc = None
      \/ exists text,
           snd oc
           = Some (recordFor c text
                     (negb (language (slot_user sl) =? call_lang c)))
           /\ (language (slot_user sl) = call_lang c ->
               text = call_message c)).

(** The translations that the loop asks for over a list of entries. *)
Definition translationsDue (c : Call) (slots : list Slot)
  : list (string * string) :=
  map (fun sl => (call_message c, language (slot_user sl)))
      (filter (fun sl => negb (language (slot_user sl) =? call_lang c)
                         && truthy (call_message c)
                         && truthy (language (slot_user sl)))
              slots).

Definition requestOf (tid : nat) (e : Out) : option Remote :=
  match e with
  | Request t r => if (t =? tid)%nat then Some r else None
  | _ => None
  end.

(** The request of a handler that is not answered yet is the last it
    made. *)
Fixpoint lastRequest (tid : nat) (o : list Out) : option Remote :=
  match o with
  | [] => None
  | e :: o' =>
      match lastRequest tid o' with
      | Some r => Some r
      | None => requestOf tid e
      end
  end.

(** The entries that a waiting handler has still to serve, out of the
    entries [slots] of its map: all of them before the loop, the awaited
    entry and those after it in the loop. *)
Definition waiting (c : Call) (slots : list Slot) (ph : Phase)
    (rest : list Slot) : Prop :=
  match ph with
  | AwaitTranslation sl =>
      (language (slot_user sl) =? call_lang c) = false
      /\ exists pre post, slots = pre ++ sl :: post /\ rest = sl :: post
  | _ => rest = slots
  end.

(** The handler that a step runs: the new one of a chat message, or the
    one that the answer is for. *)
Definition actor (st : State) (i : Input) : option nat :=
  match i with
  | InChat _ _ _ _ _ => Some (st_next st)
  | _ => answered i
  end.

(** A handler that waits for the translation for an entry has asked for the
    translation of its message into the language of that entry, which is
    not the language of the message, and has asked for nothing since. *)
Definition asked (st : State) (o : list Out) : Prop :=
  forall tid c sl,
    taskGet tid (st_tasks st) = Some (c, AwaitTranslation sl) ->
    (language (slot_user sl) =? call_lang c) = false
    /\ lastRequest tid o
       = Some (TranslateCall (call_message c) (language (slot_user sl))).

(** The delivery to an entry that did not fail: the message built for it,
    with the original text when its language is the language of the
    message. *)
Definition delivered (c : Call) (sl : Slot) (oc : string * option Msg)
  : Prop :=
  fst oc = slot_id sl
  /\ exists text,
       snd oc
       = Some (recordFor c text
                 (negb (language (slot_user sl) =? call_lang c)))
       /\ (language (slot_user sl) = call_lang c -> text = call_message c).

(** Each step of the list that takes an answer for the handler [tid]
    appends the messages it sends to the log of [room]. *)
Fixpoint logged (tid : nat) (room : string) (ins : list Input) (st : State)
  : Prop :=
  match ins with
  | [] => True
  | i :: rest =>
      (answered i = Some tid ->
       appended room (st_history st) (st_history (fst (step st i)))
                (snd (step st i)))
      /\ logged tid room rest (fst (step st i))
  end.

(** Every registered profile has its three fields. *)
Definition profilesValid (st : State) : Prop :=
  Forall (fun rm => Forall (fun sl => validProfile (slot_user sl))
                           (map_slots (snd rm)))
         (st_rooms st).

(** The entries of a map are in the order of their ranks, below the rank of
    its next insertion. *)
Definition wellRankedMap (m : RoomMap) : Prop :=
  ranked (map_slots m)
  /\ Forall (fun s => slot_stamp s < map_next m) (map_slots m).

Definition wellRanked (st : State) : Prop :=
  Forall (fun rm => wellRankedMap (snd rm)) (st_rooms st).

End Machine.

Arguments AwaitKb {KbDoc}.
Arguments AwaitModel {KbDoc} _.
Arguments AwaitTranslation {KbDoc} _.
Arguments GetDocsCall {KbDoc}.
Arguments GenerateCall {KbDoc} _ _.
Arguments TranslateCall {KbDoc} _ _.
Arguments Sent {KbDoc} _ _.
Arguments Joined {KbDoc} _ _.
Arguments Request {KbDoc} _ _.
Arguments InJoin {KbDoc} _ _ _ _ _ _.
Arguments InChat {KbDoc} _ _ _ _ _.
Arguments InDisconnect {KbDoc} _.
Arguments KbAnswer {KbDoc} _ _.
Arguments ModelAnswer {KbDoc} _ _.
Arguments TranslateAnswer {KbDoc} _ _.
Arguments mkState {KbDoc} _ _ _ _ _.
Arguments st_rooms {KbDoc} _.
Arguments st_history {KbDoc} _.
Arguments st_maps {KbDoc} _.
Arguments st_tasks {KbDoc} _.
Arguments st_next {KbDoc} _.
Arguments taskGet {KbDoc} _ _.
Arguments taskDrop {KbDoc} _ _.
Arguments taskPut {KbDoc} _ _ _.
Arguments liveSlots {KbDoc} _ _.
Arguments failedFor {KbDoc} _.
Arguments pushAndSend {KbDoc} _ _ _ _.
Arguments serve {KbDoc} _ _ _ _.
Arguments loopFrom {KbDoc} _ _ _ _.
Arguments suggestionFailed {KbDoc} _.
Arguments suggestionsFor {KbDoc} _ _ _.
Arguments join {KbDoc} _ _ _ _ _ _ _.
Arguments disconnect {KbDoc} _ _.
Arguments chat {KbDoc} _ _ _ _ _ _.
Arguments resume {KbDoc} _ _ _ _ _.
Arguments answered {KbDoc} _.
Arguments step {KbDoc} _ _.
Arguments after {KbDoc} _ _.
Arguments outputs {KbDoc} _ _.
Arguments outputsFor {KbDoc} _ _ _.
Arguments throughout {KbDoc} _ _ _.
Arguments reachable {KbDoc} _.
Arguments callOf {KbDoc} _ _.
Arguments sentMessages {KbDoc} _.
Arguments outcomes {KbDoc} _.
Arguments translateRequests {KbDoc} _.
Arguments appended {KbDoc} _ _ _ _.
Arguments requestOf {KbDoc} _ _.
Arguments lastRequest {KbDoc} _ _.
Arguments waiting {KbDoc} _ _ _ _.
Arguments wellRanked {KbDoc} _.
Arguments profilesValid {KbDoc} _.
Arguments logged {KbDoc} _ _ _ _.
Arguments actor {KbDoc} _ _.
Arguments asked {KbDoc} _ _.
End Async.

(** A run of the machine: Ann (English) and Bob (French), both agents, are
    in room r1 when Bob says bonjour; the handler of the message then waits
    for the translation for Ann. *)
Module AsyncDemo.
Import Async.

Definition joins : list (Input string) :=
  [InJoin "a1" "r1" "Ann" "en" "agent" "t1";
   InJoin "b1" "r1" "Bob" "fr" "agent" "t2"].

Definition lobby : State string := after joins (start string).

Definition bonjour : Input string := InChat "b1" "r1" "bonjour" "fr" "t3".

Definition bobsCall : Call :=
  mkCall "b1" "r1" 0 (mkUser "Bob" "fr" "agent") "bonjour" "fr" "t3".

Definition annSlot : Slot := mkSlot 0 "a1" (mkUser "Ann" "en" "agent").

Definition bobSlot : Slot := mkSlot 1 "b1" (mkUser "Bob" "fr" "agent").

Definition cySlot : Slot := mkSlot 2 "c1" (mkUser "Cy" "en" "user").

Definition waitingForAnn : State string := fst (step lobby bonjour).

(** Cy joins r1 while the handler waits; both translations succeed. *)
Definition cyJoinsMeanwhile : list (Input string) :=
  [InJoin "c1" "r1" "Cy" "en" "user" "t4";
   TranslateAnswer 0 (Some "hello");
   TranslateAnswer 0 (Some "hello")].
End AsyncDemo.

(** ** The handler left alone

    The run of the machine in which the handler of a chat message is given
    each answer as soon as it has asked, no other event being handled
    meanwhile.  The answers are those of the oracles of section [Relay],
    and what is done is written as effects, a request and its answer as
    one call. *)

Section Alone.
Variable World : Type.
Variable KbDoc : Type.
Variable now : World -> string * World.
Variable getDocs : World -> option (list KbDoc) * World.
Variable generateContent :
  string -> list KbDoc -> World -> option string * World.
Variable axiosTranslate : string -> string -> World -> option string * World.

(** What the machine sends, as effects. *)
Definition emits (o : list (Async.Out KbDoc)) : list Effect :=
  flat_map (fun e => match e with
                     | Async.Sent tgt p => [Emit tgt p]
                     | Async.Joined id room => [SocketJoin id room]
                     | Async.Request _ _ => []
                     end) o.

(** The two maps of a state of the machine, the ranks of the entries and
    the identities of the map objects forgotten. *)
Definition snapshot (st : Async.State KbDoc) : Server :=
  mkServer
    (map (fun rm => (fst rm, Async.entries (Async.map_slots (snd rm))))
         (Async.st_rooms st))
    (Async.st_history st).

(** The handler [tid] is answered until it ends, at most [fuel] times. *)
Fixpoint answerAll (fuel tid : nat) (w : World) (st : Async.State KbDoc)
  : World * Async.State KbDoc * list Effect :=
  match fuel with
  | 0 => (w, st, [])
  | S fuel' =>
      match Async.taskGet tid (Async.st_tasks st) with
      | None => (w, st, [])
      | Some (c, Async.AwaitKb) =>
          let '(a, w1) := getDocs w in
          let '(st1, o) := Async.step st (Async.KbAnswer tid a) in
          let '(w2, st2, e) := answerAll fuel' tid w1 st1 in
          (w2, st2, GetDocs :: emits o ++ e)
      | Some (c, Async.AwaitModel data) =>
          let '(a, w1) := generateContent (Async.call_message c) data w in
          let '(st1, o) := Async.step st (Async.ModelAnswer tid a) in
          let '(w2, st2, e) := answerAll fuel' tid w1 st1 in
          (w2, st2, GenerateContent (Async.call_message c) a :: emits o ++ e)
      | Some (c, Async.AwaitTranslation sl) =>
          let '(a, w1) :=
            axiosTranslate (Async.call_message c)
                           (language (Async.slot_user sl)) w in
          let '(st1, o) := Async.step st (Async.TranslateAnswer tid a) in
          let '(w2, st2, e) := answerAll fuel' tid w1 st1 in
          (w2, st2,
           TranslatePost (Async.call_message c)
                         (language (Async.slot_user sl)) a
             :: emits o ++ e)
      end
  end.

(** A chat message arrives and its handler is left alone.  The clock is
    read when the message is accepted. *)
Definition chatAlone (fuel : nat) (id room message lang : string)
    (w : World) (st : Async.State KbDoc)
  : World * Async.State KbDoc * list Effect :=
  match Async.callOf st (Async.InChat id room message lang "") with
  | None =>
      let '(st1, o) := Async.step st (Async.InChat id room message lang "") in
      (w, st1, emits o)
  | Some _ =>
      let '(timestamp, w0) := now w in
      let '(st1, o) :=
        Async.step st (Async.InChat id room message lang timestamp) in
      let '(w1, st2, e) := answerAll fuel (Async.st_next st) w0 st1 in
      (w1, st2, emits o ++ e)
  end.

End Alone.

(** ** Facts about the map operations *)

Module JsMapFacts.
Section Facts.
Context {V : Type}.
Implicit Types (k : string) (v : V) (m : list (string * V)).

Lemma get_set_eq k v m : JsMap.get k (JsMap.set k v m) = Some v.
Proof.
  induction m as [|[k' v'] m IH]; simpl.
  - now rewrite String.eqb_refl.
  - destruct (k' =? k) eqn:E; simpl.
    + now rewrite String.eqb_refl.
    + now rewrite E.
Qed.

Lemma get_set_neq k k' v m :
  k <> k' -> JsMap.get k' (JsMap.set k v m) = JsMap.get k' m.
Proof.
  intros Hne. induction m as [|[k0 v0] m IH]; simpl.
  - destruct (k =? k') eqn:E; [apply String.eqb_eq in E; contradiction|easy].
  - destruct (k0 =? k) eqn:E; simpl.
    + apply String.eqb_eq in E; subst k0.
      destruct (k =? k') eqn:E'; [apply String.eqb_eq in E'; contradiction|easy].
    + now rewrite IH.
Qed.

Lemma has_set k k' v m :
  JsMap.has k' (JsMap.set k v m) = (k =? k') || JsMap.has k' m.
Proof.
  unfold JsMap.has. destruct (k =? k') eqn:E.
  - apply String.eqb_eq in E; subst. now rewrite get_set_eq.
  - apply String.eqb_neq in E. now rewrite get_set_neq.
Qed.

Lemma get_delete_eq k m : JsMap.get k (JsMap.delete k m) = None.
Proof.
  induction m as [|[k' v'] m IH]; simpl; [easy|].
  destruct (k' =? k) eqn:E; simpl; [easy|now rewrite E].
Qed.

Lemma get_delete_neq k k' m :
  k <> k' -> JsMap.get k' (JsMap.delete k m) = JsMap.get k' m.
Proof.
  intros Hne. induction m as [|[k0 v0] m IH]; simpl; [easy|].
  destruct (k0 =? k) eqn:E; simpl.
  - apply String.eqb_eq in E; subst k0.
    destruct (k =? k') eqn:E'; [apply String.eqb_eq in E'; contradiction|easy].
  - now rewrite IH.
Qed.

Lemma has_delete_eq k m : JsMap.has k (JsMap.delete k m) = false.
Proof. unfold JsMap.has. now rewrite get_delete_eq. Qed.

Lemma get_In k v m : JsMap.get k m = Some v -> In (k, v) m.
Proof.
  induction m as [|[k' v'] m IH]; simpl; [easy|].
  destruct (k' =? k) eqn:E.
  - apply String.eqb_eq in E. intros [= ->]. now left; subst.
  - intros H. right. now apply IH.
Qed.

Lemma In_set k v m kv :
  In kv (JsMap.set k v m) -> kv = (k, v) \/ In kv m.
Proof.
  induction m as [|[k' v'] m IH]; simpl.
  - intros [<-|[]]. now left.
  - destruct (k' =? k); simpl.
    + intros [<-|H]; [now left|now right; right].
    + intros [<-|H]; [now right; left|].
      destruct (IH H); [now left|now right; right].
Qed.

Lemma In_delete k m kv : In kv (JsMap.delete k m) -> In kv m /\ fst kv <> k.
Proof.
  unfold JsMap.delete. rewrite filter_In. intros [H E]. split; [easy|].
  apply negb_true_iff in E. now apply String.eqb_neq.
Qed.

Lemma keys_set_incl k v m x :
  In x (JsMap.keys (JsMap.set k v m)) -> x = k \/ In x (JsMap.keys m).
Proof.
  unfold JsMap.keys. rewrite !in_map_iff. intros [kv [<- H]].
  apply In_set in H as [->|H]; [now left|right]. now exists kv.
Qed.

Lemma NoDup_keys_set k v m :
  NoDup (JsMap.keys m) -> NoDup (JsMap.keys (JsMap.set k v m)).
Proof.
  induction m as [|[k' v'] m IH]; simpl; intros Hnd.
  - constructor; [easy|constructor].
  - inversion Hnd as [|? ? Hnin Hnd']; subst.
    destruct (k' =? k) eqn:E; simpl.
    + apply String.eqb_eq in E; subst. now constructor.
    + constructor; [|now apply IH].
      intros Hin. apply keys_set_incl in Hin as [->|Hin]; [|easy].
      now rewrite String.eqb_refl in E.
Qed.

Lemma NoDup_keys_delete k m :
  NoDup (JsMap.keys m) -> NoDup (JsMap.keys (JsMap.delete k m)).
Proof.
  induction m as [|[k' v'] m IH]; simpl; intros Hnd; [constructor|].
  inversion Hnd as [|? ? Hnin Hnd']; subst.
  destruct (k' =? k); simpl; [now apply IH|].
  constructor; [|now apply IH].
  intros Hin. apply Hnin. unfold JsMap.keys in *.
  apply in_map_iff in Hin as [kv [<- H]]. apply In_delete in H as [H _].
  now apply in_map.
Qed.

Lemma NoDup_keys_In_get k v m :
  NoDup (JsMap.keys m) -> In (k, v) m -> JsMap.get k m = Some v.
Proof.
  induction m as [|[k' v'] m IH]; simpl; intros Hnd Hin; [easy|].
  inversion Hnd as [|? ? Hnin Hnd']; subst.
  destruct Hin as [[= -> ->]|Hin].
  - now rewrite String.eqb_refl.
  - destruct (k' =? k) eqn:E; [|now apply IH].
    apply String.eqb_eq in E; subst. exfalso. apply Hnin.
    unfold JsMap.keys. now apply (in_map fst _ (k, v)).
Qed.
End Facts.
End JsMapFacts.

(** ** The delivery loop *)

Section DeliveryLoop.
Variable World : Type.
Variable axiosTranslate : string -> string -> World -> option string * World.
Variables (sender : User) (room message lang timestamp : string).

Lemma deliverTo_Delivery userId user w h :
  Delivery sender room message lang timestamp userId user h
    (snd (fst (deliverTo World axiosTranslate sender room message lang
                         timestamp userId user w h)))
    (snd (deliverTo World axiosTranslate sender room message lang
                    timestamp userId user w h)).
Proof.
  unfold deliverTo, translateText.
  destruct (language user =? lang) eqn:El; simpl.
  - apply String.eqb_eq in El.
    destruct (pushHistory room _ h) as [h'|] eqn:Ep; simpl.
    + now apply sent_original.
    + apply (push_failed _ _ _ _ _ _ _ _ []).
      * unfold pushHistory in Ep.
        destruct (JsMap.get room h); [discriminate|reflexivity].
      * intros e [].
  - apply String.eqb_neq in El.
    destruct (negb (truthy message) || negb (truthy (language user))) eqn:Et.
    + simpl. apply (translation_failed _ _ _ _ _ _ _ _ []); [easy|].
      left. split; [easy|].
      rewrite <- negb_andb in Et. now apply negb_true_iff in Et.
    + destruct (axiosTranslate message (language user) w) as [[text|] w'];
        simpl.
      * destruct (pushHistory room _ h) as [h'|] eqn:Ep; simpl.
        -- now apply sent_translated.
        -- apply (push_failed _ _ _ _ _ _ _ _ [_]).
           ++ unfold pushHistory in Ep.
              destruct (JsMap.get room h); [discriminate|reflexivity].
           ++ intros e [<-|[]]. now exists text.
      * apply (translation_failed _ _ _ _ _ _ _ _ [_]); [easy|now right].
Qed.

Lemma deliverAll_Deliveries roomUsers : forall w h,
  Deliveries sender room message lang timestamp roomUsers h
    (snd (fst (deliverAll World axiosTranslate sender room message lang
                          timestamp roomUsers w h)))
    (snd (deliverAll World axiosTranslate sender room message lang
                     timestamp roomUsers w h)).
Proof.
  induction roomUsers as [|[userId user] rest IH]; intros w h; simpl.
  - constructor.
  - pose proof (deliverTo_Delivery userId user w h) as H1.
    destruct (deliverTo _ _ _ _ _ _ _ _ _ _ _) as [[w1 h1] o1].
    specialize (IH w1 h1).
    destruct (deliverAll _ _ _ _ _ _ _ _ _ _) as [[w2 h2] o2].
    simpl in *. econstructor; eassumption.
Qed.
End DeliveryLoop.

Section Deliveries.
Variables (sender : User) (room message lang timestamp : string).
#[local] Abbreviation Delivery := (Delivery sender room message lang timestamp).
#[local] Abbreviation Deliveries := (Deliveries sender room message lang timestamp).
#[local] Abbreviation sendMsg text tr := (messageToSend sender text message tr timestamp).

Lemma delivered_app o1 o2 : delivered (o1 ++ o2) = delivered o1 ++ delivered o2.
Proof. unfold delivered. apply flat_map_app. Qed.

Lemma pushHistory_get m h h' :
  pushHistory room m h = Some h' ->
  exists log, JsMap.get room h = Some log
              /\ h' = JsMap.set room (log ++ [m]) h.
Proof.
  unfold pushHistory. destruct (JsMap.get room h) as [log|]; [|easy].
  intros [= <-]. now exists log.
Qed.

(** One iteration appends to the room's log exactly what it sent. *)
Lemma Delivery_history userId user h h' o :
  Delivery userId user h h' o ->
  (forall r, JsMap.has r h' = JsMap.has r h)
  /\ (forall r, r <> room -> JsMap.get r h' = JsMap.get r h)
  /\ (forall log, JsMap.get room h = Some log ->
        JsMap.get room h' = Some (log ++ delivered o))
  /\ (JsMap.get room h = None -> h' = h).
Proof.
  assert (Hset : forall (hh : list (string * list Msg)) lg lg',
             JsMap.get room hh = Some lg ->
             forall r, JsMap.has r (JsMap.set room lg' hh) = JsMap.has r hh).
  { intros hh lg lg' Hg r. rewrite JsMapFacts.has_set.
    destruct (room =? r) eqn:E; [|easy].
    apply String.eqb_eq in E; subst. unfold JsMap.has. now rewrite Hg. }
  intros [h1 Hl Hp|text h1 Hl Hp|calls Hl Hc|calls Hg Hc].
  - apply pushHistory_get in Hp as [log [Hg ->]]. repeat split.
    + now apply (Hset h log).
    + intros r Hr. apply JsMapFacts.get_set_neq. congruence.
    + intros log' Hg'. rewrite Hg in Hg'. injection Hg' as <-.
      simpl. apply JsMapFacts.get_set_eq.
    + congruence.
  - apply pushHistory_get in Hp as [log [Hg ->]]. repeat split.
    + now apply (Hset h log).
    + intros r Hr. apply JsMapFacts.get_set_neq. congruence.
    + intros log' Hg'. rewrite Hg in Hg'. injection Hg' as <-.
      simpl. apply JsMapFacts.get_set_eq.
    + congruence.
  - repeat split; try easy.
    intros log Hg. rewrite Hg. f_equal.
    rewrite delivered_app. simpl. rewrite app_nil_r.
    destruct Hc as [[-> _]| ->]; simpl; now rewrite app_nil_r.
  - repeat split; try easy. congruence.
Qed.

Lemma Deliveries_history roomUsers h h' o :
  Deliveries roomUsers h h' o ->
  (forall r, JsMap.has r h' = JsMap.has r h)
  /\ (forall r, r <> room -> JsMap.get r h' = JsMap.get r h)
  /\ (forall log, JsMap.get room h = Some log ->
        JsMap.get room h' = Some (log ++ delivered o))
  /\ (JsMap.get room h = None -> h' = h).
Proof.
  induction 1 as [h|userId user rest h h1 h2 o1 o2 H1 H2 IH].
  - repeat split; try easy. intros log Hg. simpl. now rewrite app_nil_r.
  - apply Delivery_history in H1 as (A1 & B1 & C1 & D1).
    destruct IH as (A2 & B2 & C2 & D2). repeat split.
    + intros r. now rewrite A2, A1.
    + intros r Hr. now rewrite B2, B1.
    + intros log Hg. rewrite (C2 _ (C1 _ Hg)).
      now rewrite delivered_app, app_assoc.
    + intros Hg. rewrite D2; [now apply D1|]. now rewrite (D1 Hg).
Qed.
End Deliveries.

Section Recipients.
Variables (sender : User) (room message lang timestamp : string).
#[local] Abbreviation Delivery1 := (Delivery sender room message lang timestamp).
#[local] Abbreviation DeliveryN := (Deliveries sender room message lang timestamp).
#[local] Abbreviation msgFor text tr :=
  (messageToSend sender text message tr timestamp).

Lemma delivered_In o m :
  In m (delivered o) <-> exists tgt, In (Emit tgt (MessageP m)) o.
Proof.
  unfold delivered. rewrite in_flat_map. split.
  - intros [e [He Hm]]. destruct e as [| tgt [| |m'|] | | |]; try easy.
    destruct Hm as [<-|[]]. now exists tgt.
  - intros [tgt H]. exists (Emit tgt (MessageP m)). split; [easy|now left].
Qed.

(** What one iteration emits, and to whom. *)
Lemma Delivery_kinds userId user h h' o e :
  Delivery1 userId user h h' o -> In e o ->
  (exists a, e = TranslatePost message (language user) a)
  \/ e = deliveryFailed userId
  \/ exists m, e = Emit (To userId) (MessageP m).
Proof.
  intros [h1 Hl Hp|text h1 Hl Hp|calls Hl Hc|calls Hg Hc] Hin.
  - destruct Hin as [<-|[]]. right; right. eauto.
  - destruct Hin as [<-|[<-|[]]]; [left|right; right]; eauto.
  - apply in_app_iff in Hin as [Hin|[<-|[]]]; [|now right; left].
    destruct Hc as [[-> _]| ->]; [easy|].
    destruct Hin as [<-|[]]. left; eauto.
  - apply in_app_iff in Hin as [Hin|[<-|[]]]; [|now right; left].
    destruct (Hc _ Hin) as [text ->]. left; eauto.
Qed.

Lemma Deliveries_kinds roomUsers h h' o e :
  DeliveryN roomUsers h h' o -> In e o ->
  (exists l a, e = TranslatePost message l a)
  \/ exists userId, In userId (JsMap.keys roomUsers)
       /\ (e = deliveryFailed userId \/ exists m, e = Emit (To userId) (MessageP m)).
Proof.
  induction 1 as [h|userId user rest h h1 h2 o1 o2 H1 H2 IH]; [easy|].
  intros Hin. apply in_app_iff in Hin as [Hin|Hin].
  - destruct (Delivery_kinds _ _ _ _ _ _ H1 Hin) as [[a ->]|[->|[m ->]]].
    + left; eauto.
    + right. exists userId. split; [now left|now left].
    + right. exists userId. split; [now left|right; eauto].
  - destruct (IH Hin) as [?|[u [Hu Hk]]]; [now left|].
    right. exists u. split; [now right|easy].
Qed.

(** Every message pushed by the loop goes to an entry of the room, and is
    the original for a recipient of the sender's language, the translator's
    answer otherwise. *)
Lemma Deliveries_message roomUsers h h' o tgt m :
  DeliveryN roomUsers h h' o -> In (Emit tgt (MessageP m)) o ->
  exists userId user,
    tgt = To userId /\ In (userId, user) roomUsers
    /\ ((language user = lang /\ m = msgFor message false)
        \/ (language user <> lang
            /\ exists text, m = msgFor text true
                 /\ In (TranslatePost message (language user) (Some text)) o)).
Proof.
  induction 1 as [h|userId user rest h h1 h2 o1 o2 H1 H2 IH]; [easy|].
  intros Hin. apply in_app_iff in Hin as [Hin|Hin].
  - exists userId, user.
    destruct H1 as [h' Hl Hp|text h' Hl Hp|calls Hl Hc|calls Hg Hc].
    + destruct Hin as [[= <- <-]|[]]. split; [easy|split; [now left|now left]].
    + destruct Hin as [?|[[= <- <-]|[]]]; [easy|].
      split; [easy|split; [now left|right]]. split; [easy|].
      exists text. split; [easy|now left].
    + exfalso. apply in_app_iff in Hin as [Hin|[?|[]]]; [|easy].
      destruct Hc as [[-> _]| ->]; [easy|]. now destruct Hin as [?|[]].
    + exfalso. apply in_app_iff in Hin as [Hin|[?|[]]]; [|easy].
      now destruct (Hc _ Hin) as [text ?].
  - destruct (IH Hin) as (u & us & -> & Hu & Hcase).
    exists u, us. split; [easy|split; [now right|]].
    destruct Hcase as [?|[Hl [text [-> Ht]]]]; [now left|right].
    split; [easy|]. exists text. split; [easy|].
    apply in_app_iff. now right.
Qed.

(** Every error raised by the loop is the delivery failure of an entry
    whose own delivery failed. *)
Lemma Deliveries_error roomUsers h h' o tgt msg :
  DeliveryN roomUsers h h' o -> In (Emit tgt (ErrorP msg)) o ->
  msg = "Message delivery failed"
  /\ exists userId user,
       tgt = To userId /\ In (userId, user) roomUsers
       /\ (JsMap.get room h = None
           \/ (language user <> lang /\ translationFailed message user o)).
Proof.
  induction 1 as [h|userId user rest h h1 h2 o1 o2 H1 H2 IH]; [easy|].
  intros Hin. apply in_app_iff in Hin as [Hin|Hin].
  - destruct H1 as [h' Hl Hp|text h' Hl Hp|calls Hl Hc|calls Hg Hc].
    + now destruct Hin as [?|[]].
    + now destruct Hin as [?|[?|[]]].
    + apply in_app_iff in Hin as [Hin|[[= <- <-]|[]]].
      * destruct Hc as [[-> _]| ->]; [easy|]. now destruct Hin as [?|[]].
      * split; [easy|]. exists userId, user.
        split; [easy|split; [now left|right]]. split; [easy|].
        destruct Hc as [[-> Ht]| ->]; [now left|right].
        apply in_app_iff. left. apply in_app_iff. left. now left.
    + apply in_app_iff in Hin as [Hin|[[= <- <-]|[]]].
      * now destruct (Hc _ Hin) as [text ?].
      * split; [easy|]. exists userId, user.
        split; [easy|split; [now left|now left]].
  - destruct (IH Hin) as (-> & u & us & -> & Hu & Hcase). split; [easy|].
    exists u, us. split; [easy|split; [now right|]].
    destruct Hcase as [Hg|[Hl Hf]].
    + left. apply Delivery_history in H1 as (A & _).
      specialize (A room). unfold JsMap.has in A. rewrite Hg in A.
      now destruct (JsMap.get room h).
    + right. split; [easy|]. destruct Hf as [Hf|Hf]; [now left|right].
      apply in_app_iff. now right.
Qed.

(** Every entry of the room is served: it gets the message, or its own
    delivery failed and it gets the failure. *)
Lemma Deliveries_recipient roomUsers h h' o userId user :
  DeliveryN roomUsers h h' o -> In (userId, user) roomUsers ->
  (language user = lang
   /\ In (Emit (To userId) (MessageP (msgFor message false))) o)
  \/ (language user <> lang
      /\ exists text,
           In (TranslatePost message (language user) (Some text)) o
           /\ In (Emit (To userId) (MessageP (msgFor text true))) o)
  \/ (In (deliveryFailed userId) o
      /\ (JsMap.get room h = None
          \/ (language user <> lang /\ translationFailed message user o))).
Proof.
  induction 1 as [h|u0 us0 rest h h1 h2 o1 o2 H1 H2 IH]; [easy|].
  intros [[= -> ->]|Hin].
  - destruct H1 as [h' Hl Hp|text h' Hl Hp|calls Hl Hc|calls Hg Hc].
    + left. split; [easy|]. apply in_app_iff. left. now left.
    + right; left. split; [easy|]. exists text.
      split; apply in_app_iff; left; [now left|now right; left].
    + right; right. split.
      * apply in_app_iff. left. apply in_app_iff. right. now left.
      * right. split; [easy|].
        destruct Hc as [[-> Ht]| ->]; [now left|right].
        apply in_app_iff. left. now left.
    + right; right. split; [|now left].
      apply in_app_iff. left. apply in_app_iff. right. now left.
  - destruct (IH Hin) as [[Hl Hm]|[[Hl [text [Ht Hm]]]|[Hf Hcase]]].
    + left. split; [easy|]. apply in_app_iff. now right.
    + right; left. split; [easy|]. exists text.
      split; apply in_app_iff; now right.
    + right; right. split; [apply in_app_iff; now right|].
      destruct Hcase as [Hg|[Hl Ht]].
      * left. apply Delivery_history in H1 as (A & _).
        specialize (A room). unfold JsMap.has in A. rewrite Hg in A.
        now destruct (JsMap.get room h).
      * right. split; [easy|]. destruct Ht as [Ht|Ht]; [now left|right].
        apply in_app_iff. now right.
Qed.
End Recipients.

Section Outcomes.
Variables (sender : User) (room message lang timestamp : string).
#[local] Abbreviation DeliveryO := (Delivery sender room message lang timestamp).
#[local] Abbreviation DeliveriesO :=
  (Deliveries sender room message lang timestamp).

(** Without a log for the room nothing is delivered. *)
Lemma Deliveries_no_log roomUsers h h' o tgt m :
  DeliveriesO roomUsers h h' o -> JsMap.get room h = None ->
  ~ In (Emit tgt (MessageP m)) o.
Proof.
  intros HD Hg Hin.
  pose proof (Deliveries_history _ _ _ _ _ _ _ _ _ HD) as (_ & _ & _ & Hsame).
  revert Hg Hin. clear Hsame.
  induction HD as [h|userId user rest h h1 h2 o1 o2 H1 H2 IH]; [easy|].
  intros Hg Hin. apply in_app_iff in Hin as [Hin|Hin].
  - destruct H1 as [h' Hl Hp|text h' Hl Hp|calls Hl Hc|calls Hg' Hc].
    + apply pushHistory_get in Hp as [log [Hg' _]]. congruence.
    + apply pushHistory_get in Hp as [log [Hg' _]]. congruence.
    + apply in_app_iff in Hin as [Hin|[?|[]]]; [|easy].
      destruct Hc as [[-> _]| ->]; [easy|]. now destruct Hin as [?|[]].
    + apply in_app_iff in Hin as [Hin|[?|[]]]; [|easy].
      now destruct (Hc _ Hin) as [text ?].
  - apply IH; [|easy].
    apply Delivery_history in H1 as (_ & _ & _ & D). now rewrite (D Hg).
Qed.

(** With distinct socket ids, an entry that got the failure got no message. *)
Lemma Deliveries_exclusive roomUsers h h' o userId m :
  DeliveriesO roomUsers h h' o -> NoDup (JsMap.keys roomUsers) ->
  In (deliveryFailed userId) o ->
  ~ In (Emit (To userId) (MessageP m)) o.
Proof.
  induction 1 as [h|u0 us0 rest h h1 h2 o1 o2 H1 H2 IH]; [easy|].
  simpl. intros Hnd Hf Hm. inversion Hnd as [|? ? Hnin Hnd']; subst.
  assert (Hrest : forall p, In (Emit (To userId) p) o2 ->
                            In userId (JsMap.keys rest)).
  { intros p Hp.
    destruct (Deliveries_kinds _ _ _ _ _ _ _ _ _ _ H2 Hp)
      as [(l & a & ?)|(u & Hu & [E|[m' E]])]; [easy| |];
      unfold deliveryFailed in E; now injection E as -> _. }
  assert (Hhead : forall p, In (Emit (To userId) p) o1 -> userId = u0).
  { intros p Hp.
    destruct (Delivery_kinds _ _ _ _ _ _ _ _ _ _ _ H1 Hp)
      as [(a & ?)|[E|[m' E]]]; [easy| |];
      unfold deliveryFailed in E; now injection E as -> _. }
  apply in_app_iff in Hf as [Hf|Hf]; apply in_app_iff in Hm as [Hm|Hm].
  - destruct H1 as [h' Hl Hp|text h' Hl Hp|calls Hl Hc|calls Hg Hc].
    + now destruct Hf as [?|[]].
    + now destruct Hf as [?|[?|[]]].
    + apply in_app_iff in Hm as [Hm|[?|[]]]; [|easy].
      destruct Hc as [[-> _]| ->]; [easy|]. now destruct Hm as [?|[]].
    + apply in_app_iff in Hm as [Hm|[?|[]]]; [|easy].
      now destruct (Hc _ Hm) as [text ?].
  - apply Hhead in Hf; subst. apply Hnin. now apply (Hrest _ Hm).
  - apply Hhead in Hm; subst. apply Hnin. now apply (Hrest _ Hf).
  - now apply IH.
Qed.

(** When no delivery failed, the loop sent one message per entry, in the
    order of the entries. *)
Lemma Deliveries_all_sent roomUsers h h' o :
  DeliveriesO roomUsers h h' o ->
  (forall userId, ~ In (deliveryFailed userId) o) ->
  Forall2 (fun entry m => In (Emit (To (fst entry)) (MessageP m)) o)
          roomUsers (delivered o).
Proof.
  induction 1 as [h|userId user rest h h1 h2 o1 o2 H1 H2 IH]; intros Hok.
  - constructor.
  - assert (Hok2 : forall u, ~ In (deliveryFailed u) o2).
    { intros u Hu. apply (Hok u). apply in_app_iff. now right. }
    specialize (IH Hok2). rewrite delivered_app.
    assert (Hmono : Forall2
              (fun entry m => In (Emit (To (fst entry)) (MessageP m)) (o1 ++ o2))
              rest (delivered o2)).
    { eapply Forall2_impl; [|exact IH]. intros a b Hab.
      apply in_app_iff. now right. }
    destruct H1 as [h' Hl Hp|text h' Hl Hp|calls Hl Hc|calls Hg Hc].
    + simpl. constructor; [now left|exact Hmono].
    + simpl. constructor; [now right; left|exact Hmono].
    + exfalso. apply (Hok userId). apply in_app_iff. left.
      apply in_app_iff. right. now left.
    + exfalso. apply (Hok userId). apply in_app_iff. left.
      apply in_app_iff. right. now left.
Qed.
End Outcomes.

(** ** The suggestion part and the shape of a chat run *)

Section ChatRun.
Variable World : Type.
Variable KbDoc : Type.
Variable now : World -> string * World.
Variable getDocs : World -> option (list KbDoc) * World.
Variable generateContent :
  string -> list KbDoc -> World -> option string * World.
Variable axiosTranslate : string -> string -> World -> option string * World.

#[local] Abbreviation analyze :=
  (analyzeMessage World KbDoc getDocs generateContent).
#[local] Abbreviation suggestPart :=
  (suggest World KbDoc getDocs generateContent).
#[local] Abbreviation fanOut := (deliverAll World axiosTranslate).
#[local] Abbreviation chat :=
  (chatMessage World KbDoc now getDocs generateContent axiosTranslate).

(** [analyzeMessage] talks to Firestore and Gemini only. *)
Lemma analyzeMessage_calls text w e :
  In e (snd (analyze text w)) ->
  e = GetDocs \/ exists a, e = GenerateContent text a.
Proof.
  unfold analyzeMessage, getKnowledgeBase.
  destruct (negb (truthy text)); [easy|].
  destruct (getDocs w) as [[[|d data]|] w1]; simpl;
    try (intros [<-|[]]; now left).
  destruct (generateContent text (d :: data) w1) as [[body|] w2]; simpl;
    (intros [<-|[<-|[]]]; [now left|right; eauto]).
Qed.

Lemma pushSuggestions_In batch roomUsers e :
  In e (pushSuggestions batch roomUsers) <->
  exists userId user,
    e = Emit (To userId) (SuggestionsP batch)
    /\ In (userId, user) roomUsers /\ role user = "agent".
Proof.
  induction roomUsers as [|[u0 us0] rest IH]; simpl.
  - split; [easy|]. now intros (? & ? & _ & [] & _).
  - destruct (role us0 =? "agent") eqn:E.
    + apply String.eqb_eq in E. simpl. rewrite IH. split.
      * intros [<-|(u & us & -> & Hin & Hr)].
        -- exists u0, us0. split; [easy|split; [now left|easy]].
        -- exists u, us. split; [easy|split; [now right|easy]].
      * intros (u & us & -> & [[= -> ->]|Hin] & Hr); [now left|right].
        now exists u, us.
    + apply String.eqb_neq in E. rewrite IH. split.
      * intros (u & us & -> & Hin & Hr).
        exists u, us. split; [easy|split; [now right|easy]].
      * intros (u & us & -> & [[= -> ->]|Hin] & Hr); [contradiction|].
        now exists u, us.
Qed.

(** The agents' pushes, in the order of the room's entries. *)
Lemma pushSuggestions_filter batch roomUsers :
  pushSuggestions batch roomUsers =
  map (fun entry => Emit (To (fst entry)) (SuggestionsP batch))
      (filter (fun entry => role (snd entry) =? "agent") roomUsers).
Proof.
  induction roomUsers as [|[u0 us0] rest IH]; simpl; [easy|].
  destruct (role us0 =? "agent"); simpl; now rewrite IH.
Qed.

Lemma suggest_other_role id message sender roomUsers w :
  role sender <> "user" ->
  suggestPart id message sender roomUsers w = (w, []).
Proof.
  intros H. unfold suggest. apply String.eqb_neq in H. now rewrite H.
Qed.

Lemma suggest_user id message sender roomUsers w :
  role sender = "user" ->
  snd (suggestPart id message sender roomUsers w) =
  snd (analyze message w) ++
  match fst (fst (analyze message w)) with
  | Some batch => pushSuggestions batch roomUsers
  | None => [Emit (Socket id) (ErrorP "Failed to generate suggestions")]
  end.
Proof.
  intros H. unfold suggest. rewrite H. simpl.
  destruct (analyze message w) as [[[batch|] w'] calls]; reflexivity.
Qed.

(** The suggestion part never sends a message and never reports a delivery
    failure. *)
Lemma suggest_effects id message sender roomUsers w e :
  In e (snd (suggestPart id message sender roomUsers w)) ->
  e = GetDocs
  \/ (exists a, e = GenerateContent message a)
  \/ (exists userId batch, e = Emit (To userId) (SuggestionsP batch))
  \/ e = Emit (Socket id) (ErrorP "Failed to generate suggestions").
Proof.
  destruct (String.eqb_spec (role sender) "user") as [Hr|Hr].
  - rewrite (suggest_user _ _ _ _ _ Hr). intros Hin.
    apply in_app_iff in Hin as [Hin|Hin].
    + apply analyzeMessage_calls in Hin as [->|[a ->]];
        [now left|right; left; eauto].
    + destruct (fst (fst (analyze message w))) as [batch|].
      * apply pushSuggestions_In in Hin as (u & us & -> & _).
        right; right; left. eauto.
      * destruct Hin as [<-|[]]. now right; right; right.
  - now rewrite (suggest_other_role _ _ _ _ _ Hr).
Qed.

Lemma chatMessage_accepted id room message lang w s roomUsers sender :
  accepted id room message lang s roomUsers sender ->
  let timestamp := fst (now w) in
  let sg := suggestPart id message sender roomUsers (snd (now w)) in
  let d := fanOut sender room message lang timestamp roomUsers
                  (fst sg) (messageHistory s) in
  chat id room message lang w s =
  mkRun (fst (fst d)) (mkServer (rooms s) (snd (fst d))) (snd sg ++ snd d).
Proof.
  intros (Hr & Hm & Hl & Hru & Hs). unfold chatMessage.
  rewrite Hr, Hm, Hl, Hru, Hs. simpl.
  destruct (now w) as [ts w0]. simpl.
  destruct (suggest _ _ _ _ _ _ _ _ _) as [w1 o1]. simpl.
  destruct (deliverAll _ _ _ _ _ _ _ _ _ _) as [[w2 h2] o2]. reflexivity.
Qed.

(** The delivery part of an accepted chat message, as a chain of
    iterations over the room's entries. *)
Lemma chatMessage_Deliveries id room message lang w s roomUsers sender :
  accepted id room message lang s roomUsers sender ->
  exists o1 o2,
    out (chat id room message lang w s) = o1 ++ o2
    /\ o1 = snd (suggestPart id message sender roomUsers (snd (now w)))
    /\ rooms (server (chat id room message lang w s)) = rooms s
    /\ Deliveries sender room message lang (fst (now w)) roomUsers
         (messageHistory s)
         (messageHistory (server (chat id room message lang w s))) o2.
Proof.
  intros Hacc. rewrite (chatMessage_accepted _ _ _ _ w _ _ _ Hacc). simpl.
  eexists _, _. split; [reflexivity|]. split; [reflexivity|].
  split; [reflexivity|]. apply deliverAll_Deliveries.
Qed.
End ChatRun.

(** ** Join and disconnect *)

Section JoinLeave.
Variable World : Type.
Variable now : World -> string * World.

Lemma set_set {V : Type} k (v v' : V) m :
  JsMap.set k v' (JsMap.set k v m) = JsMap.set k v' m.
Proof.
  induction m as [|[k0 v0] m IH]; simpl.
  - now rewrite String.eqb_refl.
  - destruct (k0 =? k) eqn:E; simpl.
    + now rewrite String.eqb_refl.
    + now rewrite E, IH.
Qed.

Lemma has_false_get {V : Type} k (m : list (string * V)) :
  JsMap.has k m = false <-> JsMap.get k m = None.
Proof. unfold JsMap.has. destruct (JsMap.get k m); now split. Qed.

Lemma has_delete_false {V : Type} k k' (m : list (string * V)) :
  JsMap.has k m = false -> JsMap.has k (JsMap.delete k' m) = false.
Proof.
  intros H. destruct (String.eqb_spec k' k) as [->|Hne].
  - apply JsMapFacts.has_delete_eq.
  - unfold JsMap.has in *. now rewrite JsMapFacts.get_delete_neq.
Qed.

Lemma set_not_nil {V : Type} k (v : V) m : JsMap.set k v m <> [].
Proof. destruct m as [|[k0 v0] m]; simpl; [easy|]. now destruct (k0 =? k). Qed.

(** The state and the effects of a valid join, with the two
    create-if-absent steps folded into the updates that follow them. *)
Lemma join_valid id room uname lang rl w s :
  validJoin room uname lang rl ->
  join World now id room uname lang rl w s =
  mkRun (snd (now w))
    (mkServer
       (JsMap.set room
          (JsMap.set id (mkUser uname lang rl)
             (orEmpty (JsMap.get room (rooms s))))
          (rooms s))
       (JsMap.set room
          (orEmpty (JsMap.get room (messageHistory s))
             ++ [joinMessage uname (fst (now w))])
          (messageHistory s)))
    (SocketJoin id room
       :: match JsMap.get room (messageHistory s) with
          | Some log =>
              [Emit (Socket id) (MessageHistoryP (filter (visibleTo rl) log))]
          | None => []
          end
       ++ [Emit (To room) (MessageP (joinMessage uname (fst (now w))))]).
Proof.
  intros (Hr & Hu & Hl & Hrl). unfold join. rewrite Hr, Hu, Hl, Hrl. simpl.
  destruct (now w) as [ts w']. simpl. f_equal. f_equal.
  - unfold JsMap.has.
    destruct (JsMap.get room (rooms s)) as [us|] eqn:E; simpl.
    + now rewrite E.
    + now rewrite JsMapFacts.get_set_eq, set_set.
  - unfold JsMap.has.
    destruct (JsMap.get room (messageHistory s)) as [lg|] eqn:E; simpl.
    + now rewrite E.
    + now rewrite JsMapFacts.get_set_eq, set_set.
Qed.

Lemma join_invalid id room uname lang rl w s :
  ~ validJoin room uname lang rl ->
  join World now id room uname lang rl w s =
  mkRun w s [Emit (Socket id) (ErrorP "Invalid join parameters")].
Proof.
  intros H. unfold join, validJoin in *.
  destruct (truthy room), (truthy uname), (truthy lang), (truthy rl);
    simpl; try reflexivity.
  exfalso. now apply H.
Qed.

Lemma validJoin_dec room uname lang rl :
  validJoin room uname lang rl \/ ~ validJoin room uname lang rl.
Proof.
  unfold validJoin.
  destruct (truthy room), (truthy uname), (truthy lang), (truthy rl);
    try (left; now repeat split); right; intros (? & ? & ? & ?); discriminate.
Qed.

(** Into a room without a log, a join replays nothing. *)
Lemma join_no_replay id room uname lang rl w s tgt hst :
  JsMap.get room (messageHistory s) = None ->
  ~ In (Emit tgt (MessageHistoryP hst))
       (out (join World now id room uname lang rl w s)).
Proof.
  intros Hg. destruct (validJoin_dec room uname lang rl) as [Hv|Hv].
  - rewrite (join_valid _ _ _ _ _ _ _ Hv), Hg. simpl.
    intros [?|[?|[]]]; discriminate.
  - rewrite (join_invalid _ _ _ _ _ _ _ Hv). simpl.
    intros [?|[]]; discriminate.
Qed.

Lemma filter_visibleTo_user log :
  filter (visibleTo "user") log =
  filter (fun m => negb (msg_type m =? "system")
                   && negb (msg_type m =? "private")) log.
Proof. reflexivity. Qed.

Lemma filter_visibleTo_other rl log :
  rl <> "user" -> filter (visibleTo rl) log = log.
Proof.
  intros H. apply String.eqb_neq in H.
  induction log as [|m log IH]; simpl; [easy|].
  unfold visibleTo at 1. rewrite H. now rewrite IH.
Qed.

Lemma find_holder id (rs : list (string * list (string * User))) room users :
  find (fun ru => JsMap.has id (snd ru)) rs = Some (room, users) ->
  In (room, users) rs /\ JsMap.has id users = true.
Proof. intros H. now apply find_some in H. Qed.

Lemma size_zero {V : Type} (m : list (string * V)) :
  (JsMap.size m =? 0)%nat = true <-> m = [].
Proof. destruct m; simpl; now split. Qed.
End JoinLeave.

(** ** Invariants of the reachable states *)

Section Invariants.
Variable World : Type.
Variable KbDoc : Type.
Variable now : World -> string * World.
Variable getDocs : World -> option (list KbDoc) * World.
Variable generateContent :
  string -> list KbDoc -> World -> option string * World.
Variable axiosTranslate : string -> string -> World -> option string * World.

#[local] Abbreviation chatI :=
  (chatMessage World KbDoc now getDocs generateContent axiosTranslate).
#[local] Abbreviation handleI :=
  (handle World KbDoc now getDocs generateContent axiosTranslate).
#[local] Abbreviation runAllI :=
  (runAll World KbDoc now getDocs generateContent axiosTranslate).
#[local] Abbreviation reachableI :=
  (reachable World KbDoc now getDocs generateContent axiosTranslate).

(** A chat message changes no room and creates or removes no log. *)
Lemma chatMessage_frame id room message lang w s :
  rooms (server (chatI id room message lang w s)) = rooms s
  /\ forall r, JsMap.has r (messageHistory (server (chatI id room message lang w s)))
               = JsMap.has r (messageHistory s).
Proof.
  destruct (truthy room) eqn:Hr; [|unfold chatMessage; now rewrite Hr].
  destruct (truthy message) eqn:Hm; [|unfold chatMessage; now rewrite Hr, Hm].
  destruct (truthy lang) eqn:Hl;
    [|unfold chatMessage; now rewrite Hr, Hm, Hl].
  destruct (JsMap.get room (rooms s)) as [roomUsers|] eqn:Hru;
    [|unfold chatMessage; now rewrite Hr, Hm, Hl, Hru].
  destruct (JsMap.get id roomUsers) as [sender|] eqn:Hs;
    [|unfold chatMessage; now rewrite Hr, Hm, Hl, Hru, Hs].
  assert (Hacc : accepted id room message lang s roomUsers sender)
    by now repeat split.
  destruct (chatMessage_Deliveries World KbDoc now getDocs generateContent
              axiosTranslate _ _ _ _ w _ _ _ Hacc)
    as (o1 & o2 & _ & _ & Hrooms & HD).
  split; [easy|].
  now apply Deliveries_history in HD as (A & _).
Qed.

Lemma leaveRoom_nonempty id room users s :
  (forall r us, In (r, us) (rooms s) -> us <> []) ->
  forall r us, In (r, us) (rooms (leaveRoom id room users s)) -> us <> [].
Proof.
  intros Hinv r us. unfold leaveRoom.
  destruct (JsMap.size (JsMap.delete id users) =? 0)%nat eqn:E; simpl.
  - intros Hin. apply JsMapFacts.In_delete in Hin as [Hin _]. eauto.
  - intros Hin. apply JsMapFacts.In_set in Hin as [[= -> ->]|Hin]; [|eauto].
    intros Hnil. rewrite Hnil in E. discriminate.
Qed.

Lemma handle_nonempty ev w s :
  (forall r us, In (r, us) (rooms s) -> us <> []) ->
  forall r us, In (r, us) (rooms (server (handleI ev w s))) -> us <> [].
Proof.
  intros Hinv r us.
  destruct ev as [id room uname lang rl|id room message lang|id]; simpl.
  - destruct (validJoin_dec room uname lang rl) as [Hv|Hv].
    + rewrite (join_valid _ _ _ _ _ _ _ _ _ Hv). simpl. intros Hin.
      apply JsMapFacts.In_set in Hin as [[= -> ->]|Hin]; [|eauto].
      apply set_not_nil.
    + rewrite (join_invalid _ _ _ _ _ _ _ _ _ Hv). simpl. eauto.
  - destruct (chatMessage_frame id room message lang w s) as [-> _]. eauto.
  - unfold disconnect.
    destruct (find _ (rooms s)) as [[room users]|]; [|eauto].
    now apply leaveRoom_nonempty.
Qed.

Lemma reachable_nonempty s :
  reachableI s -> forall r us, In (r, us) (rooms s) -> us <> [].
Proof.
  induction 1 as [|ev w s Hs IH]; [easy|]. now apply handle_nonempty.
Qed.

(** Only a join naming the room can create its log. *)
Lemma handle_keeps_absent room ev w s :
  joinsRoom room ev = false ->
  JsMap.has room (messageHistory s) = false ->
  JsMap.has room (messageHistory (server (handleI ev w s))) = false.
Proof.
  intros Hj Habs.
  destruct ev as [id r uname lang rl|id r message lang|id]; simpl in *.
  - destruct (validJoin_dec r uname lang rl) as [Hv|Hv].
    + rewrite (join_valid _ _ _ _ _ _ _ _ _ Hv). simpl.
      now rewrite JsMapFacts.has_set, Hj.
    + now rewrite (join_invalid _ _ _ _ _ _ _ _ _ Hv).
  - destruct (chatMessage_frame id r message lang w s) as [_ H].
    now rewrite H.
  - unfold disconnect.
    destruct (find _ (rooms s)) as [[r users]|]; [|easy].
    unfold leaveRoom. destruct (_ =? 0)%nat; simpl; [|easy].
    now apply has_delete_false.
Qed.

Lemma runAll_keeps_absent room evs : forall w s,
  forallb (fun ev => negb (joinsRoom room ev)) evs = true ->
  JsMap.has room (messageHistory s) = false ->
  JsMap.has room (messageHistory (server (runAllI evs w s))) = false.
Proof.
  induction evs as [|ev evs IH]; intros w s Hall Habs; simpl; [easy|].
  simpl in Hall. apply andb_true_iff in Hall as [Hev Hall].
  apply negb_true_iff in Hev. apply IH; [easy|].
  now apply handle_keeps_absent.
Qed.

Lemma handle_distinctKeys ev w s :
  distinctKeys s -> distinctKeys (server (handleI ev w s)).
Proof.
  intros [Hk Hin].
  destruct ev as [id room uname lang rl|id room message lang|id]; simpl.
  - destruct (validJoin_dec room uname lang rl) as [Hv|Hv].
    + rewrite (join_valid _ _ _ _ _ _ _ _ _ Hv). split; simpl.
      * now apply JsMapFacts.NoDup_keys_set.
      * intros r us H. apply JsMapFacts.In_set in H as [[= -> ->]|H]; [|eauto].
        apply JsMapFacts.NoDup_keys_set.
        destruct (JsMap.get room (rooms s)) as [us0|] eqn:E; simpl.
        -- apply JsMapFacts.get_In in E. eauto.
        -- constructor.
    + rewrite (join_invalid _ _ _ _ _ _ _ _ _ Hv). now split.
  - unfold distinctKeys.
    destruct (chatMessage_frame id room message lang w s) as [-> _].
    now split.
  - unfold disconnect.
    destruct (find _ (rooms s)) as [[room users]|] eqn:Ef; [|now split].
    apply find_holder in Ef as [Hru _].
    unfold leaveRoom. destruct (_ =? 0)%nat; split; simpl.
    + now apply JsMapFacts.NoDup_keys_delete.
    + intros r us H. apply JsMapFacts.In_delete in H as [H _]. eauto.
    + now apply JsMapFacts.NoDup_keys_set.
    + intros r us H. apply JsMapFacts.In_set in H as [[= -> ->]|H]; [|eauto].
      apply JsMapFacts.NoDup_keys_delete. eauto.
Qed.

Lemma reachable_distinctKeys s : reachableI s -> distinctKeys s.
Proof.
  induction 1 as [|ev w s Hs IH].
  - split; simpl; [constructor|easy].
  - now apply handle_distinctKeys.
Qed.

(** A room and its log exist together. *)
Lemma reachable_log s :
  reachableI s ->
  forall r, JsMap.has r (messageHistory s) = JsMap.has r (rooms s).
Proof.
  induction 1 as [|ev w s Hs IH]; [easy|]. intros r.
  destruct ev as [id room uname lang rl|id room message lang|id]; simpl.
  - destruct (validJoin_dec room uname lang rl) as [Hv|Hv].
    + rewrite (join_valid _ _ _ _ _ _ _ _ _ Hv). simpl.
      now rewrite !JsMapFacts.has_set, IH.
    + now rewrite (join_invalid _ _ _ _ _ _ _ _ _ Hv).
  - destruct (chatMessage_frame id room message lang w s) as [-> H].
    now rewrite H.
  - unfold disconnect.
    destruct (find _ (rooms s)) as [[room users]|] eqn:Ef; [|easy].
    apply find_holder in Ef as [Hru _].
    unfold leaveRoom. destruct (_ =? 0)%nat; simpl.
    + destruct (String.eqb_spec room r) as [->|Hne].
      * now rewrite !JsMapFacts.has_delete_eq.
      * unfold JsMap.has. rewrite !JsMapFacts.get_delete_neq by easy.
        apply IH.
    + rewrite JsMapFacts.has_set, IH.
      destruct (String.eqb_spec room r) as [->|Hne]; [|easy]. simpl.
      apply reachable_distinctKeys in Hs as [Hk _].
      unfold JsMap.has.
      now rewrite (JsMapFacts.NoDup_keys_In_get _ _ _ Hk Hru).
Qed.
End Invariants.

(** ** Disconnect *)

(** C1, as the code has it: when a registered connection disconnects and its
    room keeps at least one participant, the handler removes that one entry
    from the room, the room stays in the registry with the other entries,
    the history is left as it was and nothing is sent to any client. *)
Theorem disconnect_keeps_room_and_is_silent
    (World : Type) (id : string) (w : World) (s : Server)
    (room : string) (users : list (string * User)) :
  find (fun ru => JsMap.has id (snd ru)) (rooms s) = Some (room, users) ->
  JsMap.delete id users <> [] ->
  let r := onDisconnect World id w s in
  out r = []
  /\ messageHistory (server r) = messageHistory s
  /\ JsMap.get room (rooms (server r)) = Some (JsMap.delete id users)
  /\ JsMap.has id (JsMap.delete id users) = false
  /\ forall other, other <> id ->
       JsMap.get other (JsMap.delete id users) = JsMap.get other users.
Proof.
  intros Hfind Hrest r. subst r. unfold onDisconnect, disconnect. simpl.
  rewrite Hfind. unfold leaveRoom.
  destruct (JsMap.size (JsMap.delete id users) =? 0)%nat eqn:E.
  - apply size_zero in E. contradiction.
  - simpl. repeat split.
    + apply JsMapFacts.get_set_eq.
    + apply JsMapFacts.has_delete_eq.
    + intros other Hne. apply JsMapFacts.get_delete_neq. congruence.
Qed.

Lemma disconnect_keeps_room_and_is_silent_witness :
  out (onDisconnect unit "b1" tt Demo.annAndBob) = []
  /\ messageHistory (server (onDisconnect unit "b1" tt Demo.annAndBob))
     = messageHistory Demo.annAndBob
  /\ JsMap.get "r1" (rooms (server (onDisconnect unit "b1" tt Demo.annAndBob)))
     = Some (JsMap.delete "b1" [("a1", Demo.ann); ("b1", Demo.bob)])
  /\ JsMap.has "b1" (JsMap.delete "b1" [("a1", Demo.ann); ("b1", Demo.bob)])
     = false
  /\ forall other, other <> "b1" ->
       JsMap.get other (JsMap.delete "b1" [("a1", Demo.ann); ("b1", Demo.bob)])
       = JsMap.get other [("a1", Demo.ann); ("b1", Demo.bob)].
Proof.
  apply (disconnect_keeps_room_and_is_silent unit "b1" tt Demo.annAndBob
           "r1" [("a1", Demo.ann); ("b1", Demo.bob)]).
  - reflexivity.
  - discriminate.
Defined.

(** C1, as stated, fails: Bob disconnects from room r1 while Ann remains;
    no system notice is appended to the log of r1 and broadcast to r1. *)
Lemma disconnect_builds_no_departure_notice :
  JsMap.get "r1" (rooms (server (onDisconnect unit "b1" tt Demo.annAndBob)))
  = Some [("a1", Demo.ann)]
  /\ ~ exists m log,
         msg_type m = "system"
         /\ JsMap.get "r1" (messageHistory Demo.annAndBob) = Some log
         /\ JsMap.get "r1"
              (messageHistory (server (onDisconnect unit "b1" tt Demo.annAndBob)))
            = Some (log ++ [m])
         /\ In (Emit (To "r1") (MessageP m))
               (out (onDisconnect unit "b1" tt Demo.annAndBob)).
Proof.
  split; [reflexivity|].
  intros (m & log & _ & _ & _ & Hin). exact Hin.
Qed.

(** C2: in every reachable state each room of the registry has at least
    one participant; and when a disconnect removes the last participant of
    a room, the room and its log are both gone, so that the next join
    naming that room, whatever happens in between, replays no history. *)
Theorem no_empty_room_and_log_dies_with_room
    (World KbDoc : Type) (now : World -> string * World)
    (getDocs : World -> option (list KbDoc) * World)
    (generateContent : string -> list KbDoc -> World -> option string * World)
    (axiosTranslate : string -> string -> World -> option string * World)
    (s : Server) :
  reachable World KbDoc now getDocs generateContent axiosTranslate s ->
  (forall room users, In (room, users) (rooms s) -> users <> [])
  /\ forall id room users,
       find (fun ru => JsMap.has id (snd ru)) (rooms s) = Some (room, users) ->
       JsMap.delete id users = [] ->
       JsMap.has room (rooms (disconnect id s)) = false
       /\ JsMap.has room (messageHistory (disconnect id s)) = false
       /\ forall evs w id' uname lang rl tgt hst,
            forallb (fun ev => negb (joinsRoom room ev)) evs = true ->
            let r := runAll World KbDoc now getDocs generateContent
                            axiosTranslate evs w (disconnect id s) in
            ~ In (Emit tgt (MessageHistoryP hst))
                 (out (join World now id' room uname lang rl
                            (world r) (server r))).
Proof.
  intros Hreach. split.
  - now apply (reachable_nonempty _ _ _ _ _ _ _ Hreach).
  - intros id room users Hfind Hlast.
    assert (Hs' : disconnect id s
                  = mkServer (JsMap.delete room (rooms s))
                             (JsMap.delete room (messageHistory s))).
    { unfold disconnect. rewrite Hfind. unfold leaveRoom.
      now rewrite Hlast. }
    rewrite Hs'. simpl.
    split; [apply JsMapFacts.has_delete_eq|].
    split; [apply JsMapFacts.has_delete_eq|].
    intros evs w id' uname lang rl tgt hst Hevs.
    apply join_no_replay. apply has_false_get.
    apply runAll_keeps_absent; [easy|]. apply JsMapFacts.has_delete_eq.
Qed.

Lemma no_empty_room_and_log_dies_with_room_witness :
  Demo.reachable Demo.bobAlone
  /\ JsMap.has "r1" (rooms (disconnect "b1" Demo.bobAlone)) = false
  /\ JsMap.has "r1" (messageHistory (disconnect "b1" Demo.bobAlone)) = false
  /\ forall tgt hst,
       ~ In (Emit tgt (MessageHistoryP hst))
            (out (Demo.join "c1" "r1" "Cy" "en" "user" tt
                    (disconnect "b1" Demo.bobAlone))).
Proof.
  assert (Hreach : Demo.reachable Demo.bobAlone).
  { exact (reach_step unit string Demo.now Demo.getDocs Demo.generateContent
             Demo.axiosTranslate (Join "b1" "r1" "Bob" "fr" "user") tt init
             (reach_init _ _ _ _ _ _)). }
  split; [exact Hreach|].
  destruct (no_empty_room_and_log_dies_with_room unit string Demo.now
              Demo.getDocs Demo.generateContent Demo.axiosTranslate
              Demo.bobAlone Hreach) as [_ Hlast].
  destruct (Hlast "b1" "r1" [("b1", Demo.bob)] eq_refl eq_refl)
    as (Hroom & Hlog & Hjoin).
  split; [exact Hroom|]. split; [exact Hlog|].
  intros tgt hst. exact (Hjoin [] tt "c1" "Cy" "en" "user" tgt hst eq_refl).
Defined.

(** C3, at the input where the code departs from it: socket b1, already in
    room r1, joins room r2.  It is then an entry of both rooms, and its
    disconnect takes it out of r1 only: r2 keeps the entry of a socket that
    is gone. *)
Theorem join_second_room_keeps_first :
  let s2 := server (Demo.join "b1" "r2" "Bob" "fr" "user" tt Demo.annAndBob) in
  Demo.reachable s2
  /\ JsMap.get "r1" (rooms s2) = Some [("a1", Demo.ann); ("b1", Demo.bob)]
  /\ JsMap.get "r2" (rooms s2) = Some [("b1", Demo.bob)]
  /\ rooms (disconnect "b1" s2)
     = [("r1", [("a1", Demo.ann)]); ("r2", [("b1", Demo.bob)])].
Proof.
  split; [|repeat split].
  exact (reach_step _ _ _ _ _ _ (Join "b1" "r2" "Bob" "fr" "user") tt _
           (reach_step _ _ _ _ _ _ (Join "b1" "r1" "Bob" "fr" "user") tt _
              (reach_step _ _ _ _ _ _ (Join "a1" "r1" "Ann" "en" "agent") tt _
                 (reach_init _ _ _ _ _ _)))).
Qed.

(** ** History replay on join *)

(** C4: a valid join into a room that has a log sends the joiner, and only
    the joiner, one replay: for role user the records of the log whose type
    is neither system nor private, in log order; for role agent or
    supervisor the whole log. *)
Theorem replay_filtered_for_user_whole_for_staff
    (World : Type) (now : World -> string * World)
    (id room uname lang rl : string) (w : World) (s : Server)
    (log : list Msg) :
  validJoin room uname lang rl ->
  JsMap.get room (messageHistory s) = Some log ->
  let notice := Emit (To room) (MessageP (joinMessage uname (fst (now w)))) in
  (rl = "user" ->
   out (join World now id room uname lang rl w s) =
   [SocketJoin id room;
    Emit (Socket id)
      (MessageHistoryP
         (filter (fun m => negb (msg_type m =? "system")
                           && negb (msg_type m =? "private")) log));
    notice])
  /\ (rl = "agent" \/ rl = "supervisor" ->
      out (join World now id room uname lang rl w s) =
      [SocketJoin id room; Emit (Socket id) (MessageHistoryP log); notice]).
Proof.
  intros Hv Hlog notice. rewrite (join_valid _ _ _ _ _ _ _ _ _ Hv), Hlog.
  simpl. split.
  - intros ->. now rewrite filter_visibleTo_user.
  - intros Hrl. rewrite filter_visibleTo_other; [reflexivity|].
    destruct Hrl as [-> | ->]; discriminate.
Qed.

Lemma replay_filtered_for_user_whole_for_staff_witness :
  out (Demo.join "c1" "r1" "Cy" "en" "user" tt
         (server (Demo.chatMessage "b1" "r1" "bonjour" "fr" tt Demo.annAndBob)))
  = [SocketJoin "c1" "r1";
     Emit (Socket "c1")
       (MessageHistoryP
          [messageToSend Demo.bob "hello" "bonjour" true
             "2024-01-01T00:00:00.000Z";
           messageToSend Demo.bob "bonjour" "bonjour" false
             "2024-01-01T00:00:00.000Z"]);
     Emit (To "r1")
       (MessageP (joinMessage "Cy" "2024-01-01T00:00:00.000Z"))]
  /\ out (Demo.join "s1" "r1" "Sue" "en" "supervisor" tt Demo.annAndBob)
     = [SocketJoin "s1" "r1";
        Emit (Socket "s1")
          (MessageHistoryP
             [joinMessage "Ann" "2024-01-01T00:00:00.000Z";
              joinMessage "Bob" "2024-01-01T00:00:00.000Z"]);
        Emit (To "r1")
          (MessageP (joinMessage "Sue" "2024-01-01T00:00:00.000Z"))].
Proof.
  split.
  - refine (proj1 (replay_filtered_for_user_whole_for_staff unit Demo.now
                     "c1" "r1" "Cy" "en" "user" tt
                     (server (Demo.chatMessage "b1" "r1" "bonjour" "fr" tt
                                Demo.annAndBob))
                     [joinMessage "Ann" "2024-01-01T00:00:00.000Z";
                      joinMessage "Bob" "2024-01-01T00:00:00.000Z";
                      messageToSend Demo.bob "hello" "bonjour" true
                        "2024-01-01T00:00:00.000Z";
                      messageToSend Demo.bob "bonjour" "bonjour" false
                        "2024-01-01T00:00:00.000Z"]
                     _ _) eq_refl).
    + repeat split.
    + reflexivity.
  - refine (proj2 (replay_filtered_for_user_whole_for_staff unit Demo.now
                     "s1" "r1" "Sue" "en" "supervisor" tt Demo.annAndBob
                     [joinMessage "Ann" "2024-01-01T00:00:00.000Z";
                      joinMessage "Bob" "2024-01-01T00:00:00.000Z"]
                     _ _) (or_intror eq_refl)).
    + repeat split.
    + reflexivity.
Defined.

(** C9: a valid join whose role is any string other than user, known or
    not, into a room that has a log is sent the whole log, records of type
    private and system included. *)
Theorem replay_whole_unless_user
    (World : Type) (now : World -> string * World)
    (id room uname lang rl : string) (w : World) (s : Server)
    (log : list Msg) :
  validJoin room uname lang rl ->
  rl <> "user" ->
  JsMap.get room (messageHistory s) = Some log ->
  out (join World now id room uname lang rl w s) =
  [SocketJoin id room;
   Emit (Socket id) (MessageHistoryP log);
   Emit (To room) (MessageP (joinMessage uname (fst (now w))))].
Proof.
  intros Hv Hrl Hlog. rewrite (join_valid _ _ _ _ _ _ _ _ _ Hv), Hlog.
  simpl. now rewrite filter_visibleTo_other.
Qed.

Lemma replay_whole_unless_user_witness :
  out (Demo.join "x1" "r9" "Max" "en" "auditor" tt
         (mkServer [("r9", [("a1", Demo.ann)])]
            [("r9", [joinMessage "Ann" "t0";
                     mkMsg "Ann" "note" None None "t1" "private" None;
                     messageToSend Demo.ann "hi" "hi" false "t2"])]))
  = [SocketJoin "x1" "r9";
     Emit (Socket "x1")
       (MessageHistoryP
          [joinMessage "Ann" "t0";
           mkMsg "Ann" "note" None None "t1" "private" None;
           messageToSend Demo.ann "hi" "hi" false "t2"]);
     Emit (To "r9")
       (MessageP (joinMessage "Max" "2024-01-01T00:00:00.000Z"))].
Proof.
  apply (replay_whole_unless_user unit Demo.now "x1" "r9" "Max" "en"
           "auditor" tt).
  - repeat split.
  - discriminate.
  - reflexivity.
Defined.

(** ** Chat messages *)

Section ChatFacts.
Variable World : Type.
Variable KbDoc : Type.
Variable now : World -> string * World.
Variable getDocs : World -> option (list KbDoc) * World.
Variable generateContent :
  string -> list KbDoc -> World -> option string * World.
Variable axiosTranslate : string -> string -> World -> option string * World.

Lemma flat_map_nil {A B : Type} (f : A -> list B) l :
  (forall a, In a l -> f a = []) -> flat_map f l = [].
Proof.
  induction l as [|a l IH]; simpl; intros H; [easy|].
  rewrite (H a) by now left. apply IH. intros b Hb. apply H. now right.
Qed.

Lemma failedRecipients_app o1 o2 :
  failedRecipients (o1 ++ o2) = failedRecipients o1 ++ failedRecipients o2.
Proof. unfold failedRecipients. apply flat_map_app. Qed.

(** The suggestion part delivers no message and no delivery failure. *)
Lemma suggest_silent id message sender roomUsers w :
  let o1 := snd (suggest World KbDoc getDocs generateContent
                         id message sender roomUsers w) in
  delivered o1 = [] /\ failedRecipients o1 = [].
Proof.
  split; apply flat_map_nil; intros e He;
    apply suggest_effects in He
      as [->|[[a ->]|[(u & b & ->)| ->]]]; reflexivity.
Qed.

(** Each iteration adds one message or one failure. *)
Lemma Deliveries_count sender room message lang timestamp roomUsers h h' o :
  Deliveries sender room message lang timestamp roomUsers h h' o ->
  length (delivered o) + length (failedRecipients o) = length roomUsers.
Proof.
  induction 1 as [h|userId user rest h h1 h2 o1 o2 H1 H2 IH]; [easy|].
  rewrite delivered_app, failedRecipients_app, !length_app. simpl.
  assert (H : length (delivered o1) + length (failedRecipients o1) = 1).
  { destruct H1 as [h' Hl Hp|text h' Hl Hp|calls Hl Hc|calls Hg Hc];
      [reflexivity|reflexivity| |].
    - rewrite delivered_app, failedRecipients_app, !length_app.
      destruct Hc as [[-> _]| ->]; reflexivity.
    - rewrite delivered_app, failedRecipients_app, !length_app.
      assert (Hd : delivered calls = []).
      { apply flat_map_nil. intros e He. now destruct (Hc e He) as [t ->]. }
      assert (Hf : failedRecipients calls = []).
      { apply flat_map_nil. intros e He. now destruct (Hc e He) as [t ->]. }
      now rewrite Hd, Hf. }
  lia.
Qed.

(** An accepted chat message in a reachable state: the run is the
    suggestion part followed by the delivery loop over the entries of the
    room, whose ids are distinct and whose log exists. *)
Lemma chat_run id room message lang w s roomUsers sender :
  reachable World KbDoc now getDocs generateContent axiosTranslate s ->
  accepted id room message lang s roomUsers sender ->
  let r := chatMessage World KbDoc now getDocs generateContent axiosTranslate
                       id room message lang w s in
  exists o1 o2 log,
    out r = o1 ++ o2
    /\ o1 = snd (suggest World KbDoc getDocs generateContent
                         id message sender roomUsers (snd (now w)))
    /\ Deliveries sender room message lang (fst (now w)) roomUsers
         (messageHistory s) (messageHistory (server r)) o2
    /\ JsMap.get room (messageHistory s) = Some log
    /\ NoDup (JsMap.keys roomUsers).
Proof.
  intros Hreach Hacc r.
  destruct (chatMessage_Deliveries World KbDoc now getDocs generateContent
              axiosTranslate _ _ _ _ w _ _ _ Hacc)
    as (o1 & o2 & Hout & Ho1 & _ & HD).
  destruct Hacc as (_ & _ & _ & Hru & _).
  pose proof (reachable_log _ _ _ _ _ _ _ Hreach room) as Hlog.
  unfold JsMap.has in Hlog. rewrite Hru in Hlog.
  destruct (JsMap.get room (messageHistory s)) as [log|] eqn:Eg; [|easy].
  exists o1, o2, log. repeat split; try easy.
  apply reachable_distinctKeys in Hreach as [_ Hk].
  apply (Hk room). now apply JsMapFacts.get_In.
Qed.
End ChatFacts.

Lemma translationFailed_app message user o1 o2 :
  translationFailed message user o2 ->
  translationFailed message user (o1 ++ o2).
Proof.
  intros [H|H]; [now left|right]. apply in_app_iff. now right.
Qed.

Lemma annAndBob_reachable : Demo.reachable Demo.annAndBob.
Proof.
  exact (reach_step _ _ _ _ _ _ (Join "b1" "r1" "Bob" "fr" "user") tt _
           (reach_step _ _ _ _ _ _ (Join "a1" "r1" "Ann" "en" "agent") tt _
              (reach_init _ _ _ _ _ _))).
Qed.

Lemma bob_accepted message :
  truthy message = true ->
  accepted "b1" "r1" message "fr" Demo.annAndBob
           [("a1", Demo.ann); ("b1", Demo.bob)] Demo.bob.
Proof. intros H. now repeat split. Qed.

Lemma ann_accepted message :
  truthy message = true ->
  accepted "a1" "r1" message "en" Demo.annAndBob
           [("a1", Demo.ann); ("b1", Demo.bob)] Demo.ann.
Proof. intros H. now repeat split. Qed.



Lemma failedRecipients_In o userId :
  In userId (failedRecipients o) <-> In (deliveryFailed userId) o.
Proof.
  unfold failedRecipients, deliveryFailed. rewrite in_flat_map. split.
  - intros [e [He Hu]].
    destruct e as [| [|u] [msg| | |] | | |]; try easy.
    destruct (String.eqb_spec msg "Message delivery failed") as [->|]; [|easy].
    now destruct Hu as [<-|[]].
  - intros H. eexists. split; [exact H|]. now left.
Qed.

(** ** Start-up *)

Lemma firstMissing_None env names :
  firstMissing env names = None <->
  forall name, In name names -> envSet env name = true.
Proof.
  induction names as [|n rest IH]; simpl; [now split|].
  destruct (envSet env n) eqn:E.
  - rewrite IH. split; [intros H name [<-|Hin]; auto|auto].
  - split; [discriminate|]. intros H. rewrite (H n) in E by now left.
    discriminate.
Qed.

Lemma firstMissing_Some env names name :
  firstMissing env names = Some name ->
  exists before after,
    names = before ++ name :: after
    /\ envSet env name = false
    /\ forall n, In n before -> envSet env n = true.
Proof.
  induction names as [|n rest IH]; simpl; [discriminate|].
  destruct (envSet env n) eqn:E.
  - intros H. destruct (IH H) as (b & a & -> & Hm & Hb).
    exists (n :: b), a. split; [easy|]. split; [easy|].
    intros k [<-|Hk]; auto.
  - intros [= <-]. exists [], rest. now repeat split.
Qed.

Lemma envSet_true env name :
  envSet env name = true <-> exists v, env name = Some v /\ v <> "".
Proof.
  unfold envSet, truthy. destruct (env name) as [v|].
  - rewrite negb_true_iff, String.eqb_neq. split.
    + intros H. now exists v.
    + now intros (v' & [= <-] & H).
  - split; [discriminate|]. now intros (v & ? & _).
Qed.

(** Start-up goes past the check of the environment exactly when each of
    the five required variables is set to a non-empty string. *)
Theorem validateEnv_passes_iff_all_set (env : string -> option string) :
  validateEnv env = None <->
  forall name, In name requiredEnvVars ->
               exists v, env name = Some v /\ v <> "".
Proof.
  unfold validateEnv.
  destruct (firstMissing env requiredEnvVars) as [n|] eqn:E.
  - split; [discriminate|]. intros H.
    assert (Hnone : firstMissing env requiredEnvVars = None).
    { apply firstMissing_None. intros name Hin. apply envSet_true. auto. }
    congruence.
  - split; [|easy]. intros _ name Hin. apply envSet_true.
    now apply (proj1 (firstMissing_None env requiredEnvVars) E).
Qed.

(** When start-up fails on the environment, the error names the first
    required variable, in the order of the list, that is unset or empty;
    the variables listed before it are all set. *)
Theorem validateEnv_names_first_missing
    (env : string -> option string) (msg : string) :
  validateEnv env = Some msg ->
  exists before name after,
    requiredEnvVars = before ++ name :: after
    /\ msg = ("Missing required environment variable: " ++ name)%string
    /\ (env name = None \/ env name = Some "")
    /\ forall n, In n before -> exists v, env n = Some v /\ v <> "".
Proof.
  unfold validateEnv.
  destruct (firstMissing env requiredEnvVars) as [n|] eqn:E; [|discriminate].
  intros [= <-]. apply firstMissing_Some in E as (b & a & Hsplit & Hm & Hb).
  exists b, n, a. split; [easy|]. split; [easy|]. split.
  - unfold envSet, truthy in Hm. destruct (env n) as [v|]; [|now left].
    right. apply negb_false_iff, String.eqb_eq in Hm. now subst.
  - intros k Hk. apply envSet_true. auto.
Qed.

Lemma validateEnv_names_first_missing_witness :
  exists before name after,
    requiredEnvVars = before ++ name :: after
    /\ "Missing required environment variable: CLIENT_URL"
       = ("Missing required environment variable: " ++ name)%string
    /\ ((fun k => if k =? "PORT" then Some "3001" else None) name = None
        \/ (fun k => if k =? "PORT" then Some "3001" else None) name = Some "")
    /\ forall n, In n before ->
         exists v, (fun k => if k =? "PORT" then Some "3001" else None) n
                   = Some v /\ v <> "".
Proof.
  apply (validateEnv_names_first_missing
           (fun k => if k =? "PORT" then Some "3001" else None)).
  reflexivity.
Defined.

(** Once the check of the environment has passed, the configuration holds
    the values of the environment: the fall-back port 3001 and the
    fall-back client URL are not used, and the translator key and region
    are present. *)
Theorem config_after_validation_uses_no_fallback
    (env : string -> option string) :
  validateEnv env = None ->
  exists p u k r,
    env "PORT" = Some p /\ port (config env) = JsString p
    /\ env "CLIENT_URL" = Some u /\ clientUrl (config env) = JsString u
    /\ translationKey (config env) = Some k /\ k <> ""
    /\ translationRegion (config env) = Some r /\ r <> "".
Proof.
  unfold validateEnv.
  destruct (firstMissing env requiredEnvVars) as [n|] eqn:E; [discriminate|].
  intros _. pose proof (proj1 (firstMissing_None _ _) E) as H.
  destruct (proj1 (envSet_true env "PORT") (H _ (or_introl eq_refl)))
    as (p & Hp & Hp').
  destruct (proj1 (envSet_true env "CLIENT_URL")
              (H _ (or_intror (or_introl eq_refl)))) as (u & Hu & Hu').
  destruct (proj1 (envSet_true env "AZURE_TRANSLATOR_KEY")
              (H _ (or_intror (or_intror (or_introl eq_refl)))))
    as (k & Hk & Hk').
  destruct (proj1 (envSet_true env "AZURE_TRANSLATOR_REGION")
              (H _ (or_intror (or_intror (or_intror (or_introl eq_refl))))))
    as (r & Hr & Hr').
  exists p, u, k, r. unfold config, envOr. simpl. rewrite Hp, Hu, Hk, Hr.
  unfold truthy.
  apply String.eqb_neq in Hp', Hu'. rewrite Hp', Hu'. simpl.
  now repeat split.
Qed.

Lemma config_after_validation_uses_no_fallback_witness :
  exists p u k r,
    (fun _ : string => Some "x") "PORT" = Some p
    /\ port (config (fun _ => Some "x")) = JsString p
    /\ (fun _ : string => Some "x") "CLIENT_URL" = Some u
    /\ clientUrl (config (fun _ => Some "x")) = JsString u
    /\ translationKey (config (fun _ => Some "x")) = Some k /\ k <> ""
    /\ translationRegion (config (fun _ => Some "x")) = Some r /\ r <> "".
Proof.
  apply (config_after_validation_uses_no_fallback (fun _ => Some "x")).
  reflexivity.
Defined.

(** ** Lines and blank lines *)

Lemma split_nl_not_nil s : split_nl s <> [].
Proof.
  destruct s as [|c rest]; simpl; [easy|].
  destruct (nat_of_ascii c =? 10)%nat; [easy|].
  now destruct (split_nl rest).
Qed.

Lemma newline_eqb c : (nat_of_ascii c =? 10)%nat = true <-> c = newline.
Proof.
  rewrite Nat.eqb_eq. unfold newline. split.
  - intros H. now rewrite <- H, ascii_nat_embedding.
  - now intros ->.
Qed.

Lemma split_nl_pieces (s : string) :
  String.concat (String newline EmptyString) (split_nl s) = s
  /\ Forall (fun piece => ~ In newline (list_ascii_of_string piece))
            (split_nl s).
Proof.
  induction s as [|c rest [IHc IHf]]; simpl.
  - split; [reflexivity|]. constructor; [easy|constructor].
  - destruct (nat_of_ascii c =? 10)%nat eqn:E.
    + apply newline_eqb in E. subst c. split.
      * pose proof (split_nl_not_nil rest) as Hne.
        destruct (split_nl rest) as [|h t]; [easy|].
        simpl in *. now rewrite IHc.
      * constructor; [easy|exact IHf].
    + assert (Hc : c <> newline).
      { intros Hc. apply newline_eqb in Hc. congruence. }
      destruct (split_nl rest) as [|h t].
      * simpl in IHc. subst rest. split; [reflexivity|].
        constructor; [|constructor]. simpl. intros [H|[]]. now subst.
      * split.
        -- destruct t as [|h' t']; simpl in *; now rewrite IHc.
        -- inversion IHf as [|? ? Hh Ht]; subst. constructor; [|exact Ht].
           simpl. intros [H|H]; [now subst|contradiction].
Qed.

Ltac bytes_in H :=
  unfold space1, space2, space3, byteIs in H;
  rewrite ?orb_true_iff, ?andb_true_iff, ?Nat.eqb_eq, ?Nat.leb_le in H.

Ltac forget_bytes :=
  repeat match goal with
         | H : context [nat_of_ascii ?c] |- _ =>
             let n := fresh "n" in
             let E := fresh "E" in
             remember (nat_of_ascii c) as n eqn:E; clear E
         end.

Ltac no_space :=
  apply not_true_iff_false;
  let H := fresh in
  intro H; bytes_in H; forget_bytes;
  intuition (subst; try discriminate; try lia).

Lemma space2_first c1 c2 : space2 c1 c2 = true -> space1 c1 = false.
Proof. intros H. bytes_in H. no_space. Qed.

Lemma space3_first c1 c2 c3 :
  space3 c1 c2 c3 = true -> space1 c1 = false /\ space2 c1 c2 = false.
Proof. intros H. bytes_in H. split; no_space. Qed.

Lemma space2_last c1 c2 : space2 c1 c2 = true -> space1 c2 = false.
Proof. intros H. bytes_in H. no_space. Qed.

Lemma space3_last c1 c2 c3 :
  space3 c1 c2 c3 = true -> space1 c3 = false /\ space2 c2 c3 = false.
Proof. intros H. bytes_in H. split; no_space. Qed.

Lemma by_length {A : Type} (P : list A -> Prop) :
  (forall l, (forall l', length l' < length l -> P l') -> P l) ->
  forall l, P l.
Proof.
  intros H l. remember (length l) as n eqn:E. revert l E.
  induction n as [n IH] using lt_wf_ind. intros l ->.
  apply H. intros l' Hl. now apply (IH (length l')).
Qed.

(** [drop_space] removes a prefix of white space and stops at a text that
    it leaves as it is. *)
Lemma drop_space_spec l :
  exists pre,
    l = pre ++ drop_space l /\ Spaces pre
    /\ drop_space (drop_space l) = drop_space l.
Proof.
  induction l as [l IH] using by_length.
  destruct l as [|c1 l1]; [exists []; repeat split; constructor|].
  simpl. destruct (space1 c1) eqn:E1.
  { destruct (IH l1) as (pre & Hpre & Hs & Hi); [simpl; lia|].
    exists (c1 :: pre). split; [simpl; now f_equal|].
    split; [now constructor|exact Hi]. }
  destruct l1 as [|c2 l2].
  { exists []. split; [reflexivity|]. split; [constructor|].
    simpl. now rewrite E1. }
  destruct (space2 c1 c2) eqn:E2.
  { destruct (IH l2) as (pre & Hpre & Hs & Hi); [simpl; lia|].
    exists (c1 :: c2 :: pre). split; [simpl; now do 2 f_equal|].
    split; [now constructor|exact Hi]. }
  destruct l2 as [|c3 l3].
  { exists []. split; [reflexivity|]. split; [constructor|].
    simpl. now rewrite E1, E2. }
  destruct (space3 c1 c2 c3) eqn:E3.
  { destruct (IH l3) as (pre & Hpre & Hs & Hi); [simpl; lia|].
    exists (c1 :: c2 :: c3 :: pre). split; [simpl; now do 3 f_equal|].
    split; [now constructor|exact Hi]. }
  exists []. split; [reflexivity|]. split; [constructor|].
  simpl. now rewrite E1, E2, E3.
Qed.

Lemma drop_space_end_spec r :
  exists pre,
    r = pre ++ drop_space_end r /\ SpacesEnd pre
    /\ drop_space_end (drop_space_end r) = drop_space_end r.
Proof.
  induction r as [r IH] using by_length.
  destruct r as [|c3 r1]; [exists []; repeat split; constructor|].
  simpl. destruct (space1 c3) eqn:E1.
  { destruct (IH r1) as (pre & Hpre & Hs & Hi); [simpl; lia|].
    exists (c3 :: pre). split; [simpl; now f_equal|].
    split; [now constructor|exact Hi]. }
  destruct r1 as [|c2 r2].
  { exists []. split; [reflexivity|]. split; [constructor|].
    simpl. now rewrite E1. }
  destruct (space2 c2 c3) eqn:E2.
  { destruct (IH r2) as (pre & Hpre & Hs & Hi); [simpl; lia|].
    exists (c3 :: c2 :: pre). split; [simpl; now do 2 f_equal|].
    split; [now constructor|exact Hi]. }
  destruct r2 as [|c1 r3].
  { exists []. split; [reflexivity|]. split; [constructor|].
    simpl. now rewrite E1, E2. }
  destruct (space3 c1 c2 c3) eqn:E3.
  { destruct (IH r3) as (pre & Hpre & Hs & Hi); [simpl; lia|].
    exists (c3 :: c2 :: c1 :: pre). split; [simpl; now do 3 f_equal|].
    split; [now constructor|exact Hi]. }
  exists []. split; [reflexivity|]. split; [constructor|].
  simpl. now rewrite E1, E2, E3.
Qed.

Lemma Spaces_drop l : Spaces l -> drop_space l = [].
Proof.
  induction 1 as [|c l H Hl IH|c1 c2 l H Hl IH|c1 c2 c3 l H Hl IH]; simpl.
  - reflexivity.
  - now rewrite H.
  - now rewrite (space2_first _ _ H), H.
  - destruct (space3_first _ _ _ H) as [H1 H2]. now rewrite H1, H2, H.
Qed.

Lemma SpacesEnd_drop r : SpacesEnd r -> drop_space_end r = [].
Proof.
  induction 1 as [|c r H Hr IH|c1 c2 r H Hr IH|c1 c2 c3 r H Hr IH]; simpl.
  - reflexivity.
  - now rewrite H.
  - now rewrite (space2_last _ _ H), H.
  - destruct (space3_last _ _ _ H) as [H1 H2]. now rewrite H1, H2, H.
Qed.

Lemma Spaces_app a b : Spaces a -> Spaces b -> Spaces (a ++ b).
Proof.
  induction 1; simpl; intros Hb;
    [easy|apply spaces_1|apply spaces_2|apply spaces_3]; auto.
Qed.

Lemma SpacesEnd_app a b : SpacesEnd a -> SpacesEnd b -> SpacesEnd (a ++ b).
Proof.
  induction 1; simpl; intros Hb;
    [easy|apply spaces_end_1|apply spaces_end_2|apply spaces_end_3]; auto.
Qed.

Lemma SpacesEnd_rev r : SpacesEnd r -> Spaces (rev r).
Proof.
  induction 1 as [|c r H Hr IH|c1 c2 r H Hr IH|c1 c2 c3 r H Hr IH]; simpl.
  - constructor.
  - apply Spaces_app; [easy|]. apply spaces_1; [easy|constructor].
  - rewrite <- app_assoc. apply Spaces_app; [easy|]. simpl.
    apply spaces_2; [easy|constructor].
  - rewrite <- !app_assoc. apply Spaces_app; [easy|]. simpl.
    apply spaces_3; [easy|constructor].
Qed.

Lemma Spaces_rev l : Spaces l -> SpacesEnd (rev l).
Proof.
  induction 1 as [|c l H Hl IH|c1 c2 l H Hl IH|c1 c2 c3 l H Hl IH]; simpl.
  - constructor.
  - apply SpacesEnd_app; [easy|]. apply spaces_end_1; [easy|constructor].
  - rewrite <- app_assoc. apply SpacesEnd_app; [easy|]. simpl.
    apply spaces_end_2; [easy|constructor].
  - rewrite <- !app_assoc. apply SpacesEnd_app; [easy|]. simpl.
    apply spaces_end_3; [easy|constructor].
Qed.

Lemma drop_space_nil l : drop_space l = [] <-> Spaces l.
Proof.
  split; [|apply Spaces_drop]. intros H.
  destruct (drop_space_spec l) as (pre & Hpre & Hs & _).
  rewrite H, app_nil_r in Hpre. now subst.
Qed.

(** The result of [trim] is empty exactly for a text of white space only:
    a line passes the filter [s => s.trim()] exactly when it holds
    something else. *)
Lemma trim_empty_iff (s : string) :
  trim s = "" <-> Spaces (list_ascii_of_string s).
Proof.
  unfold trim. set (l := list_ascii_of_string s).
  destruct (drop_space_spec l) as (pre & Hpre & Hs & Hi).
  set (d := drop_space l) in *.
  destruct (drop_space_end_spec (rev d)) as (pe & Hpe & Hse & _).
  split.
  - intros H. apply (f_equal list_ascii_of_string) in H.
    rewrite list_ascii_of_string_of_list_ascii in H. simpl in H.
    apply (f_equal (@rev ascii)) in H. rewrite rev_involutive in H.
    simpl in H. rewrite H, app_nil_r in Hpe.
    assert (Hd : Spaces d).
    { rewrite <- (rev_involutive d), Hpe. now apply SpacesEnd_rev. }
    apply Spaces_drop in Hd. rewrite Hi in Hd.
    rewrite Hpre, Hd, app_nil_r. exact Hs.
  - intros H. apply Spaces_drop in H. fold d in H. now rewrite H.
Qed.

Lemma trim_truthy (s : string) :
  truthy (trim s) = true <-> ~ Spaces (list_ascii_of_string s).
Proof.
  unfold truthy. rewrite negb_true_iff, String.eqb_neq.
  now rewrite trim_empty_iff.
Qed.

Lemma drop_space_length l : length (drop_space l) <= length l.
Proof.
  destruct (drop_space_spec l) as (pre & Hpre & _).
  rewrite Hpre at 2. rewrite length_app. lia.
Qed.

(** A text that [drop_space] leaves as it is does not start with white
    space, and neither does a text that it starts with. *)
Lemma drop_space_prefix a b :
  drop_space (a ++ b) = a ++ b -> drop_space a = a.
Proof.
  destruct a as [|c1 a1]; [reflexivity|]. simpl.
  destruct (space1 c1) eqn:E1.
  { intros H. apply (f_equal (@length ascii)) in H.
    pose proof (drop_space_length (a1 ++ b)). simpl in H. lia. }
  destruct a1 as [|c2 a2]; [reflexivity|]. simpl.
  destruct (space2 c1 c2) eqn:E2.
  { intros H. apply (f_equal (@length ascii)) in H.
    pose proof (drop_space_length (a2 ++ b)). simpl in H. lia. }
  destruct a2 as [|c3 a3]; [reflexivity|]. simpl.
  destruct (space3 c1 c2 c3) eqn:E3; [|reflexivity].
  intros H. apply (f_equal (@length ascii)) in H.
  pose proof (drop_space_length (a3 ++ b)). simpl in H. lia.
Qed.

(** [trim] removes white space at both ends and nothing else: the text is
    its result between a prefix and a suffix of white space, the result
    starts and ends with no white space, trimming again changes nothing,
    and the result is empty exactly when the text is white space only. *)
Theorem trim_strips_both_ends (s : string) :
  (exists pre post,
      list_ascii_of_string s = pre ++ list_ascii_of_string (trim s) ++ post
      /\ Spaces pre /\ Spaces post)
  /\ drop_space (list_ascii_of_string (trim s))
     = list_ascii_of_string (trim s)
  /\ drop_space_end (rev (list_ascii_of_string (trim s)))
     = rev (list_ascii_of_string (trim s))
  /\ trim (trim s) = trim s
  /\ (trim s = "" <-> Spaces (list_ascii_of_string s)).
Proof.
  assert (Hlist : list_ascii_of_string (trim s)
                  = rev (drop_space_end
                           (rev (drop_space (list_ascii_of_string s))))).
  { unfold trim. apply list_ascii_of_string_of_list_ascii. }
  destruct (drop_space_spec (list_ascii_of_string s)) as (pre & Hpre & Hs & Hi).
  destruct (drop_space_end_spec (rev (drop_space (list_ascii_of_string s))))
    as (pe & Hpe & Hse & Hie).
  assert (Hd : drop_space (list_ascii_of_string s)
               = list_ascii_of_string (trim s) ++ rev pe).
  { rewrite Hlist, <- rev_app_distr, <- Hpe. now rewrite rev_involutive. }
  assert (Hfront : drop_space (list_ascii_of_string (trim s))
                   = list_ascii_of_string (trim s)).
  { apply (drop_space_prefix _ (rev pe)). now rewrite <- Hd. }
  assert (Hend : drop_space_end (rev (list_ascii_of_string (trim s)))
                 = rev (list_ascii_of_string (trim s))).
  { now rewrite Hlist, rev_involutive. }
  split; [|split; [exact Hfront|split; [exact Hend|split]]].
  - exists pre, (rev pe). split; [now rewrite <- Hd|].
    split; [exact Hs|now apply SpacesEnd_rev].
  - unfold trim at 1. rewrite Hfront, Hend, rev_involutive.
    apply string_of_list_ascii_of_string.
  - apply trim_empty_iff.
Qed.

(** Joining the pieces of [split('\n')] with the separator gives the text
    back, no piece contains the separator, and there is one piece more
    than there are separators in the text. *)
Theorem split_nl_join_round_trip (s : string) :
  String.concat (String newline EmptyString) (split_nl s) = s
  /\ Forall (fun piece => ~ In newline (list_ascii_of_string piece))
            (split_nl s)
  /\ length (split_nl s)
     = S (count_occ ascii_dec (list_ascii_of_string s) newline).
Proof.
  destruct (split_nl_pieces s) as [Hc Hf]. split; [exact Hc|].
  split; [exact Hf|]. clear Hc Hf.
  induction s as [|c rest IH]; simpl; [reflexivity|].
  destruct (nat_of_ascii c =? 10)%nat eqn:E.
  - apply newline_eqb in E. subst c.
    destruct (ascii_dec newline newline); [|contradiction].
    simpl. now rewrite IH.
  - assert (Hc : c <> newline).
    { intros Hc. apply newline_eqb in Hc. congruence. }
    destruct (ascii_dec c newline); [contradiction|].
    pose proof (split_nl_not_nil rest) as Hne.
    destruct (split_nl rest) as [|h t]; [contradiction|exact IH].
Qed.

(** ** Analysis and the HTTP routes *)

Section Analysis.
Variable World : Type.
Variable KbDoc : Type.
Variable getDocs : World -> option (list KbDoc) * World.
Variable generateContent :
  string -> list KbDoc -> World -> option string * World.

#[local] Abbreviation analyzeA :=
  (analyzeMessage World KbDoc getDocs generateContent).

(** The five ways [analyzeMessage] can go. *)
Lemma analyzeMessage_cases text w :
  (text = "" /\ analyzeA text w = (None, w, []))
  \/ (text <> ""
      /\ exists w1, getDocs w = (None, w1)
           /\ analyzeA text w = (None, w1, [GetDocs]))
  \/ (text <> ""
      /\ exists w1, getDocs w = (Some [], w1)
           /\ analyzeA text w = (None, w1, [GetDocs]))
  \/ (text <> ""
      /\ exists data w1 w2,
           data <> [] /\ getDocs w = (Some data, w1)
           /\ generateContent text data w1 = (None, w2)
           /\ analyzeA text w
              = (None, w2, [GetDocs; GenerateContent text None]))
  \/ (text <> ""
      /\ exists data w1 w2 body,
           data <> [] /\ getDocs w = (Some data, w1)
           /\ generateContent text data w1 = (Some body, w2)
           /\ analyzeA text w
              = (Some (nonBlankLines body), w2,
                 [GetDocs; GenerateContent text (Some body)])).
Proof.
  unfold analyzeMessage, getKnowledgeBase, truthy.
  destruct (String.eqb_spec text "") as [->|Hne]; simpl; [now left|].
  right. destruct (getDocs w) as [[[|d data]|] w1] eqn:Eg.
  - right; left. split; [easy|]. now exists w1.
  - right; right.
    destruct (generateContent text (d :: data) w1) as [[body|] w2] eqn:Ec.
    + right. split; [easy|]. now exists (d :: data), w1, w2, body.
    + left. split; [easy|]. now exists (d :: data), w1, w2.
  - left. split; [easy|]. now exists w1.
Qed.
End Analysis.

(** Without a knowledge base there is no analysis: when the read of the
    knowledge base fails or finds no document, [analyzeMessage] fails after
    that one read and the generative model is not called. *)
Theorem analyzeMessage_needs_knowledge_base
    (World KbDoc : Type)
    (getDocs : World -> option (list KbDoc) * World)
    (generateContent : string -> list KbDoc -> World -> option string * World)
    (text : string) (w : World) :
  text <> "" ->
  fst (getDocs w) = None \/ fst (getDocs w) = Some [] ->
  analyzeMessage World KbDoc getDocs generateContent text w
  = (None, snd (getDocs w), [GetDocs]).
Proof.
  intros Hne Hkb.
  destruct (analyzeMessage_cases World KbDoc getDocs generateContent text w)
    as [[Ht _]|[(_ & w1 & Hg & E)|[(_ & w1 & Hg & E)
       |[(_ & data & w1 & w2 & Hd & Hg & _)
        |(_ & data & w1 & w2 & body & Hd & Hg & _)]]]];
    [contradiction| | | |].
  - now rewrite E, Hg.
  - now rewrite E, Hg.
  - rewrite Hg in Hkb. simpl in Hkb.
    destruct Hkb as [Hkb|Hkb]; [discriminate|]. now injection Hkb as ->.
  - rewrite Hg in Hkb. simpl in Hkb.
    destruct Hkb as [Hkb|Hkb]; [discriminate|]. now injection Hkb as ->.
Qed.

Lemma analyzeMessage_needs_knowledge_base_witness :
  analyzeMessage unit string (fun w => (Some [], w)) Demo.generateContent
                 "help" tt
  = (None, tt, [GetDocs]).
Proof.
  apply (analyzeMessage_needs_knowledge_base unit string
           (fun w => (Some [], w)) Demo.generateContent "help" tt).
  - discriminate.
  - now right.
Defined.

(** A successful analysis has read a non-empty knowledge base once, then
    called the model once, and returns, in order, the lines of the model's
    answer that are not made of white space only (the white space of
    [trim]: tabs, spaces, line ends, no-break and other Unicode spaces):
    every suggestion is one line and none is blank. *)
Theorem analyzeMessage_returns_the_non_blank_lines
    (World KbDoc : Type)
    (getDocs : World -> option (list KbDoc) * World)
    (generateContent : string -> list KbDoc -> World -> option string * World)
    (text : string) (w w' : World)
    (suggestions : list string) (calls : list Effect) :
  analyzeMessage World KbDoc getDocs generateContent text w
  = (Some suggestions, w', calls) ->
  text <> ""
  /\ exists data w1 body,
       data <> [] /\ getDocs w = (Some data, w1)
       /\ generateContent text data w1 = (Some body, w')
       /\ calls = [GetDocs; GenerateContent text (Some body)]
       /\ (forall line,
             In line suggestions <->
             In line (split_nl body)
             /\ ~ Spaces (list_ascii_of_string line))
       /\ suggestions = nonBlankLines body
       /\ Forall (fun s => ~ In newline (list_ascii_of_string s)) suggestions.
Proof.
  intros H.
  destruct (analyzeMessage_cases World KbDoc getDocs generateContent text w)
    as [[_ E]|[(_ & w1 & _ & E)|[(_ & w1 & _ & E)
       |[(_ & data & w1 & w2 & _ & _ & _ & E)
        |(Hne & data & w1 & w2 & body & Hd & Hg & Hc & E)]]]];
    rewrite E in H; try discriminate.
  injection H as <- <- <-. split; [easy|].
  exists data, w1, body.
  split; [easy|]. split; [easy|]. split; [easy|]. split; [easy|].
  split; [|split; [reflexivity|]].
  - intros line. unfold nonBlankLines. rewrite filter_In, trim_truthy.
    reflexivity.
  - apply Forall_forall. intros s Hs. unfold nonBlankLines in Hs.
    apply filter_In in Hs as [Hin _].
    destruct (split_nl_pieces body) as [_ Hf].
    rewrite Forall_forall in Hf. now apply Hf.
Qed.

Lemma analyzeMessage_returns_the_non_blank_lines_witness :
  "A" <> ""
  /\ exists data w1 body,
       data <> [] /\ Demo.getDocs tt = (Some data, w1)
       /\ (fun (_ : string) (_ : list string) (w : unit) =>
             (Some (String "A" (String newline
                      (String (ascii_of_nat 194) (String (ascii_of_nat 160)
                         (String newline "B"))))), w))
            "A" data w1 = (Some body, tt)
       /\ [GetDocs;
           GenerateContent "A"
             (Some (String "A" (String newline
                      (String (ascii_of_nat 194) (String (ascii_of_nat 160)
                         (String newline "B"))))))]
          = [GetDocs; GenerateContent "A" (Some body)]
       /\ (forall line,
             In line ["A"; "B"] <->
             In line (split_nl body)
             /\ ~ Spaces (list_ascii_of_string line))
       /\ ["A"; "B"] = nonBlankLines body
       /\ Forall (fun s => ~ In newline (list_ascii_of_string s)) ["A"; "B"].
Proof.
  apply (analyzeMessage_returns_the_non_blank_lines unit string Demo.getDocs
           (fun _ _ w =>
              (Some (String "A" (String newline
                       (String (ascii_of_nat 194) (String (ascii_of_nat 160)
                          (String newline "B"))))), w))
           "A" tt tt).
  reflexivity.
Defined.

(** What each answer of [POST /api/analyze] means, for any body.  Status
    400 is the answer to a falsy text, and only to it, before any remote
    call; a 200 answer carries a non-empty list, the lines of the model's
    answer that are not made of white space only; 404 means that every
    line of the model's answer was blank; 500 means that the text was not a
    string (nothing was read), or that the knowledge base was unavailable
    or empty (the model was not called), or that the model failed. *)
Theorem apiAnalyze_status_meaning
    (World KbDoc : Type)
    (getDocs : World -> option (list KbDoc) * World)
    (generateContent : string -> list KbDoc -> World -> option string * World)
    (text : JsField) (w : World) :
  let run := apiAnalyzeBody World KbDoc getDocs generateContent text w in
  let r := fst (fst run) in
  let calls := snd run in
  (statusOf r = 400 <-> fieldTruthy text = false)
  /\ (fieldTruthy text = false -> run = (TextRequired, w, []))
  /\ (forall l, r = AnalyzeOk l ->
        l <> []
        /\ exists s body,
             text = FieldString s
             /\ calls = [GetDocs; GenerateContent s (Some body)]
             /\ l = nonBlankLines body
             /\ Forall (fun line => ~ Spaces (list_ascii_of_string line)) l)
  /\ (r = NoSuggestionsFound ->
      exists s body,
        text = FieldString s
        /\ calls = [GetDocs; GenerateContent s (Some body)]
        /\ Forall (fun line => Spaces (list_ascii_of_string line))
                  (split_nl body))
  /\ (r = AnalyzeServerError ->
      (text = FieldOther /\ run = (AnalyzeServerError, w, []))
      \/ exists s,
           text = FieldString s /\ s <> ""
           /\ (calls = [GetDocs]
               \/ calls = [GetDocs; GenerateContent s None])).
Proof.
  intros run r calls. subst r calls run. unfold apiAnalyzeBody.
  destruct text as [s| |]; simpl.
  - unfold truthy.
    destruct (String.eqb_spec s "") as [->|Hne]; simpl.
    { split; [easy|]. split; [easy|]. split; [discriminate|].
      split; discriminate. }
    destruct (analyzeMessage_cases World KbDoc getDocs generateContent s w)
      as [[Ht _]|[(_ & w1 & _ & E)|[(_ & w1 & _ & E)
         |[(_ & data & w1 & w2 & _ & _ & _ & E)
          |(_ & data & w1 & w2 & body & _ & _ & _ & E)]]]];
      [contradiction| | | |]; rewrite E; simpl.
    + split; [easy|]. split; [easy|]. split; [discriminate|].
      split; [discriminate|].
      intros _. right. exists s. split; [easy|]. split; [easy|now left].
    + split; [easy|]. split; [easy|]. split; [discriminate|].
      split; [discriminate|].
      intros _. right. exists s. split; [easy|]. split; [easy|now left].
    + split; [easy|]. split; [easy|]. split; [discriminate|].
      split; [discriminate|].
      intros _. right. exists s. split; [easy|]. split; [easy|now right].
    + assert (Hkeep : Forall (fun line =>
                                ~ Spaces (list_ascii_of_string line))
                             (nonBlankLines body)).
      { apply Forall_forall. intros line Hl. unfold nonBlankLines in Hl.
        apply filter_In in Hl as [_ Hv]. now apply trim_truthy. }
      assert (Hblank : nonBlankLines body = [] ->
                Forall (fun line => Spaces (list_ascii_of_string line))
                       (split_nl body)).
      { intros El. apply Forall_forall. intros line Hl.
        destruct (trim line =? "")%string eqn:Et.
        - apply String.eqb_eq in Et. now apply trim_empty_iff.
        - exfalso. assert (Hin : In line (nonBlankLines body)).
          { unfold nonBlankLines. apply filter_In. split; [easy|].
            unfold truthy. now rewrite Et. }
          now rewrite El in Hin. }
      destruct (nonBlankLines body) as [|l0 ls] eqn:El; simpl.
      * split; [easy|]. split; [easy|]. split; [discriminate|].
        split; [|discriminate].
        intros _. exists s, body. split; [easy|]. split; [easy|].
        now apply Hblank.
      * split; [easy|]. split; [easy|]. split; [|split; discriminate].
        intros l [= <-]. split; [discriminate|].
        exists s, body. split; [easy|]. split; [easy|]. split; easy.
  - split; [easy|]. split; [easy|]. split; [discriminate|].
    split; discriminate.
  - split; [easy|]. split; [easy|]. split; [discriminate|].
    split; [discriminate|]. intros _. now left.
Qed.

Lemma apiAnalyze_status_meaning_witness :
  (FieldOther = FieldOther
   /\ apiAnalyzeBody unit string Demo.getDocs Demo.generateContent
                     FieldOther tt
      = (AnalyzeServerError, tt, []))
  \/ exists s,
       FieldOther = FieldString s /\ s <> ""
       /\ (snd (apiAnalyzeBody unit string Demo.getDocs Demo.generateContent
                               FieldOther tt) = [GetDocs]
           \/ snd (apiAnalyzeBody unit string Demo.getDocs
                                  Demo.generateContent FieldOther tt)
              = [GetDocs; GenerateContent s None]).
Proof.
  exact (proj2 (proj2 (proj2 (proj2
           (apiAnalyze_status_meaning unit string Demo.getDocs
              Demo.generateContent FieldOther tt))))
           eq_refl).
Defined.

(** An empty knowledge base is an answer for [GET /api/kb] but a failure
    for the analysis: on the same empty collection the first route answers
    200 with an empty array and the second answers 500, each after one read
    of the collection. *)
Theorem empty_knowledge_base_ok_for_kb_error_for_analyze
    (World KbDoc : Type)
    (getDocs : World -> option (list KbDoc) * World)
    (generateContent : string -> list KbDoc -> World -> option string * World)
    (text : string) (w : World) :
  text <> "" ->
  fst (getDocs w) = Some [] ->
  apiKb World KbDoc getDocs w = (KbOk [], snd (getDocs w), [GetDocs])
  /\ apiAnalyze World KbDoc getDocs generateContent text w
     = (AnalyzeServerError, snd (getDocs w), [GetDocs]).
Proof.
  intros Hne Hkb. split.
  - unfold apiKb, getKnowledgeBase. destruct (getDocs w) as [r w1].
    simpl in *. now subst r.
  - unfold apiAnalyze, truthy. apply String.eqb_neq in Hne. rewrite Hne.
    simpl. apply String.eqb_neq in Hne.
    destruct (analyzeMessage_cases World KbDoc getDocs generateContent text w)
      as [[Ht _]|[(_ & w1 & Hg & E)|[(_ & w1 & Hg & E)
         |[(_ & data & w1 & w2 & Hd & Hg & _)
          |(_ & data & w1 & w2 & body & Hd & Hg & _)]]]];
      [contradiction| | | |]; rewrite Hg in *; simpl in *;
      try discriminate; try (now rewrite E);
      injection Hkb as ->; contradiction.
Qed.

Lemma empty_knowledge_base_ok_for_kb_error_for_analyze_witness :
  apiKb unit string (fun w => (Some [], w)) tt = (KbOk [], tt, [GetDocs])
  /\ apiAnalyze unit string (fun w => (Some [], w)) Demo.generateContent
                "help" tt
     = (AnalyzeServerError, tt, [GetDocs]).
Proof.
  apply (empty_knowledge_base_ok_for_kb_error_for_analyze unit string
           (fun w => (Some [], w)) Demo.generateContent "help" tt).
  - discriminate.
  - reflexivity.
Defined.

(** ** More about join *)

Lemma keys_set {V : Type} k (v : V) m :
  JsMap.keys (JsMap.set k v m)
  = if JsMap.has k m then JsMap.keys m else JsMap.keys m ++ [k].
Proof.
  unfold JsMap.has. induction m as [|[k0 v0] m IH]; simpl; [reflexivity|].
  destruct (k0 =? k) eqn:E; simpl.
  - apply String.eqb_eq in E. now subst.
  - rewrite IH. now destruct (JsMap.get k m).
Qed.

(** A join with a missing field only tells the joiner so: the registry,
    the logs and the outside world are as before.  A join with its four
    fields present reports no error. *)
Theorem join_with_missing_field_changes_nothing
    (World : Type) (now : World -> string * World)
    (id room uname lang rl : string) (w : World) (s : Server) :
  (room = "" \/ uname = "" \/ lang = "" \/ rl = "" ->
   join World now id room uname lang rl w s
   = mkRun w s [Emit (Socket id) (ErrorP "Invalid join parameters")])
  /\ (room <> "" /\ uname <> "" /\ lang <> "" /\ rl <> "" ->
      errorsSent (out (join World now id room uname lang rl w s)) = []).
Proof.
  split.
  - intros H. apply join_invalid. intros (Hr & Hu & Hl & Hrl).
    unfold truthy in *.
    destruct H as [->|[->|[->| ->]]]; discriminate.
  - intros (Hr & Hu & Hl & Hrl).
    assert (Hv : validJoin room uname lang rl).
    { unfold validJoin, truthy.
      now rewrite !negb_true_iff, !String.eqb_neq. }
    rewrite (join_valid _ _ _ _ _ _ _ _ _ Hv). simpl.
    now destruct (JsMap.get room (messageHistory s)).
Qed.

(** After a valid join the registry holds the joiner's profile under its
    socket id in the named room; the other entries of that room, the other
    rooms and the logs of the other rooms are as before. *)
Theorem join_registers_profile
    (World : Type) (now : World -> string * World)
    (id room uname lang rl : string) (w : World) (s : Server) :
  validJoin room uname lang rl ->
  let s' := server (join World now id room uname lang rl w s) in
  exists users',
    JsMap.get room (rooms s') = Some users'
    /\ JsMap.get id users' = Some (mkUser uname lang rl)
    /\ (forall other, other <> id ->
          JsMap.get other users'
          = JsMap.get other (orEmpty (JsMap.get room (rooms s))))
    /\ (forall r, r <> room ->
          JsMap.get r (rooms s') = JsMap.get r (rooms s)
          /\ JsMap.get r (messageHistory s')
             = JsMap.get r (messageHistory s)).
Proof.
  intros Hv s'. subst s'. rewrite (join_valid _ _ _ _ _ _ _ _ _ Hv). simpl.
  eexists. split; [apply JsMapFacts.get_set_eq|].
  split; [apply JsMapFacts.get_set_eq|]. split.
  - intros other Hne. apply JsMapFacts.get_set_neq. congruence.
  - intros r Hne. split; apply JsMapFacts.get_set_neq; congruence.
Qed.

Lemma join_registers_profile_witness :
  exists users',
    JsMap.get "r1"
      (rooms (server (Demo.join "c1" "r1" "Cy" "en" "user" tt Demo.annAndBob)))
    = Some users'
    /\ JsMap.get "c1" users' = Some (mkUser "Cy" "en" "user")
    /\ (forall other, other <> "c1" ->
          JsMap.get other users'
          = JsMap.get other
              (orEmpty (JsMap.get "r1" (rooms Demo.annAndBob))))
    /\ (forall r, r <> "r1" ->
          JsMap.get r
            (rooms (server (Demo.join "c1" "r1" "Cy" "en" "user" tt
                              Demo.annAndBob)))
          = JsMap.get r (rooms Demo.annAndBob)
          /\ JsMap.get r
               (messageHistory
                  (server (Demo.join "c1" "r1" "Cy" "en" "user" tt
                             Demo.annAndBob)))
             = JsMap.get r (messageHistory Demo.annAndBob)).
Proof.
  apply (join_registers_profile unit Demo.now "c1" "r1" "Cy" "en" "user" tt
           Demo.annAndBob).
  now repeat split.
Defined.

(** A socket that joins a room again gets its profile replaced in place:
    the room has the same socket ids in the same order, so the same number
    of participants.  A socket new to the room is added after the others. *)
Theorem rejoin_replaces_profile_in_place
    (World : Type) (now : World -> string * World)
    (id room uname lang rl : string) (w : World) (s : Server)
    (users : list (string * User)) :
  validJoin room uname lang rl ->
  JsMap.get room (rooms s) = Some users ->
  let s' := server (join World now id room uname lang rl w s) in
  exists users',
    JsMap.get room (rooms s') = Some users'
    /\ JsMap.get id users' = Some (mkUser uname lang rl)
    /\ (JsMap.has id users = true ->
        JsMap.keys users' = JsMap.keys users)
    /\ (JsMap.has id users = false ->
        users' = users ++ [(id, mkUser uname lang rl)]).
Proof.
  intros Hv Hroom s'. subst s'.
  rewrite (join_valid _ _ _ _ _ _ _ _ _ Hv), Hroom. simpl.
  eexists. split; [apply JsMapFacts.get_set_eq|].
  split; [apply JsMapFacts.get_set_eq|]. split.
  - intros Hhas. now rewrite keys_set, Hhas.
  - intros Hhas. clear Hroom. unfold JsMap.has in Hhas.
    induction users as [|[k0 v0] m IH]; simpl in *; [reflexivity|].
    destruct (k0 =? id); [discriminate|]. now rewrite IH.
Qed.

Lemma rejoin_replaces_profile_in_place_witness :
  exists users',
    JsMap.get "r1"
      (rooms (server (Demo.join "b1" "r1" "Robert" "en" "agent" tt
                        Demo.annAndBob)))
    = Some users'
    /\ JsMap.get "b1" users' = Some (mkUser "Robert" "en" "agent")
    /\ (JsMap.has "b1" [("a1", Demo.ann); ("b1", Demo.bob)] = true ->
        JsMap.keys users'
        = JsMap.keys [("a1", Demo.ann); ("b1", Demo.bob)])
    /\ (JsMap.has "b1" [("a1", Demo.ann); ("b1", Demo.bob)] = false ->
        users' = [("a1", Demo.ann); ("b1", Demo.bob)]
                 ++ [("b1", mkUser "Robert" "en" "agent")]).
Proof.
  apply (rejoin_replaces_profile_in_place unit Demo.now "b1" "r1" "Robert"
           "en" "agent" tt Demo.annAndBob).
  - now repeat split.
  - reflexivity.
Defined.

(** A valid join reads the clock once, appends one record to the log of the
    named room, the join notice with the joiner's name, and sends that same
    record, and no other message, to the room. *)
Theorem join_appends_and_broadcasts_one_notice
    (World : Type) (now : World -> string * World)
    (id room uname lang rl : string) (w : World) (s : Server) :
  validJoin room uname lang rl ->
  let r := join World now id room uname lang rl w s in
  let notice := joinMessage uname (fst (now w)) in
  world r = snd (now w)
  /\ JsMap.get room (messageHistory (server r))
     = Some (orEmpty (JsMap.get room (messageHistory s)) ++ [notice])
  /\ delivered (out r) = [notice]
  /\ (forall tgt m, In (Emit tgt (MessageP m)) (out r) -> tgt = To room)
  /\ msg_type notice = "system"
  /\ msg_text notice = (uname ++ " has joined the chat")%string.
Proof.
  intros Hv r notice. subst r notice.
  rewrite (join_valid _ _ _ _ _ _ _ _ _ Hv). simpl.
  split; [reflexivity|]. split; [apply JsMapFacts.get_set_eq|].
  destruct (JsMap.get room (messageHistory s)); simpl;
    (split; [reflexivity|]); (split; [|now split]);
    intros tgt m H; repeat (destruct H as [H|H]; try discriminate);
    try contradiction; now injection H as <- _.
Qed.

Lemma join_appends_and_broadcasts_one_notice_witness :
  world (Demo.join "c1" "r1" "Cy" "en" "user" tt Demo.annAndBob)
  = snd (Demo.now tt)
  /\ JsMap.get "r1"
       (messageHistory
          (server (Demo.join "c1" "r1" "Cy" "en" "user" tt Demo.annAndBob)))
     = Some (orEmpty (JsMap.get "r1" (messageHistory Demo.annAndBob))
             ++ [joinMessage "Cy" (fst (Demo.now tt))])
  /\ delivered (out (Demo.join "c1" "r1" "Cy" "en" "user" tt Demo.annAndBob))
     = [joinMessage "Cy" (fst (Demo.now tt))]
  /\ (forall tgt m,
        In (Emit tgt (MessageP m))
           (out (Demo.join "c1" "r1" "Cy" "en" "user" tt Demo.annAndBob)) ->
        tgt = To "r1")
  /\ msg_type (joinMessage "Cy" (fst (Demo.now tt))) = "system"
  /\ msg_text (joinMessage "Cy" (fst (Demo.now tt)))
     = "Cy has joined the chat".
Proof.
  apply (join_appends_and_broadcasts_one_notice unit Demo.now "c1" "r1" "Cy"
           "en" "user" tt Demo.annAndBob).
  now repeat split.
Defined.

(** ** More about chat messages *)

Section ChatMore.
Variable World : Type.
Variable KbDoc : Type.
Variable now : World -> string * World.
Variable getDocs : World -> option (list KbDoc) * World.
Variable generateContent :
  string -> list KbDoc -> World -> option string * World.
Variable axiosTranslate : string -> string -> World -> option string * World.

#[local] Abbreviation chatM :=
  (chatMessage World KbDoc now getDocs generateContent axiosTranslate).

(** The handler either rejects the message and leaves everything as it
    was, or accepts it. *)
Lemma chatMessage_rejected_or_accepted id room message lang w s :
  (exists msg,
     chatM id room message lang w s
     = mkRun w s [Emit (Socket id) (ErrorP msg)])
  \/ exists roomUsers sender,
       accepted id room message lang s roomUsers sender.
Proof.
  unfold chatMessage, accepted.
  destruct (truthy room); [|left; eexists; reflexivity].
  destruct (truthy message); [|left; eexists; reflexivity].
  destruct (truthy lang); [|left; eexists; reflexivity]. simpl.
  destruct (JsMap.get room (rooms s)) as [roomUsers|];
    [|left; eexists; reflexivity].
  destruct (JsMap.get id roomUsers) as [sender|] eqn:E;
    [|left; eexists; reflexivity].
  right. exists roomUsers, sender. now repeat split.
Qed.

(** Logs only grow, by chat records, and only the log of the named room. *)
Lemma chatMessage_history_grows id room message lang w s r :
  (JsMap.get r (messageHistory s) = None ->
   JsMap.get r (messageHistory (server (chatM id room message lang w s)))
   = None)
  /\ forall log,
       JsMap.get r (messageHistory s) = Some log ->
       exists new,
         JsMap.get r (messageHistory (server (chatM id room message lang w s)))
         = Some (log ++ new)
         /\ Forall isChatRecord new
         /\ (r <> room -> new = []).
Proof.
  destruct (chatMessage_rejected_or_accepted id room message lang w s)
    as [[msg ->]|(roomUsers & sender & Hacc)]; simpl.
  - split; [easy|]. intros log Hlog. exists []. rewrite app_nil_r.
    now repeat split.
  - destruct (chatMessage_Deliveries World KbDoc now getDocs generateContent
                axiosTranslate _ _ _ _ w _ _ _ Hacc)
      as (o1 & o2 & _ & _ & _ & HD).
    pose proof (Deliveries_history _ _ _ _ _ _ _ _ _ HD) as (A & B & C & _).
    split.
    + intros Hnone. apply has_false_get. rewrite A.
      now apply has_false_get.
    + intros log Hlog. destruct (String.eqb_spec r room) as [->|Hne].
      * exists (delivered o2). split; [now apply C|]. split; [|easy].
        apply Forall_forall. intros m Hm. apply delivered_In in Hm as [tgt Hm].
        destruct (Deliveries_message _ _ _ _ _ _ _ _ _ _ _ HD Hm)
          as (u & us & _ & _ & [[_ ->]|[_ [text [-> _]]]]);
          unfold isChatRecord; eauto 6.
      * exists []. rewrite app_nil_r. split; [now rewrite B|]. now split.
Qed.
End ChatMore.

(** A chat message with a missing field, for a room that does not exist, or
    from a socket that is not an entry of the room is answered by one
    error to the sending socket; the registry, the logs and the outside
    world are as before, and no remote service is called. *)
Theorem chatMessage_rejected_changes_nothing
    (World KbDoc : Type) (now : World -> string * World)
    (getDocs : World -> option (list KbDoc) * World)
    (generateContent : string -> list KbDoc -> World -> option string * World)
    (axiosTranslate : string -> string -> World -> option string * World)
    (id room message lang : string) (w : World) (s : Server) :
  let run := chatMessage World KbDoc now getDocs generateContent
                         axiosTranslate id room message lang w s in
  let rejected msg := run = mkRun w s [Emit (Socket id) (ErrorP msg)] in
  (room = "" \/ message = "" \/ lang = "" ->
   rejected "Invalid message parameters")
  /\ (room <> "" -> message <> "" -> lang <> "" ->
      JsMap.get room (rooms s) = None -> rejected "Room not found")
  /\ (room <> "" -> message <> "" -> lang <> "" ->
      forall roomUsers,
        JsMap.get room (rooms s) = Some roomUsers ->
        JsMap.get id roomUsers = None -> rejected "User not found in room").
Proof.
  intros run rejected. subst run rejected. unfold chatMessage, truthy.
  split; [|split].
  - intros [->|[->| ->]]; simpl; [reflexivity| |].
    + now destruct (room =? "").
    + now destruct (room =? ""), (message =? "").
  - intros Hr Hm Hl Hg. apply String.eqb_neq in Hr, Hm, Hl.
    now rewrite Hr, Hm, Hl, Hg.
  - intros Hr Hm Hl roomUsers Hg Hs. apply String.eqb_neq in Hr, Hm, Hl.
    now rewrite Hr, Hm, Hl, Hg, Hs.
Qed.

(** Whatever it is given, the chat handler leaves the registry as it is,
    creates and removes no log, and appends only chat records and only to
    the log of the room it names: every other log is unchanged. *)
Theorem chatMessage_only_appends_to_its_log
    (World KbDoc : Type) (now : World -> string * World)
    (getDocs : World -> option (list KbDoc) * World)
    (generateContent : string -> list KbDoc -> World -> option string * World)
    (axiosTranslate : string -> string -> World -> option string * World)
    (id room message lang : string) (w : World) (s : Server) :
  let s' := server (chatMessage World KbDoc now getDocs generateContent
                                axiosTranslate id room message lang w s) in
  rooms s' = rooms s
  /\ (forall r, JsMap.get r (messageHistory s) = None ->
                JsMap.get r (messageHistory s') = None)
  /\ (forall r log,
        JsMap.get r (messageHistory s) = Some log ->
        exists new,
          JsMap.get r (messageHistory s') = Some (log ++ new)
          /\ Forall (fun m => isChatRecord m /\ msg_type m = "public") new
          /\ (r <> room -> new = [])).
Proof.
  intros s'. subst s'. split; [|split].
  - apply chatMessage_frame.
  - intros r. apply chatMessage_history_grows.
  - intros r log Hlog.
    destruct (chatMessage_history_grows World KbDoc now getDocs
                generateContent axiosTranslate id room message lang w s r)
      as [_ H].
    destruct (H log Hlog) as (new & Hnew & Hrec & Hother).
    exists new. split; [easy|]. split; [|easy].
    eapply Forall_impl; [|exact Hrec].
    intros m Hm. split; [easy|].
    now destruct Hm as (sd & t & ms & tr & ts & ->).
Qed.

(** ** More invariants of the reachable states *)

Section MoreInvariants.
Variable World : Type.
Variable KbDoc : Type.
Variable now : World -> string * World.
Variable getDocs : World -> option (list KbDoc) * World.
Variable generateContent :
  string -> list KbDoc -> World -> option string * World.
Variable axiosTranslate : string -> string -> World -> option string * World.

#[local] Abbreviation reachableM :=
  (reachable World KbDoc now getDocs generateContent axiosTranslate).
#[local] Abbreviation handleM :=
  (handle World KbDoc now getDocs generateContent axiosTranslate).

(** What a disconnect does, on the first room that holds the socket. *)
Lemma disconnect_cases id s :
  (disconnect id s = s
   /\ forall room users, In (room, users) (rooms s) ->
                         JsMap.has id users = false)
  \/ exists room users,
       In (room, users) (rooms s) /\ JsMap.has id users = true
       /\ find (fun ru => JsMap.has id (snd ru)) (rooms s)
          = Some (room, users)
       /\ ((JsMap.delete id users = []
            /\ disconnect id s
               = mkServer (JsMap.delete room (rooms s))
                          (JsMap.delete room (messageHistory s)))
           \/ (JsMap.delete id users <> []
               /\ disconnect id s
                  = mkServer (JsMap.set room (JsMap.delete id users) (rooms s))
                             (messageHistory s))).
Proof.
  unfold disconnect.
  destruct (find _ (rooms s)) as [[room users]|] eqn:Ef.
  - right. exists room, users. pose proof Ef as Ef'.
    apply find_holder in Ef' as [Hin Hhas].
    split; [easy|]. split; [easy|]. split; [easy|]. unfold leaveRoom.
    destruct (JsMap.size (JsMap.delete id users) =? 0)%nat eqn:E.
    + left. apply size_zero in E. now split.
    + right. split; [|easy]. intros Hnil. rewrite Hnil in E. discriminate.
  - left. split; [easy|]. intros room users Hin.
    now apply (find_none _ _ Ef (room, users)).
Qed.

(** A property of logs that holds of a lone join notice and survives the
    appending of a join notice or of chat records holds of every log of
    every reachable state. *)
Lemma reachable_logs (Q : list Msg -> Prop) :
  (forall name ts, Q [joinMessage name ts]) ->
  (forall log name ts, Q log -> Q (log ++ [joinMessage name ts])) ->
  (forall log new, Q log -> Forall isChatRecord new -> Q (log ++ new)) ->
  forall s, reachableM s ->
  forall r log, JsMap.get r (messageHistory s) = Some log -> Q log.
Proof.
  intros Q1 Qj Qc s Hreach.
  induction Hreach as [|ev w s Hs IH]; [discriminate|]. intros r log.
  destruct ev as [id room uname lang rl|id room message lang|id]; simpl.
  - destruct (validJoin_dec room uname lang rl) as [Hv|Hv].
    + rewrite (join_valid _ _ _ _ _ _ _ _ _ Hv). simpl.
      destruct (String.eqb_spec room r) as [->|Hne].
      * rewrite JsMapFacts.get_set_eq. intros [= <-].
        destruct (JsMap.get r (messageHistory s)) as [log0|] eqn:E; simpl.
        -- apply Qj. now apply (IH r).
        -- apply Q1.
      * rewrite JsMapFacts.get_set_neq by easy. apply IH.
    + rewrite (join_invalid _ _ _ _ _ _ _ _ _ Hv). apply IH.
  - destruct (chatMessage_history_grows World KbDoc now getDocs
                generateContent axiosTranslate id room message lang w s r)
      as [Hnone Hsome].
    destruct (JsMap.get r (messageHistory s)) as [log0|] eqn:E.
    + destruct (Hsome log0 eq_refl) as (new & -> & Hnew & _).
      intros [= <-]. apply Qc; [now apply (IH r)|easy].
    + now rewrite (Hnone eq_refl).
  - destruct (disconnect_cases id s)
      as [[-> _]|(room & users & _ & _ & _ & [[_ ->]|[_ ->]])]; simpl.
    + apply IH.
    + destruct (String.eqb_spec room r) as [->|Hne].
      * now rewrite JsMapFacts.get_delete_eq.
      * rewrite JsMapFacts.get_delete_neq by easy. apply IH.
    + apply IH.
Qed.

(** Room names and stored profiles passed the check of [join]. *)
Lemma reachable_profiles s :
  reachableM s ->
  forall room users,
    In (room, users) (rooms s) ->
    room <> "" /\ forall id u, In (id, u) users -> validProfile u.
Proof.
  induction 1 as [|ev w s Hs IH]; [easy|]. intros r us.
  destruct ev as [id room uname lang rl|id room message lang|id]; simpl.
  - destruct (validJoin_dec room uname lang rl) as [Hv|Hv].
    + rewrite (join_valid _ _ _ _ _ _ _ _ _ Hv). simpl. intros Hin.
      apply JsMapFacts.In_set in Hin as [[= -> ->]|Hin]; [|now apply IH].
      destruct Hv as (Hr & Hu & Hl & Hrl). split.
      * unfold truthy in Hr. now apply negb_true_iff, String.eqb_neq in Hr.
      * intros i u Hi.
        apply JsMapFacts.In_set in Hi as [[= -> ->]|Hi]; [now split|].
        destruct (JsMap.get room (rooms s)) as [us0|] eqn:E; [|easy].
        apply JsMapFacts.get_In in E. now apply (proj2 (IH _ _ E) i).
    + rewrite (join_invalid _ _ _ _ _ _ _ _ _ Hv). apply IH.
  - destruct (chatMessage_frame World KbDoc now getDocs generateContent
                axiosTranslate id room message lang w s) as [-> _].
    apply IH.
  - destruct (disconnect_cases id s)
      as [[-> _]|(room & users & Hru & _ & _ & [[_ ->]|[_ ->]])]; simpl.
    + apply IH.
    + intros Hin. apply JsMapFacts.In_delete in Hin as [Hin _].
      now apply IH.
    + intros Hin.
      apply JsMapFacts.In_set in Hin as [[= -> ->]|Hin]; [|now apply IH].
      destruct (IH _ _ Hru) as [Hr Hus]. split; [easy|].
      intros i u Hi. apply JsMapFacts.In_delete in Hi as [Hi _].
      now apply (Hus i).
Qed.

(** The join notice of every participant is in the log of its room. *)
Lemma reachable_notices s :
  reachableM s ->
  forall room users id u,
    JsMap.get room (rooms s) = Some users ->
    JsMap.get id users = Some u ->
    exists log ts,
      JsMap.get room (messageHistory s) = Some log
      /\ In (joinMessage (username u) ts) log.
Proof.
  induction 1 as [|ev w s Hs IH]; [discriminate|]. intros r us i u.
  destruct ev as [id room uname lang rl|id room message lang|id]; simpl.
  - destruct (validJoin_dec room uname lang rl) as [Hv|Hv].
    + rewrite (join_valid _ _ _ _ _ _ _ _ _ Hv). simpl.
      destruct (String.eqb_spec room r) as [->|Hne].
      * rewrite !JsMapFacts.get_set_eq. intros [= <-].
        destruct (String.eqb_spec id i) as [->|Hni].
        -- rewrite JsMapFacts.get_set_eq. intros [= <-]. simpl.
           eexists _, _. split; [reflexivity|].
           apply in_or_app. right. now left.
        -- rewrite JsMapFacts.get_set_neq by easy.
           destruct (JsMap.get r (rooms s)) as [us0|] eqn:E; [|discriminate].
           simpl. intros Hi.
           destruct (IH _ _ _ _ E Hi) as (log & ts & -> & Hin). simpl.
           exists (log ++ [joinMessage uname (fst (now w))]), ts.
           split; [reflexivity|]. apply in_or_app. now left.
      * rewrite !JsMapFacts.get_set_neq by easy. apply IH.
    + rewrite (join_invalid _ _ _ _ _ _ _ _ _ Hv). apply IH.
  - destruct (chatMessage_frame World KbDoc now getDocs generateContent
                axiosTranslate id room message lang w s) as [-> _].
    intros Hr Hi. destruct (IH _ _ _ _ Hr Hi) as (log & ts & Hlog & Hin).
    destruct (chatMessage_history_grows World KbDoc now getDocs
                generateContent axiosTranslate id room message lang w s r)
      as [_ Hsome].
    destruct (Hsome log Hlog) as (new & Hnew & _).
    exists (log ++ new), ts. split; [easy|]. apply in_or_app. now left.
  - destruct (disconnect_cases id s)
      as [[-> _]|(room & users & Hru & _ & _ & [[_ ->]|[_ ->]])]; simpl.
    + apply IH.
    + destruct (String.eqb_spec room r) as [->|Hne].
      * now rewrite JsMapFacts.get_delete_eq.
      * rewrite !JsMapFacts.get_delete_neq by easy. apply IH.
    + destruct (String.eqb_spec room r) as [->|Hne].
      * rewrite JsMapFacts.get_set_eq. intros [= <-].
        destruct (String.eqb_spec id i) as [->|Hni].
        -- now rewrite JsMapFacts.get_delete_eq.
        -- rewrite JsMapFacts.get_delete_neq by easy.
           apply IH. apply reachable_distinctKeys in Hs as [Hk _].
           now apply JsMapFacts.NoDup_keys_In_get.
      * rewrite JsMapFacts.get_set_neq by easy. apply IH.
Qed.
End MoreInvariants.

(** In every reachable state the registry and the history have the same
    rooms, and the log of a room is never empty: it starts with the join
    notice of the socket that created the room. *)
Theorem room_has_log_starting_with_join_notice
    (World KbDoc : Type) (now : World -> string * World)
    (getDocs : World -> option (list KbDoc) * World)
    (generateContent : string -> list KbDoc -> World -> option string * World)
    (axiosTranslate : string -> string -> World -> option string * World)
    (s : Server) :
  reachable World KbDoc now getDocs generateContent axiosTranslate s ->
  (forall room,
     JsMap.has room (messageHistory s) = JsMap.has room (rooms s))
  /\ forall room log,
       JsMap.get room (messageHistory s) = Some log ->
       exists name timestamp rest, log = joinMessage name timestamp :: rest.
Proof.
  intros Hreach. split; [now apply (reachable_log _ _ _ _ _ _ _ Hreach)|].
  apply (reachable_logs World KbDoc now getDocs generateContent
           axiosTranslate
           (fun log => exists name ts rest, log = joinMessage name ts :: rest));
    [| | |exact Hreach].
  - intros name ts. now exists name, ts, [].
  - intros log name ts (n & t & rest & ->). eexists n, t, _. reflexivity.
  - intros log new (n & t & rest & ->) _. eexists n, t, _. reflexivity.
Qed.

Lemma room_has_log_starting_with_join_notice_witness :
  (forall room,
     JsMap.has room (messageHistory Demo.annAndBob)
     = JsMap.has room (rooms Demo.annAndBob))
  /\ forall room log,
       JsMap.get room (messageHistory Demo.annAndBob) = Some log ->
       exists name timestamp rest, log = joinMessage name timestamp :: rest.
Proof.
  exact (room_has_log_starting_with_join_notice unit string Demo.now
           Demo.getDocs Demo.generateContent Demo.axiosTranslate
           Demo.annAndBob annAndBob_reachable).
Defined.

(** The server stores join notices and chat records and nothing else, so no
    record of type private is ever in a log; the replay for a joiner of
    role user is then exactly the chat records of the log. *)
Theorem no_private_record_is_ever_stored
    (World KbDoc : Type) (now : World -> string * World)
    (getDocs : World -> option (list KbDoc) * World)
    (generateContent : string -> list KbDoc -> World -> option string * World)
    (axiosTranslate : string -> string -> World -> option string * World)
    (s : Server) (room : string) (log : list Msg) :
  reachable World KbDoc now getDocs generateContent axiosTranslate s ->
  JsMap.get room (messageHistory s) = Some log ->
  Forall (fun m => (isJoinNotice m /\ msg_type m = "system")
                   \/ (isChatRecord m /\ msg_type m = "public")) log
  /\ (forall m, In m log -> msg_type m <> "private")
  /\ filter (visibleTo "user") log
     = filter (fun m => msg_type m =? "public") log.
Proof.
  intros Hreach Hlog.
  assert (Hkinds : Forall (fun m => (isJoinNotice m /\ msg_type m = "system")
                             \/ (isChatRecord m /\ msg_type m = "public")) log).
  { revert room log Hlog.
    apply (reachable_logs World KbDoc now getDocs generateContent
             axiosTranslate
             (Forall (fun m => (isJoinNotice m /\ msg_type m = "system")
                               \/ (isChatRecord m /\ msg_type m = "public"))));
      [| | |exact Hreach].
    - intros name ts. constructor; [|constructor]. left.
      split; [now exists name, ts|reflexivity].
    - intros l name ts Hl. apply Forall_app. split; [easy|].
      constructor; [|constructor]. left.
      split; [now exists name, ts|reflexivity].
    - intros l new Hl Hnew. apply Forall_app. split; [easy|].
      eapply Forall_impl; [|exact Hnew]. intros m Hm. right. split; [easy|].
      now destruct Hm as (sd & t & ms & tr & ts & ->). }
  split; [exact Hkinds|]. split.
  - intros m Hm. rewrite Forall_forall in Hkinds.
    destruct (Hkinds m Hm) as [[_ E]|[_ E]]; rewrite E; discriminate.
  - clear Hlog. induction Hkinds as [|m l Hm Hl IH]; simpl; [reflexivity|].
    rewrite IH. unfold visibleTo. simpl.
    destruct Hm as [[_ E]|[_ E]]; now rewrite E.
Qed.

Lemma no_private_record_is_ever_stored_witness :
  Forall (fun m => (isJoinNotice m /\ msg_type m = "system")
                   \/ (isChatRecord m /\ msg_type m = "public"))
         [joinMessage "Ann" "2024-01-01T00:00:00.000Z";
          joinMessage "Bob" "2024-01-01T00:00:00.000Z"]
  /\ (forall m,
        In m [joinMessage "Ann" "2024-01-01T00:00:00.000Z";
              joinMessage "Bob" "2024-01-01T00:00:00.000Z"] ->
        msg_type m <> "private")
  /\ filter (visibleTo "user")
            [joinMessage "Ann" "2024-01-01T00:00:00.000Z";
             joinMessage "Bob" "2024-01-01T00:00:00.000Z"]
     = filter (fun m => msg_type m =? "public")
              [joinMessage "Ann" "2024-01-01T00:00:00.000Z";
               joinMessage "Bob" "2024-01-01T00:00:00.000Z"].
Proof.
  apply (no_private_record_is_ever_stored unit string Demo.now
           Demo.getDocs Demo.generateContent Demo.axiosTranslate
           Demo.annAndBob "r1").
  - exact annAndBob_reachable.
  - reflexivity.
Defined.

(** In every reachable state the name of each room is non-empty and each
    stored profile has a non-empty name, language and role: nothing enters
    the registry but through the check of the join handler. *)
Theorem registered_profiles_are_complete
    (World KbDoc : Type) (now : World -> string * World)
    (getDocs : World -> option (list KbDoc) * World)
    (generateContent : string -> list KbDoc -> World -> option string * World)
    (axiosTranslate : string -> string -> World -> option string * World)
    (s : Server) (room id : string) (users : list (string * User))
    (u : User) :
  reachable World KbDoc now getDocs generateContent axiosTranslate s ->
  JsMap.get room (rooms s) = Some users ->
  JsMap.get id users = Some u ->
  room <> "" /\ username u <> "" /\ language u <> "" /\ role u <> "".
Proof.
  intros Hreach Hroom Hid.
  apply JsMapFacts.get_In in Hroom, Hid.
  destruct (reachable_profiles _ _ _ _ _ _ _ Hreach _ _ Hroom) as [Hr Hus].
  destruct (Hus _ _ Hid) as (Hn & Hl & Hrl). unfold truthy in *.
  now rewrite !negb_true_iff, !String.eqb_neq in *.
Qed.

Lemma registered_profiles_are_complete_witness :
  "r1" <> "" /\ username Demo.bob <> "" /\ language Demo.bob <> ""
  /\ role Demo.bob <> "".
Proof.
  apply (registered_profiles_are_complete unit string Demo.now
           Demo.getDocs Demo.generateContent Demo.axiosTranslate
           Demo.annAndBob "r1" "b1" [("a1", Demo.ann); ("b1", Demo.bob)]).
  - exact annAndBob_reachable.
  - reflexivity.
  - reflexivity.
Defined.

(** In every reachable state the log of a room holds the join notice,
    under the current name, of each of its participants. *)
Theorem every_participant_has_a_join_notice_in_the_log
    (World KbDoc : Type) (now : World -> string * World)
    (getDocs : World -> option (list KbDoc) * World)
    (generateContent : string -> list KbDoc -> World -> option string * World)
    (axiosTranslate : string -> string -> World -> option string * World)
    (s : Server) (room id : string) (users : list (string * User))
    (u : User) :
  reachable World KbDoc now getDocs generateContent axiosTranslate s ->
  JsMap.get room (rooms s) = Some users ->
  JsMap.get id users = Some u ->
  exists log timestamp,
    JsMap.get room (messageHistory s) = Some log
    /\ In (joinMessage (username u) timestamp) log.
Proof.
  intros Hreach. now apply (reachable_notices _ _ _ _ _ _ _ Hreach).
Qed.

Lemma every_participant_has_a_join_notice_in_the_log_witness :
  exists log timestamp,
    JsMap.get "r1" (messageHistory Demo.annAndBob) = Some log
    /\ In (joinMessage (username Demo.ann) timestamp) log.
Proof.
  apply (every_participant_has_a_join_notice_in_the_log unit string Demo.now
           Demo.getDocs Demo.generateContent Demo.axiosTranslate
           Demo.annAndBob "r1" "a1" [("a1", Demo.ann); ("b1", Demo.bob)]).
  - exact annAndBob_reachable.
  - reflexivity.
  - reflexivity.
Defined.

(** ** Join, chat and disconnect together *)

Lemma translatorCalls_app o1 o2 :
  translatorCalls (o1 ++ o2) = translatorCalls o1 ++ translatorCalls o2.
Proof. unfold translatorCalls. apply flat_map_app. Qed.

(** With a log for the room, a non-empty message and non-empty languages,
    the loop asks the translator once for each entry of another language,
    in the order of the entries. *)
Lemma Deliveries_translatorCalls sender room message lang timestamp
    roomUsers h h' o :
  Deliveries sender room message lang timestamp roomUsers h h' o ->
  truthy message = true ->
  (forall id u, In (id, u) roomUsers -> truthy (language u) = true) ->
  forall log, JsMap.get room h = Some log ->
  translatorCalls o
  = map (fun entry => (message, language (snd entry)))
        (filter (fun entry => negb (language (snd entry) =? lang)) roomUsers).
Proof.
  intros HD Hm. induction HD as [h|userId user rest h h1 h2 o1 o2 H1 H2 IH];
    intros Hl log Hlog; [reflexivity|].
  rewrite translatorCalls_app. simpl.
  pose proof (Delivery_history _ _ _ _ _ _ _ _ _ _ H1) as (_ & _ & C & _).
  rewrite (IH (fun i u Hi => Hl i u (or_intror Hi)) _ (C _ Hlog)).
  assert (Hu : truthy (language user) = true) by (apply (Hl userId); now left).
  destruct H1 as [h' Hsame Hp|text h' Hne Hp|calls Hne Hc|calls Hg Hc].
  - apply String.eqb_eq in Hsame. now rewrite Hsame.
  - apply String.eqb_neq in Hne. now rewrite Hne.
  - apply String.eqb_neq in Hne. rewrite Hne. simpl.
    destruct Hc as [[_ Hf]| ->]; [|reflexivity].
    now rewrite Hm, Hu in Hf.
  - congruence.
Qed.



Lemma In_set_distinct {V : Type} k (v : V) m k' v' :
  NoDup (JsMap.keys m) ->
  In (k', v') (JsMap.set k v m) ->
  (k' = k /\ v' = v) \/ (k' <> k /\ In (k', v') m).
Proof.
  induction m as [|[k0 v0] m IH]; simpl; intros Hnd Hin.
  - destruct Hin as [[= <- <-]|[]]. now left.
  - inversion Hnd as [|? ? Hnin Hnd']; subst.
    destruct (String.eqb_spec k0 k) as [->|Hne]; simpl in Hin.
    + destruct Hin as [[= <- <-]|Hin]; [now left|]. right. split; [|now right].
      intros ->. apply Hnin. unfold JsMap.keys.
      now apply (in_map fst _ (k, v')).
    + destruct Hin as [[= <- <-]|Hin]; [right; split; [easy|now left]|].
      destruct (IH Hnd' Hin) as [?|[? ?]]; [now left|right].
      split; [easy|now right].
Qed.

Lemma find_none_all {A : Type} (f : A -> bool) l :
  (forall x, In x l -> f x = false) -> find f l = None.
Proof.
  induction l as [|a l IH]; simpl; intros H; [reflexivity|].
  rewrite (H a) by now left. apply IH. intros x Hx. apply H. now right.
Qed.

(** A disconnect changes at most one room, the first that holds the socket:
    for a socket that no room holds, nothing changes and nothing is sent;
    otherwise every other room and every other log is as before. *)
Theorem disconnect_touches_only_the_first_holder
    (World : Type) (id : string) (w : World) (s : Server) :
  ((forall room users, In (room, users) (rooms s) ->
                       JsMap.has id users = false) ->
   onDisconnect World id w s = mkRun w s [])
  /\ forall room users,
       find (fun ru => JsMap.has id (snd ru)) (rooms s)
       = Some (room, users) ->
       forall r, r <> room ->
         JsMap.get r (rooms (disconnect id s)) = JsMap.get r (rooms s)
         /\ JsMap.get r (messageHistory (disconnect id s))
            = JsMap.get r (messageHistory s).
Proof.
  split.
  - intros Hnone. unfold onDisconnect, disconnect.
    rewrite find_none_all; [reflexivity|].
    intros [room users] Hin. now apply (Hnone room users).
  - intros room users Hfind r Hne. unfold disconnect. rewrite Hfind.
    unfold leaveRoom. destruct (_ =? 0)%nat; simpl.
    + split; apply JsMapFacts.get_delete_neq; congruence.
    + split; [|reflexivity]. apply JsMapFacts.get_set_neq. congruence.
Qed.

(** The disconnect of a socket that is in one room only, in a reachable
    state, leaves it in no room; a second disconnect then changes nothing
    and every later chat message of that socket is rejected. *)
Theorem disconnect_of_single_room_socket_is_complete
    (World KbDoc : Type) (now : World -> string * World)
    (getDocs : World -> option (list KbDoc) * World)
    (generateContent : string -> list KbDoc -> World -> option string * World)
    (axiosTranslate : string -> string -> World -> option string * World)
    (id : string) (s : Server) :
  reachable World KbDoc now getDocs generateContent axiosTranslate s ->
  (forall r1 us1 r2 us2,
     In (r1, us1) (rooms s) -> JsMap.has id us1 = true ->
     In (r2, us2) (rooms s) -> JsMap.has id us2 = true -> r1 = r2) ->
  let s' := disconnect id s in
  (forall room users, In (room, users) (rooms s') ->
                      JsMap.has id users = false)
  /\ disconnect id s' = s'
  /\ forall room message lang w,
       exists msg,
         chatMessage World KbDoc now getDocs generateContent axiosTranslate
                     id room message lang w s'
         = mkRun w s' [Emit (Socket id) (ErrorP msg)].
Proof.
  intros Hreach Hone s'.
  assert (Hgone : forall room users, In (room, users) (rooms s') ->
                                     JsMap.has id users = false).
  { subst s'. apply reachable_distinctKeys in Hreach as [Hk _].
    destruct (disconnect_cases id s)
      as [[-> Hno]|(room & users & Hru & Hhas & _ & [[_ ->]|[_ ->]])];
      simpl; [exact Hno| |].
    - intros r us Hin. apply JsMapFacts.In_delete in Hin as [Hin Hne].
      destruct (JsMap.has id us) eqn:E; [|reflexivity].
      now contradiction (Hne (Hone _ _ _ _ Hin E Hru Hhas)).
    - intros r us Hin.
      apply (In_set_distinct _ _ _ _ _ Hk) in Hin as [[-> ->]|[Hne Hin]].
      + apply JsMapFacts.has_delete_eq.
      + destruct (JsMap.has id us) eqn:E; [|reflexivity].
        now contradiction (Hne (Hone _ _ _ _ Hin E Hru Hhas)). }
  split; [exact Hgone|]. split.
  - unfold disconnect at 1. rewrite find_none_all; [reflexivity|].
    intros [room users] Hin. now apply (Hgone room users).
  - intros room message lang w.
    destruct (chatMessage_rejected_or_accepted World KbDoc now getDocs
                generateContent axiosTranslate id room message lang w s')
      as [Hrej|(roomUsers & sender & _ & _ & _ & Hroom & Hid)]; [exact Hrej|].
    apply JsMapFacts.get_In in Hroom. apply Hgone in Hroom.
    unfold JsMap.has in Hroom. now rewrite Hid in Hroom.
Qed.

Lemma disconnect_of_single_room_socket_is_complete_witness :
  (forall room users,
     In (room, users) (rooms (disconnect "b1" Demo.annAndBob)) ->
     JsMap.has "b1" users = false)
  /\ disconnect "b1" (disconnect "b1" Demo.annAndBob)
     = disconnect "b1" Demo.annAndBob
  /\ forall room message lang w,
       exists msg,
         Demo.chatMessage "b1" room message lang w
                          (disconnect "b1" Demo.annAndBob)
         = mkRun w (disconnect "b1" Demo.annAndBob)
                 [Emit (Socket "b1") (ErrorP msg)].
Proof.
  apply (disconnect_of_single_room_socket_is_complete unit string Demo.now
           Demo.getDocs Demo.generateContent Demo.axiosTranslate
           "b1" Demo.annAndBob annAndBob_reachable).
  intros r1 us1 r2 us2 H1 _ H2 _.
  destruct H1 as [[= <- _]|[]]. now destruct H2 as [[= <- _]|[]].
Defined.

(** ** The edge cases on the concrete world *)

Lemma join_with_missing_field_changes_nothing_witness :
  Demo.join "c1" "r1" "" "en" "user" tt Demo.annAndBob
  = mkRun tt Demo.annAndBob
          [Emit (Socket "c1") (ErrorP "Invalid join parameters")].
Proof.
  exact (proj1
           (join_with_missing_field_changes_nothing unit Demo.now
              "c1" "r1" "" "en" "user" tt Demo.annAndBob)
           (or_intror (or_introl eq_refl))).
Defined.

Lemma chatMessage_rejected_changes_nothing_witness :
  Demo.chatMessage "z9" "r1" "hi" "en" tt Demo.annAndBob
  = mkRun tt Demo.annAndBob
          [Emit (Socket "z9") (ErrorP "User not found in room")].
Proof.
  refine (proj2 (proj2
            (chatMessage_rejected_changes_nothing unit string Demo.now
               Demo.getDocs Demo.generateContent Demo.axiosTranslate
               "z9" "r1" "hi" "en" tt Demo.annAndBob))
            _ _ _ [("a1", Demo.ann); ("b1", Demo.bob)] eq_refl eq_refl);
    discriminate.
Defined.

Lemma chatMessage_only_appends_to_its_log_witness :
  exists new,
    JsMap.get "r1"
      (messageHistory
         (server (Demo.chatMessage "a1" "r1" "hi" "en" tt Demo.annAndBob)))
    = Some ([joinMessage "Ann" "2024-01-01T00:00:00.000Z";
             joinMessage "Bob" "2024-01-01T00:00:00.000Z"] ++ new)
    /\ Forall (fun m => isChatRecord m /\ msg_type m = "public") new
    /\ ("r1" <> "r1" -> new = []).
Proof.
  exact (proj2 (proj2
           (chatMessage_only_appends_to_its_log unit string Demo.now
              Demo.getDocs Demo.generateContent Demo.axiosTranslate
              "a1" "r1" "hi" "en" tt Demo.annAndBob))
           "r1" _ eq_refl).
Defined.

Lemma disconnect_touches_only_the_first_holder_witness :
  onDisconnect unit "z9" tt Demo.annAndBob = mkRun tt Demo.annAndBob [].
Proof.
  apply (proj1 (disconnect_touches_only_the_first_holder unit "z9" tt
                  Demo.annAndBob)).
  intros room users [[= <- <-]|[]]. reflexivity.
Defined.

(** ** The machine

    Facts about the loop, about one step, and about the run of one handler
    among the steps of the others. *)

Module AsyncFacts.
Import Async.

Section Loop.
Context {KbDoc : Type}.
Implicit Types (st : State KbDoc) (i : Input KbDoc) (o : list (Out KbDoc)).
Implicit Types (c : Call) (sl : Slot) (h : list (string * list Msg)).
Implicit Types (tasks : list (nat * (Call * Phase KbDoc))).

Lemma taskGet_drop_eq tid tasks : taskGet tid (taskDrop tid tasks) = None.
Proof.
  induction tasks as [|[k t] l IH]; simpl; [reflexivity|].
  destruct (k =? tid)%nat eqn:E; simpl; [exact IH|now rewrite E].
Qed.

Lemma taskGet_drop_neq tid tid' tasks :
  tid' <> tid -> taskGet tid' (taskDrop tid tasks) = taskGet tid' tasks.
Proof.
  intros Hne. induction tasks as [|[k t] l IH]; simpl; [reflexivity|].
  destruct (k =? tid)%nat eqn:E; simpl.
  - apply Nat.eqb_eq in E. subst k.
    destruct (tid =? tid')%nat eqn:E2; [|exact IH].
    apply Nat.eqb_eq in E2. congruence.
  - now rewrite IH.
Qed.

Lemma taskGet_put_eq tid t tasks : taskGet tid (taskPut tid t tasks) = Some t.
Proof. unfold taskPut. simpl. now rewrite Nat.eqb_refl. Qed.

Lemma taskGet_put_neq tid tid' t tasks :
  tid' <> tid -> taskGet tid' (taskPut tid t tasks) = taskGet tid' tasks.
Proof.
  intros Hne. unfold taskPut. simpl.
  destruct (tid =? tid')%nat eqn:E.
  - apply Nat.eqb_eq in E. congruence.
  - now apply taskGet_drop_neq.
Qed.

Lemma sentMessages_app o1 o2 :
  sentMessages (o1 ++ o2) = sentMessages o1 ++ sentMessages o2.
Proof. unfold sentMessages. apply flat_map_app. Qed.

Lemma outcomes_app o1 o2 : outcomes (o1 ++ o2) = outcomes o1 ++ outcomes o2.
Proof. unfold outcomes. apply flat_map_app. Qed.

Lemma translateRequests_app o1 o2 :
  translateRequests (o1 ++ o2) = translateRequests o1 ++ translateRequests o2.
Proof. unfold translateRequests. apply flat_map_app. Qed.

Lemma successes_app l1 l2 : successes (l1 ++ l2) = successes l1 ++ successes l2.
Proof. unfold successes. apply flat_map_app. Qed.

Lemma lastRequest_app tid o1 o2 :
  lastRequest tid (o1 ++ o2)
  = match lastRequest tid o2 with
    | Some r => Some r
    | None => lastRequest tid o1
    end.
Proof.
  induction o1 as [|e o1 IH]; simpl.
  - now destruct (lastRequest tid o2).
  - rewrite IH. now destruct (lastRequest tid o2).
Qed.

Lemma appended_refl room h : appended room h h ([] : list (Out KbDoc)).
Proof.
  unfold appended. destruct (JsMap.get room h); simpl; [|easy].
  now rewrite app_nil_r.
Qed.

Lemma appended_trans room h h1 h2 o1 o2 :
  appended room h h1 o1 -> appended room h1 h2 o2 ->
  appended room h h2 (o1 ++ o2).
Proof.
  unfold appended. rewrite sentMessages_app.
  destruct (JsMap.get room h) as [log|].
  - intros ->. intros ->. now rewrite app_assoc.
  - intros [-> ->]. now intros [-> ->].
Qed.

Lemma appended_silent room h o : sentMessages o = [] -> appended room h h o.
Proof.
  intros E. unfold appended. rewrite E.
  destruct (JsMap.get room h); [now rewrite app_nil_r|easy].
Qed.

Lemma pushAndSend_cases c sl m h :
  (exists log,
      JsMap.get (call_room c) h = Some log
      /\ pushAndSend (KbDoc:=KbDoc) c sl m h
         = (JsMap.set (call_room c) (log ++ [m]) h,
            Sent (To (slot_id sl)) (MessageP m)))
  \/ (JsMap.get (call_room c) h = None
      /\ pushAndSend (KbDoc:=KbDoc) c sl m h = (h, failedFor sl)).
Proof.
  unfold pushAndSend, pushHistory.
  destruct (JsMap.get (call_room c) h) as [log|]; [left|right]; eauto.
Qed.

Lemma pushAndSend_appended c sl m h :
  appended (call_room c) h (fst (pushAndSend (KbDoc:=KbDoc) c sl m h))
           [snd (pushAndSend (KbDoc:=KbDoc) c sl m h)]
  /\ forall room, room <> call_room c ->
       JsMap.get room (fst (pushAndSend (KbDoc:=KbDoc) c sl m h))
       = JsMap.get room h.
Proof.
  destruct (pushAndSend_cases c sl m h) as [(log & Hg & ->)|(Hg & ->)];
    simpl; unfold appended; rewrite Hg; simpl.
  - split; [apply JsMapFacts.get_set_eq|].
    intros room Hne. apply JsMapFacts.get_set_neq. congruence.
  - now split.
Qed.

(** The loop appends what it sends to the log of its room and touches no
    other log. *)
Lemma serve_appended tid c slots : forall h h' o r,
  serve tid c slots h = (h', o, r) ->
  appended (call_room c) h h' o
  /\ forall room, room <> call_room c -> JsMap.get room h' = JsMap.get room h.
Proof.
  induction slots as [|sl rest IH]; simpl; intros h h' o r H.
  - injection H as <- <- <-. split; [apply appended_refl|easy].
  - destruct (language (slot_user sl) =? call_lang c).
    + destruct (pushAndSend_appended c sl
                  (recordFor c (call_message c) false) h) as [Ha Hb].
      destruct (pushAndSend c sl _ h) as [h1 o1]. simpl in Ha, Hb.
      destruct (serve tid c rest h1) as [[h2 o2] r2] eqn:Es.
      injection H as <- <- <-. destruct (IH _ _ _ _ Es) as [Ha2 Hb2].
      split.
      * exact (appended_trans _ _ _ _ [o1] o2 Ha Ha2).
      * intros room Hne. now rewrite Hb2, Hb.
    + destruct (_ || _).
      * destruct (serve tid c rest h) as [[h2 o2] r2] eqn:Es.
        injection H as <- <- <-. destruct (IH _ _ _ _ Es) as [Ha2 Hb2].
        split; [|exact Hb2].
        exact (appended_trans _ _ _ _ [failedFor sl] o2
                 (appended_silent (call_room c) h [failedFor sl] eq_refl) Ha2).
      * injection H as <- <- <-. split; [|easy].
        now apply appended_silent.
Qed.

(** What the loop puts out: the original to an entry of the language of the
    message, the failure to an entry whose delivery failed at once, and
    last the request for the translation it awaits. *)
Lemma serve_kinds tid c slots : forall h h' o r,
  serve tid c slots h = (h', o, r) ->
  forall e, In e o ->
    (exists sl,
        In sl slots /\ language (slot_user sl) = call_lang c
        /\ e = Sent (To (slot_id sl))
                 (MessageP (recordFor c (call_message c) false)))
    \/ (exists sl,
          In sl slots /\ e = failedFor sl
          /\ ((language (slot_user sl) = call_lang c
               /\ JsMap.get (call_room c) h = None)
              \/ (language (slot_user sl) <> call_lang c
                  /\ (call_message c = ""
                      \/ language (slot_user sl) = ""))))
    \/ (exists sl,
          In sl slots /\ r = Some sl
          /\ language (slot_user sl) <> call_lang c
          /\ e = Request tid
                   (TranslateCall (call_message c)
                      (language (slot_user sl)))).
Proof.
  induction slots as [|sl rest IH]; simpl; intros h h' o r H e Hin.
  - injection H as <- <- <-. contradiction.
  - destruct (String.eqb_spec (language (slot_user sl)) (call_lang c))
      as [El|El].
    + destruct (pushAndSend_cases c sl (recordFor c (call_message c) false) h)
        as [(log & Hg & Ep)|(Hg & Ep)]; rewrite Ep in H;
        destruct (serve tid c rest _) as [[h2 o2] r2] eqn:Es;
        injection H as <- <- <-; destruct Hin as [<-|Hin].
      * left. exists sl. now repeat split; [left|..].
      * destruct (IH _ _ _ _ Es e Hin)
          as [(s & Hs & ? & ?)|[(s & Hs & ? & Hc)|(s & Hs & ? & ? & ?)]].
        -- left. exists s. now repeat split; [right|..].
        -- right; left. exists s. split; [now right|]. split; [easy|].
           destruct Hc as [[_ Hn]|Hc]; [|now right].
           rewrite JsMapFacts.get_set_eq in Hn. discriminate.
        -- right; right. exists s. now repeat split; [right|..].
      * right; left. exists sl. split; [now left|]. split; [easy|].
        now left.
      * destruct (IH _ _ _ _ Es e Hin)
          as [(s & Hs & ? & ?)|[(s & Hs & ? & Hc)|(s & Hs & ? & ? & ?)]].
        -- left. exists s. now repeat split; [right|..].
        -- right; left. exists s. split; [now right|]. now split.
        -- right; right. exists s. now repeat split; [right|..].
    + destruct (negb (truthy (call_message c))
                || negb (truthy (language (slot_user sl)))) eqn:Ev.
      * destruct (serve tid c rest h) as [[h2 o2] r2] eqn:Es.
        injection H as <- <- <-. destruct Hin as [<-|Hin].
        -- right; left. exists sl. split; [now left|]. split; [easy|].
           right. split; [easy|]. unfold truthy in Ev.
           rewrite !negb_involutive in Ev.
           apply orb_true_iff in Ev as [Ev|Ev]; apply String.eqb_eq in Ev;
             [now left|now right].
        -- destruct (IH _ _ _ _ Es e Hin)
             as [(s & Hs & ? & ?)|[(s & Hs & ? & Hc)|(s & Hs & ? & ? & ?)]].
           ++ left. exists s. now repeat split; [right|..].
           ++ right; left. exists s. split; [now right|]. now split.
           ++ right; right. exists s. now repeat split; [right|..].
      * injection H as <- <- <-. destruct Hin as [<-|[]].
        right; right. exists sl. now repeat split; [left|..].
Qed.

Lemma outcomes_sent_message id m (o : list (Out KbDoc)) :
  outcomes (Sent (To id) (MessageP m) :: o) = (id, Some m) :: outcomes o.
Proof. reflexivity. Qed.

Lemma outcomes_failedFor sl (o : list (Out KbDoc)) :
  outcomes (failedFor sl :: o) = (slot_id sl, None) :: outcomes o.
Proof. reflexivity. Qed.

(** The loop serves the entries in order up to the one it waits for, and
    asks for one translation. *)
Lemma serve_split tid c slots : forall h h' o r,
  serve tid c slots h = (h', o, r) ->
  exists done,
    Forall2 (visited c) done (outcomes o)
    /\ match r with
       | None =>
           slots = done /\ translateRequests o = translationsDue c done
       | Some sl =>
           (language (slot_user sl) =? call_lang c) = false
           /\ exists post,
                slots = done ++ sl :: post
                /\ translateRequests o = translationsDue c (done ++ [sl])
       end.
Proof.
  induction slots as [|sl rest IH]; simpl; intros h h' o r H.
  - injection H as <- <- <-. exists []. split; [constructor|now split].
  - destruct (language (slot_user sl) =? call_lang c) eqn:El.
    + assert (Hv : forall e1 : Out KbDoc,
                 e1 = Sent (To (slot_id sl))
                        (MessageP (recordFor c (call_message c) false))
                 \/ e1 = failedFor sl ->
                 forall o2, exists oc,
                   outcomes (e1 :: o2) = oc :: outcomes o2 /\ visited c sl oc
                   /\ translateRequests (e1 :: o2) = translateRequests o2).
      { intros e1 [->| ->] o2.
        - exists (slot_id sl, Some (recordFor c (call_message c) false)).
          split; [reflexivity|]. split; [|reflexivity]. split; [reflexivity|].
          right. exists (call_message c). rewrite El. now split.
        - exists (slot_id sl, None). split; [reflexivity|].
          split; [|reflexivity]. split; [reflexivity|now left]. }
      assert (Hd : forall l, translationsDue c (sl :: l) = translationsDue c l).
      { intros l. unfold translationsDue. simpl. now rewrite El. }
      destruct (pushAndSend c sl _ h) as [h1 o1] eqn:Ep.
      assert (Ho1 : o1 = Sent (To (slot_id sl))
                           (MessageP (recordFor c (call_message c) false))
                    \/ o1 = failedFor sl).
      { destruct (pushAndSend_cases c sl
                    (recordFor c (call_message c) false) h)
          as [(log & _ & E)|(_ & E)]; rewrite E in Ep;
          injection Ep as <- <-; [now left|now right]. }
      destruct (serve tid c rest h1) as [[h2 o2] r2] eqn:Es.
      injection H as <- <- <-.
      destruct (IH _ _ _ _ Es) as (done & Hf & Hr).
      destruct (Hv o1 Ho1 o2) as (oc & -> & Hoc & ->).
      exists (sl :: done). split; [now constructor|].
      destruct r2 as [sl2|].
      * destruct Hr as (Hl & post & -> & ->). split; [easy|].
        exists post. split; [reflexivity|]. simpl. now rewrite Hd.
      * destruct Hr as [-> ->]. now rewrite Hd.
    + destruct (negb (truthy (call_message c))
                || negb (truthy (language (slot_user sl)))) eqn:Ev.
      * assert (Hd : forall l,
                   translationsDue c (sl :: l) = translationsDue c l).
        { intros l. unfold translationsDue. simpl. rewrite El. simpl.
          apply orb_true_iff in Ev as [Ev|Ev];
            apply negb_true_iff in Ev; rewrite Ev; simpl;
            [reflexivity|now rewrite andb_false_r]. }
        destruct (serve tid c rest h) as [[h2 o2] r2] eqn:Es.
        injection H as <- <- <-.
        destruct (IH _ _ _ _ Es) as (done & Hf & Hr).
        exists (sl :: done). rewrite outcomes_failedFor. split.
        -- constructor; [|exact Hf]. split; [reflexivity|now left].
        -- destruct r2 as [sl2|].
           ++ destruct Hr as (Hl & post & -> & Hq). split; [easy|].
              exists post. split; [reflexivity|]. simpl. now rewrite Hd.
           ++ destruct Hr as [-> Hq]. now rewrite Hd.
      * injection H as <- <- <-. exists []. split; [constructor|].
        split; [easy|]. exists rest. split; [reflexivity|].
        unfold translationsDue. simpl. rewrite El.
        apply orb_false_iff in Ev as [Ev1 Ev2].
        apply negb_false_iff in Ev1, Ev2. now rewrite Ev1, Ev2.
Qed.

(** The requests of the loop are its own, and the last is the one it
    waits for. *)
Lemma serve_lastRequest tid c slots : forall h h' o r t,
  serve tid c slots h = (h', o, r) ->
  lastRequest t o
  = match r with
    | Some sl =>
        if (tid =? t)%nat
        then Some (TranslateCall (call_message c) (language (slot_user sl)))
        else None
    | None => None
    end.
Proof.
  induction slots as [|sl rest IH]; simpl; intros h h' o r t H.
  - now injection H as <- <- <-.
  - destruct (language (slot_user sl) =? call_lang c).
    + destruct (pushAndSend_cases c sl (recordFor c (call_message c) false) h)
        as [(log & _ & E)|(_ & E)]; rewrite E in H;
        destruct (serve tid c rest _) as [[h2 o2] r2] eqn:Es;
        injection H as <- <- <-; simpl; rewrite (IH _ _ _ _ t Es);
        now destruct r2; [destruct (tid =? t)%nat|].
    + destruct (_ || _).
      * destruct (serve tid c rest h) as [[h2 o2] r2] eqn:Es.
        injection H as <- <- <-. simpl. rewrite (IH _ _ _ _ t Es).
        now destruct r2; [destruct (tid =? t)%nat|].
      * now injection H as <- <- <-.
Qed.

Lemma serve_awaits tid c slots : forall h h' o r sl,
  serve tid c slots h = (h', o, r) -> r = Some sl ->
  (language (slot_user sl) =? call_lang c) = false /\ In sl slots.
Proof.
  intros h h' o r sl H ->. destruct (serve_split _ _ _ _ _ _ _ H)
    as (done & _ & Hl & post & -> & _).
  split; [exact Hl|]. apply in_app_iff. right. now left.
Qed.

(** What the loop puts out and whom it waits for do not depend on what the
    logs hold, only on whether the room has one. *)
Lemma serve_same tid c slots : forall h1 h2,
  (JsMap.get (call_room c) h1 = None <-> JsMap.get (call_room c) h2 = None) ->
  snd (fst (serve (KbDoc:=KbDoc) tid c slots h1))
  = snd (fst (serve (KbDoc:=KbDoc) tid c slots h2))
  /\ snd (serve (KbDoc:=KbDoc) tid c slots h1)
     = snd (serve (KbDoc:=KbDoc) tid c slots h2).
Proof.
  induction slots as [|sl rest IH]; simpl; intros h1 h2 Hn; [easy|].
  destruct (language (slot_user sl) =? call_lang c).
  - destruct (pushAndSend_cases c sl (recordFor c (call_message c) false) h1)
      as [(log1 & Hg1 & E1)|(Hg1 & E1)];
      destruct (pushAndSend_cases c sl (recordFor c (call_message c) false) h2)
        as [(log2 & Hg2 & E2)|(Hg2 & E2)]; rewrite E1, E2.
    + destruct (IH (JsMap.set (call_room c)
                      (log1 ++ [recordFor c (call_message c) false]) h1)
                   (JsMap.set (call_room c)
                      (log2 ++ [recordFor c (call_message c) false]) h2))
        as [Ia Ib].
      { rewrite !JsMapFacts.get_set_eq. split; discriminate. }
      destruct (serve tid c rest (JsMap.set _ _ h1)) as [[? ?] ?].
      destruct (serve tid c rest (JsMap.set _ _ h2)) as [[? ?] ?].
      simpl in *. now subst.
    + apply Hn in Hg2. congruence.
    + apply Hn in Hg1. congruence.
    + destruct (IH h1 h2 Hn) as [Ia Ib].
      destruct (serve tid c rest h1) as [[? ?] ?].
      destruct (serve tid c rest h2) as [[? ?] ?].
      simpl in *. now subst.
  - destruct (_ || _); [|easy].
    destruct (IH h1 h2 Hn) as [Ia Ib].
    destruct (serve tid c rest h1) as [[? ?] ?].
    destruct (serve tid c rest h2) as [[? ?] ?].
    simpl in *. now subst.
Qed.

End Loop.

Section Steps.
Context {KbDoc : Type}.
Implicit Types (st s : State KbDoc) (i : Input KbDoc) (o : list (Out KbDoc)).
Implicit Types (c : Call) (sl : Slot) (h : list (string * list Msg)).
Implicit Types (tasks : list (nat * (Call * Phase KbDoc))).

Ltac quiet_case :=
  split; [reflexivity|]; split; [reflexivity|]; split; [simpl; lia|].

Ltac loop_case tac1 tac2 :=
  split; [reflexivity|]; split; [reflexivity|]; split; [reflexivity|];
  split; [simpl; lia|]; split; [tac1|];
  split; [tac2|simpl; now destruct (loopFrom _ _ _ _)].

(** The loop, spelled out. *)
Lemma loopFrom_spec tid c from s :
  exists h' o r,
    serve tid c
      (filter (fun x => (from <=? slot_stamp x)%nat) (liveSlots s c))
      (st_history s) = (h', o, r)
    /\ loopFrom tid c from s
       = (mkState (st_rooms s) h' (st_maps s)
            (match r with
             | Some sl => taskPut tid (c, AwaitTranslation sl) (st_tasks s)
             | None => taskDrop tid (st_tasks s)
             end)
            (st_next s),
          o).
Proof.
  unfold loopFrom.
  destruct (serve tid c _ (st_history s)) as [[h' o] r].
  now exists h', o, r.
Qed.

Lemma liveSlots_rooms s s' c :
  st_rooms s = st_rooms s' -> liveSlots s c = liveSlots s' c.
Proof. unfold liveSlots. now intros ->. Qed.

(** The shape of a step that runs a handler: it only makes the request of
    the analysis, or it is the loop from its start, after the suggestions
    or their failure, or the loop resumed after the answer it waited
    for. *)
Lemma step_of_call st i c :
  callOf st i = Some c ->
  exists tid,
    actor st i = Some tid
    /\ ((st_rooms (fst (step st i)) = st_rooms st
         /\ st_history (fst (step st i)) = st_history st
         /\ st_next st <= st_next (fst (step st i))
         /\ ((answered i = Some tid /\ fst (step st i) = st
              /\ snd (step st i) = [])
             \/ exists ph rq,
                  snd (step st i) = [Request tid rq]
                  /\ st_tasks (fst (step st i))
                     = taskPut tid (c, ph) (st_tasks st)
                  /\ (ph = AwaitKb \/ exists d, ph = AwaitModel d)
                  /\ (rq = GetDocsCall
                      \/ exists text data, rq = GenerateCall text data)
                  /\ (answered i = Some tid ->
                      forall sl,
                        taskGet tid (st_tasks st)
                        <> Some (c, AwaitTranslation sl))))
        \/ (exists s pre,
              st_rooms s = st_rooms st /\ st_history s = st_history st
              /\ st_tasks s = st_tasks st /\ st_next st <= st_next s
              /\ (answered i = Some tid ->
                  forall sl,
                    taskGet tid (st_tasks st)
                    <> Some (c, AwaitTranslation sl))
              /\ (forall e, In e pre ->
                    e = suggestionFailed c
                    \/ exists id l, e = Sent (To id) (SuggestionsP l))
              /\ step st i
                 = (fst (loopFrom tid c 0 s), pre ++ snd (loopFrom tid c 0 s)))
        \/ (exists sl answer s e1,
              i = TranslateAnswer tid answer
              /\ taskGet tid (st_tasks st) = Some (c, AwaitTranslation sl)
              /\ st_rooms s = st_rooms st /\ st_tasks s = st_tasks st
              /\ st_next s = st_next st
              /\ (st_history s, e1)
                 = match answer with
                   | Some text =>
                       pushAndSend c sl (recordFor c text true) (st_history st)
                   | None => (st_history st, failedFor sl)
                   end
              /\ step st i
                 = (fst (loopFrom tid c (S (slot_stamp sl)) s),
                    e1 :: snd (loopFrom tid c (S (slot_stamp sl)) s)))).
Proof.
  assert (Hfail : forall e : Out KbDoc,
             In e [suggestionFailed c] ->
             e = suggestionFailed c
             \/ exists id l, e = Sent (To id) (SuggestionsP l)).
  { intros e [<-|[]]. now left. }
  destruct i as [id room uname lang rl ts|id room message lang ts|id
                |t answer|t answer|t answer]; simpl; try discriminate.
  - unfold chat.
    destruct (negb (truthy room) || negb (truthy message)
              || negb (truthy lang)); [discriminate|].
    destruct (JsMap.get room (st_rooms st)) as [m|]; [|discriminate].
    destruct (mapGet id m) as [sender|]; [|discriminate].
    intros [= <-]. exists (st_next st). split; [reflexivity|].
    destruct (role sender =? "user").
    + left. simpl. quiet_case. right.
      exists AwaitKb, GetDocsCall.
      split; [reflexivity|]. split; [reflexivity|]. split; [now left|].
      split; [now left|discriminate].
    + right; left.
      exists (mkState (st_rooms st) (st_history st) (st_maps st)
                (st_tasks st) (S (st_next st))), [].
      loop_case ltac:(discriminate) ltac:(intros e []).
  - destruct (taskGet t (st_tasks st)) as [[c' ph]|] eqn:Et; [|discriminate].
    intros [= ->]. exists t. split; [reflexivity|].
    destruct ph as [|d|sl]; simpl.
    + destruct answer as [[|d data]|].
      * right; left. exists st, [suggestionFailed c].
        loop_case ltac:(intros _ sl; rewrite Et; discriminate)
                  ltac:(exact Hfail).
      * left. simpl. quiet_case. right.
        exists (AwaitModel (d :: data)),
               (GenerateCall (call_message c) (d :: data)).
        split; [reflexivity|]. split; [reflexivity|].
        split; [right; now eexists|].
        split; [right; now do 2 eexists|].
        intros _ sl. rewrite Et. discriminate.
      * right; left. exists st, [suggestionFailed c].
        loop_case ltac:(intros _ sl; rewrite Et; discriminate)
                  ltac:(exact Hfail).
    + left. quiet_case. now left.
    + left. quiet_case. now left.
  - destruct (taskGet t (st_tasks st)) as [[c' ph]|] eqn:Et; [|discriminate].
    intros [= ->]. exists t. split; [reflexivity|].
    destruct ph as [|d|sl]; simpl.
    + left. quiet_case. now left.
    + destruct answer as [body|].
      * right; left. exists st, (suggestionsFor st c (nonBlankLines body)).
        loop_case ltac:(intros _ sl; rewrite Et; discriminate)
                  ltac:(intros e He; right; unfold suggestionsFor in He;
                        apply in_map_iff in He as (x & <- & _);
                        now do 2 eexists).
      * right; left. exists st, [suggestionFailed c].
        loop_case ltac:(intros _ sl; rewrite Et; discriminate)
                  ltac:(exact Hfail).
    + left. quiet_case. now left.
  - destruct (taskGet t (st_tasks st)) as [[c' ph]|] eqn:Et; [|discriminate].
    intros [= ->]. exists t. split; [reflexivity|].
    destruct ph as [|d|sl]; simpl.
    + left. quiet_case. now left.
    + left. quiet_case. now left.
    + right; right.
      destruct (match answer with
                | Some text =>
                    pushAndSend c sl (recordFor c text true) (st_history st)
                | None => (st_history st, failedFor sl)
                end) as [h1 e1] eqn:Ea.
      exists sl, answer,
        (mkState (st_rooms st) h1 (st_maps st) (st_tasks st) (st_next st)),
        e1.
      simpl. split; [reflexivity|]. split; [exact Et|].
      split; [reflexivity|]. split; [reflexivity|]. split; [reflexivity|].
      split; [now symmetry|]. now destruct (loopFrom _ _ _ _).
Qed.

(** A step that runs no handler: a join, a disconnect, a chat message that
    is rejected, an answer that nobody waits for. *)
Lemma step_without_call st i :
  callOf st i = None ->
  st_tasks (fst (step st i)) = st_tasks st
  /\ st_next (fst (step st i)) = st_next st
  /\ forall e, In e (snd (step st i)) ->
       (exists id msg,
           e = Sent (Socket id) (ErrorP msg)
           /\ msg <> "Message delivery failed")
       \/ (exists id room, e = Joined id room)
       \/ (exists id l, e = Sent (Socket id) (MessageHistoryP l))
       \/ (exists room uname ts,
             e = Sent (To room) (MessageP (joinMessage uname ts))).
Proof.
  destruct i as [id room uname lang rl ts|id room message lang ts|id
                |t answer|t answer|t answer]; simpl.
  - intros _. unfold join.
    destruct (negb (truthy room) || negb (truthy uname)
              || negb (truthy lang) || negb (truthy rl)).
    + simpl. repeat split. intros e [<-|[]]. left. do 2 eexists. now split.
    + destruct (if JsMap.has room (st_rooms st) then _ else _)
        as [rooms1 maps1].
      simpl. repeat split. intros e [<-|He].
      * right; left. do 2 eexists. now split.
      * apply in_app_iff in He as [He|[<-|[]]].
        -- destruct (JsMap.get room (st_history st)); [|easy].
           destruct He as [<-|[]]. right; right; left. do 2 eexists. now split.
        -- right; right; right. now do 3 eexists.
  - unfold chat.
    destruct (negb (truthy room) || negb (truthy message)
              || negb (truthy lang)).
    { intros _. simpl. repeat split. intros e [<-|[]]. left.
      do 2 eexists. now split. }
    destruct (JsMap.get room (st_rooms st)) as [m|].
    2:{ intros _. simpl. repeat split. intros e [<-|[]]. left.
        do 2 eexists. now split. }
    destruct (mapGet id m) as [sender|]; [discriminate|].
    intros _. simpl. repeat split. intros e [<-|[]]. left.
    do 2 eexists. now split.
  - intros _. unfold disconnect.
    destruct (find _ (st_rooms st)) as [[room m]|]; [|now repeat split].
    now destruct (_ =? 0)%nat.
  - destruct (taskGet t (st_tasks st)) as [[c ph]|]; [discriminate|].
    now repeat split.
  - destruct (taskGet t (st_tasks st)) as [[c ph]|]; [discriminate|].
    now repeat split.
  - destruct (taskGet t (st_tasks st)) as [[c ph]|]; [discriminate|].
    now repeat split.
Qed.

Lemma loopFrom_task_other tid tid' c from s :
  tid' <> tid ->
  taskGet tid' (st_tasks (fst (loopFrom tid c from s)))
  = taskGet tid' (st_tasks s).
Proof.
  intros Hne. destruct (loopFrom_spec tid c from s) as (h' & o & r & _ & ->).
  simpl. destruct r;
    [now apply taskGet_put_neq|now apply taskGet_drop_neq].
Qed.

Lemma loopFrom_next tid c from s :
  st_next (fst (loopFrom tid c from s)) = st_next s.
Proof.
  now destruct (loopFrom_spec tid c from s) as (h' & o & r & _ & ->).
Qed.

Lemma loopFrom_rooms tid c from s :
  st_rooms (fst (loopFrom tid c from s)) = st_rooms s.
Proof.
  now destruct (loopFrom_spec tid c from s) as (h' & o & r & _ & ->).
Qed.

Lemma loopFrom_lastRequest_other tid tid' c from s :
  tid' <> tid -> lastRequest tid' (snd (loopFrom tid c from s)) = None.
Proof.
  intros Hne. destruct (loopFrom_spec tid c from s) as (h' & o & r & Hs & ->).
  simpl. rewrite (serve_lastRequest _ _ _ _ _ _ _ tid' Hs).
  destruct r; [|reflexivity].
  destruct (Nat.eqb_spec tid tid'); [congruence|reflexivity].
Qed.

Lemma lastRequest_none tid o :
  (forall e, In e o -> requestOf tid e = None) -> lastRequest tid o = None.
Proof.
  induction o as [|e o IH]; simpl; intros H; [reflexivity|].
  rewrite IH by (intros x Hx; apply H; now right). apply H. now left.
Qed.

Lemma lastRequest_pre c tid (pre : list (Out KbDoc)) :
  (forall e, In e pre ->
     e = suggestionFailed c
     \/ exists id l, e = Sent (To id) (SuggestionsP l)) ->
  lastRequest tid pre = None.
Proof.
  intros H. apply lastRequest_none. intros e He.
  now destruct (H e He) as [->|(id & l & ->)].
Qed.

(** A step leaves the other handlers as they are and asks for nothing on
    their behalf. *)
Lemma step_frame st i tid :
  actor st i <> Some tid ->
  taskGet tid (st_tasks (fst (step st i))) = taskGet tid (st_tasks st)
  /\ lastRequest tid (snd (step st i)) = None.
Proof.
  intros Ha. destruct (callOf st i) as [c|] eqn:Ec.
  - destruct (step_of_call st i c Ec) as (t & Ht & Hs).
    assert (Hne : tid <> t) by congruence.
    destruct Hs as [(_ & _ & _ & [(_ & -> & ->)|(ph & rq & -> & -> & _)])
                   |[(s & pre & _ & _ & Hk & _ & _ & Hp & ->)
                    |(sl & ans & s & e1 & _ & _ & _ & Hk & _ & He & ->)]];
      simpl.
    + now split.
    + split; [now apply taskGet_put_neq|].
      destruct (Nat.eqb_spec t tid); [congruence|reflexivity].
    + rewrite loopFrom_task_other, Hk by easy. split; [reflexivity|].
      rewrite lastRequest_app, loopFrom_lastRequest_other by easy.
      now apply (lastRequest_pre c).
    + rewrite loopFrom_task_other, Hk by easy. split; [reflexivity|].
      rewrite loopFrom_lastRequest_other by easy.
      destruct ans as [text|].
      * destruct (pushAndSend_cases (KbDoc:=KbDoc) c sl (recordFor c text true)
                    (st_history st)) as [(log & _ & E)|(_ & E)];
          rewrite E in He; now injection He as _ ->.
      * now injection He as _ ->.
  - destruct (step_without_call st i Ec) as (-> & _ & Hk).
    split; [reflexivity|]. apply lastRequest_none. intros e He.
    now destruct (Hk e He)
      as [(? & ? & -> & _)|[(? & ? & ->)|[(? & ? & ->)|(? & ? & ? & ->)]]].
Qed.

Lemma step_next st i : st_next st <= st_next (fst (step st i)).
Proof.
  destruct (callOf st i) as [c|] eqn:Ec.
  - destruct (step_of_call st i c Ec) as (t & Ht & Hs).
    destruct Hs as [(_ & _ & H & _)
                   |[(s & pre & _ & _ & _ & Hn & _ & _ & ->)
                    |(sl & ans & s & e1 & _ & _ & _ & _ & Hn & _ & ->)]];
      simpl; [exact H| |]; rewrite loopFrom_next; lia.
  - destruct (step_without_call st i Ec) as (_ & -> & _). lia.
Qed.

(** Joins and disconnects apart, a step leaves the registry as it is. *)
Lemma step_rooms st i c :
  callOf st i = Some c -> st_rooms (fst (step st i)) = st_rooms st.
Proof.
  intros Ec. destruct (step_of_call st i c Ec) as (t & Ht & Hs).
  destruct Hs as [(H & _)
                 |[(s & pre & Hr & _ & _ & _ & _ & _ & ->)
                  |(sl & ans & s & e1 & _ & _ & Hr & _ & _ & _ & ->)]];
    simpl; [exact H| |]; now rewrite loopFrom_rooms.
Qed.

End Steps.

Section Kinds.
Context {KbDoc : Type}.
Implicit Types (st s : State KbDoc) (i : Input KbDoc) (o : list (Out KbDoc)).
Implicit Types (c : Call) (sl : Slot) (h : list (string * list Msg)).

Lemma suggestions_silent c (pre : list (Out KbDoc)) :
  (forall e, In e pre ->
     e = suggestionFailed c
     \/ exists id l, e = Sent (To id) (SuggestionsP l)) ->
  sentMessages pre = [] /\ outcomes pre = [] /\ translateRequests pre = [].
Proof.
  induction pre as [|e pre IH]; intros H; [easy|].
  destruct IH as (E1 & E2 & E3); [intros x Hx; apply H; now right|].
  change (e :: pre) with ([e] ++ pre).
  rewrite sentMessages_app, outcomes_app, translateRequests_app, E1, E2, E3.
  now destruct (H e) as [->|(id & l & ->)]; [left|..].
Qed.

(** What the loop puts out, in terms of the state it runs in. *)
Lemma loopFrom_kinds tid c from s e :
  In e (snd (loopFrom tid c from s)) ->
  (exists sl,
      In sl (liveSlots s c) /\ from <= slot_stamp sl
      /\ language (slot_user sl) = call_lang c
      /\ e = Sent (To (slot_id sl))
               (MessageP (recordFor c (call_message c) false)))
  \/ (exists sl,
        In sl (liveSlots s c) /\ from <= slot_stamp sl
        /\ e = failedFor sl
        /\ ((language (slot_user sl) = call_lang c
             /\ JsMap.get (call_room c) (st_history s) = None)
            \/ (language (slot_user sl) <> call_lang c
                /\ (call_message c = "" \/ language (slot_user sl) = ""))))
  \/ (exists sl,
        In sl (liveSlots s c) /\ from <= slot_stamp sl
        /\ language (slot_user sl) <> call_lang c
        /\ e = Request tid
                 (TranslateCall (call_message c) (language (slot_user sl)))).
Proof.
  destruct (loopFrom_spec tid c from s) as (h' & o & r & Hs & ->). simpl.
  intros Hin.
  assert (Hf : forall x,
             In x (filter (fun x => (from <=? slot_stamp x)%nat)
                          (liveSlots s c)) ->
             In x (liveSlots s c) /\ from <= slot_stamp x).
  { intros x Hx. apply filter_In in Hx as [Hx Hl]. split; [easy|].
    now apply Nat.leb_le. }
  destruct (serve_kinds _ _ _ _ _ _ _ Hs e Hin)
    as [(x & Hx & Hl & ->)|[(x & Hx & -> & Hc)|(x & Hx & _ & Hl & ->)]];
    destruct (Hf x Hx) as [Hx1 Hx2].
  - left. now exists x.
  - right; left. now exists x.
  - right; right. now exists x.
Qed.

(** Everything a step that runs a handler puts out. *)
Lemma step_kinds st i c :
  callOf st i = Some c ->
  forall e, In e (snd (step st i)) ->
    e = suggestionFailed c
    \/ (exists id l, e = Sent (To id) (SuggestionsP l))
    \/ (exists t rq, e = Request t rq)
    \/ (exists sl,
          In sl (liveSlots st c) /\ language (slot_user sl) = call_lang c
          /\ e = Sent (To (slot_id sl))
                   (MessageP (recordFor c (call_message c) false)))
    \/ (exists sl,
          In sl (liveSlots st c) /\ e = failedFor sl
          /\ ((language (slot_user sl) = call_lang c
               /\ JsMap.get (call_room c) (st_history st) = None)
              \/ (language (slot_user sl) <> call_lang c
                  /\ (call_message c = ""
                      \/ language (slot_user sl) = ""))))
    \/ (exists tid sl answer,
          i = TranslateAnswer tid answer
          /\ taskGet tid (st_tasks st) = Some (c, AwaitTranslation sl)
          /\ ((exists text,
                  answer = Some text
                  /\ JsMap.get (call_room c) (st_history st) <> None
                  /\ e = Sent (To (slot_id sl))
                           (MessageP (recordFor c text true)))
              \/ ((answer = None
                   \/ JsMap.get (call_room c) (st_history st) = None)
                  /\ e = failedFor sl))).
Proof.
  intros Ec e Hin. destruct (step_of_call st i c Ec) as (t & Ht & Hs).
  assert (Hloop : forall from s,
             st_rooms s = st_rooms st ->
             (JsMap.get (call_room c) (st_history s) = None ->
              JsMap.get (call_room c) (st_history st) = None) ->
             In e (snd (loopFrom t c from s)) ->
             (exists t rq, e = Request t rq)
             \/ (exists sl,
                   In sl (liveSlots st c)
                   /\ language (slot_user sl) = call_lang c
                   /\ e = Sent (To (slot_id sl))
                            (MessageP (recordFor c (call_message c) false)))
             \/ (exists sl,
                   In sl (liveSlots st c) /\ e = failedFor sl
                   /\ ((language (slot_user sl) = call_lang c
                        /\ JsMap.get (call_room c) (st_history st) = None)
                       \/ (language (slot_user sl) <> call_lang c
                           /\ (call_message c = ""
                               \/ language (slot_user sl) = ""))))).
  { intros from s Hr Hh Hl. rewrite <- (liveSlots_rooms s st c Hr).
    destruct (loopFrom_kinds _ _ _ _ _ Hl)
      as [(x & Hx & _ & ? & ->)|[(x & Hx & _ & -> & Hc)|(x & _ & _ & _ & ->)]].
    - right; left. now exists x.
    - right; right. exists x. split; [easy|]. split; [easy|].
      destruct Hc as [[? Hn]|Hc]; [left|now right]. split; [easy|].
      now apply Hh.
    - left. now do 2 eexists. }
  destruct Hs as [(_ & _ & _ & [(_ & _ & Eo)|(ph & rq & Eo & _)])
                 |[(s & pre & Hr & Hh & _ & _ & _ & Hp & Es)
                  |(sl & ans & s & e1 & Ei & Et & Hr & _ & _ & He & Es)]].
  - rewrite Eo in Hin. contradiction.
  - rewrite Eo in Hin. destruct Hin as [<-|[]]. right; right; left.
    now do 2 eexists.
  - rewrite Es in Hin. simpl in Hin. apply in_app_iff in Hin as [Hin|Hin].
    + destruct (Hp e Hin) as [->|H]; [now left|right; now left].
    + destruct (Hloop 0 s Hr) as [H|[H|H]]; [now rewrite Hh|exact Hin|..];
        tauto.
  - rewrite Es in Hin. simpl in Hin. destruct Hin as [<-|Hin].
    + do 5 right. exists t, sl, ans. split; [easy|]. split; [easy|].
      destruct ans as [text|].
      * destruct (pushAndSend_cases (KbDoc:=KbDoc) c sl
                    (recordFor c text true) (st_history st))
          as [(log & Hg & E)|(Hg & E)]; rewrite E in He;
          injection He as _ ->.
        -- left. exists text. split; [easy|]. split; [congruence|easy].
        -- right. split; [now right|easy].
      * injection He as _ ->. right. split; [now left|easy].
    + assert (Hh : JsMap.get (call_room c) (st_history s) = None ->
                   JsMap.get (call_room c) (st_history st) = None).
      { destruct ans as [text|].
        - destruct (pushAndSend_cases (KbDoc:=KbDoc) c sl
                      (recordFor c text true) (st_history st))
            as [(log & Hg & E)|(Hg & E)]; rewrite E in He;
            injection He as -> _; [|easy].
          rewrite JsMapFacts.get_set_eq. discriminate.
        - now injection He as -> _. }
      destruct (Hloop (S (slot_stamp sl)) s Hr Hh Hin) as [H|[H|H]]; tauto.
Qed.

Lemma sent_successes o :
  (forall tgt m, In (Sent tgt (MessageP m)) o -> exists id, tgt = To id) ->
  sentMessages o = successes (outcomes o).
Proof.
  induction o as [|e o IH]; intros H; [reflexivity|].
  change (e :: o) with ([e] ++ o).
  rewrite sentMessages_app, outcomes_app, successes_app, IH
    by (intros tgt m Hin; apply (H tgt m); now right).
  f_equal. destruct e as [tgt p|id room|t rq]; try reflexivity.
  destruct p as [msg|l|m|l]; destruct tgt as [id|id]; try reflexivity.
  - simpl. now destruct (msg =? "Message delivery failed").
  - destruct (H (Socket id) m) as [x Hx]; [now left|discriminate].
Qed.

(** The messages a handler sends are those of its deliveries that
    succeeded. *)
Lemma step_successes st i c :
  callOf st i = Some c ->
  sentMessages (snd (step st i)) = successes (outcomes (snd (step st i))).
Proof.
  intros Ec. apply sent_successes. intros tgt m Hin.
  destruct (step_kinds st i c Ec _ Hin)
    as [E|[(? & ? & E)|[(? & ? & E)|[(x & _ & _ & E)|[(x & _ & E & _)
       |(? & x & ? & _ & _ & [(? & _ & _ & E)|[_ E]])]]]]];
    try discriminate; injection E as -> _; now eexists.
Qed.

(** A step that runs a handler appends the messages it sends to the log of
    the handler's room, and touches no other log. *)
Lemma step_appended st i c :
  callOf st i = Some c ->
  appended (call_room c) (st_history st) (st_history (fst (step st i)))
           (snd (step st i))
  /\ forall room, room <> call_room c ->
       JsMap.get room (st_history (fst (step st i)))
       = JsMap.get room (st_history st).
Proof.
  intros Ec. destruct (step_of_call st i c Ec) as (t & Ht & Hs).
  assert (Hloop : forall from s,
             appended (call_room c) (st_history s)
               (st_history (fst (loopFrom t c from s)))
               (snd (loopFrom t c from s))
             /\ forall room, room <> call_room c ->
                  JsMap.get room (st_history (fst (loopFrom t c from s)))
                  = JsMap.get room (st_history s)).
  { intros from s.
    destruct (loopFrom_spec t c from s) as (h' & o & r & Hsv & ->). simpl.
    exact (serve_appended _ _ _ _ _ _ _ Hsv). }
  destruct Hs as [(_ & Hh & _ & [(_ & _ & Eo)|(ph & rq & Eo & _)])
                 |[(s & pre & Hr & Hh & _ & _ & _ & Hp & Es)
                  |(sl & ans & s & e1 & Ei & Et & Hr & _ & _ & He & Es)]].
  - rewrite Hh, Eo. split; [apply appended_refl|easy].
  - rewrite Hh, Eo. split; [now apply appended_silent|easy].
  - rewrite Es. simpl. destruct (Hloop 0 s) as [Ha Hb]. rewrite Hh in Ha, Hb.
    split; [|exact Hb].
    apply (appended_trans _ _ (st_history st)); [|exact Ha].
    apply appended_silent. now apply (suggestions_silent c).
  - rewrite Es. simpl. destruct (Hloop (S (slot_stamp sl)) s) as [Ha Hb].
    assert (Hpush : appended (call_room c) (st_history st) (st_history s) [e1]
                    /\ forall room, room <> call_room c ->
                         JsMap.get room (st_history s)
                         = JsMap.get room (st_history st)).
    { destruct ans as [text|].
      - pose proof (pushAndSend_appended (KbDoc:=KbDoc) c sl
                      (recordFor c text true) (st_history st)) as Hps.
        rewrite <- He in Hps. exact Hps.
      - injection He as -> ->. split; [now apply appended_silent|easy]. }
    destruct Hpush as [Hp1 Hp2]. split.
    + exact (appended_trans _ _ _ _ [e1] _ Hp1 Ha).
    + intros room Hne. now rewrite Hb, Hp2.
Qed.

End Kinds.

Section Runs.
Context {KbDoc : Type}.
Implicit Types (st : State KbDoc) (i : Input KbDoc) (o : list (Out KbDoc)).
Implicit Types (c : Call) (sl : Slot) (h : list (string * list Msg)).

(** *** The request that a waiting handler has made *)

Lemma step_without_call_requests st i tid :
  callOf st i = None -> lastRequest tid (snd (step st i)) = None.
Proof.
  intros Ec. destruct (step_without_call st i Ec) as (_ & _ & Hk).
  apply lastRequest_none. intros e He.
  now destruct (Hk e He)
    as [(? & ? & -> & _)|[(? & ? & ->)|[(? & ? & ->)|(? & ? & ? & ->)]]].
Qed.

Lemma asked_step st i o :
  asked st o -> asked (fst (step st i)) (o ++ snd (step st i)).
Proof.
  intros H tid c sl Ht. rewrite lastRequest_app.
  destruct (callOf st i) as [c0|] eqn:Ec.
  - destruct (step_of_call st i c0 Ec) as (t & Hact & Hs).
    destruct (Nat.eq_dec tid t) as [->|Hne].
    + destruct Hs as [(_ & _ & _ & [(_ & Es & Eo)|(ph & rq & Eo & Et & Hph & _)])
                     |[(s & pre & _ & _ & Hk & _ & _ & Hp & Es)
                      |(x & ans & s & e1 & _ & _ & _ & Hk & _ & He & Es)]].
      * rewrite Es in Ht. rewrite Eo. simpl. now apply H.
      * rewrite Et, taskGet_put_eq in Ht. injection Ht as -> ->.
        destruct Hph as [?|[? ?]]; discriminate.
      * rewrite Es in Ht |- *. simpl in Ht |- *. rewrite lastRequest_app.
        destruct (loopFrom_spec t c0 0 s) as (h' & o' & r & Hsv & E).
        rewrite E in Ht |- *. simpl in Ht |- *.
        rewrite (serve_lastRequest _ _ _ _ _ _ _ t Hsv), Nat.eqb_refl.
        destruct r as [y|].
        -- rewrite taskGet_put_eq in Ht. injection Ht as -> ->.
           split; [|reflexivity].
           now destruct (serve_awaits _ _ _ _ _ _ _ _ Hsv eq_refl).
        -- now rewrite taskGet_drop_eq in Ht.
      * rewrite Es in Ht |- *. simpl in Ht |- *.
        destruct (loopFrom_spec t c0 (S (slot_stamp x)) s)
          as (h' & o' & r & Hsv & E).
        rewrite E in Ht |- *. simpl in Ht |- *.
        rewrite (serve_lastRequest _ _ _ _ _ _ _ t Hsv), Nat.eqb_refl.
        destruct r as [y|].
        -- rewrite taskGet_put_eq in Ht. injection Ht as -> ->.
           split; [|reflexivity].
           now destruct (serve_awaits _ _ _ _ _ _ _ _ Hsv eq_refl).
        -- now rewrite taskGet_drop_eq in Ht.
    + destruct (step_frame st i tid) as [Et Er]; [congruence|].
      rewrite Er. apply H. now rewrite <- Et.
  - rewrite step_without_call_requests by exact Ec.
    destruct (step_without_call st i Ec) as (Et & _). rewrite Et in Ht.
    now apply H.
Qed.

Lemma asked_run (ins : list (Input KbDoc)) : forall st o,
  asked st o -> asked (after ins st) (o ++ outputs ins st).
Proof.
  induction ins as [|i ins IH]; simpl; intros st o H.
  - now rewrite app_nil_r.
  - rewrite app_assoc. apply IH. now apply asked_step.
Qed.

Lemma asked_start : asked (start KbDoc) [].
Proof. intros tid c sl H. discriminate. Qed.

(** *** The ranks of the entries *)

Lemma sorted_app_one (l : list nat) (n : nat) :
  StronglySorted lt l -> Forall (fun x => x < n) l ->
  StronglySorted lt (l ++ [n]).
Proof.
  induction 1 as [|a l Hs IH Ha]; simpl; intros Hb.
  - constructor; constructor.
  - inversion Hb as [|? ? Han Hbn]; subst. constructor; [now apply IH|].
    apply Forall_app. split; [exact Ha|now constructor].
Qed.

Lemma ranked_filter (f : Slot -> bool) (l : list Slot) :
  ranked l -> ranked (filter f l).
Proof.
  unfold ranked. induction l as [|a l IH]; simpl; intros H; [constructor|].
  apply StronglySorted_inv in H as [Hs Ha].
  destruct (f a); simpl; [|now apply IH].
  constructor; [now apply IH|].
  rewrite Forall_forall in *. intros x Hx. apply Ha.
  apply in_map_iff in Hx as (y & <- & Hy). apply in_map.
  now apply filter_In in Hy.
Qed.

Lemma mapSet_wellRanked id u (m : RoomMap) :
  wellRankedMap m -> wellRankedMap (mapSet id u m).
Proof.
  intros [Hr Hb]. unfold mapSet. destruct (mapHas id m).
  - assert (E : map slot_stamp
                  (map (fun s => if slot_id s =? id
                                 then mkSlot (slot_stamp s) id u else s)
                       (map_slots m))
                = map slot_stamp (map_slots m)).
    { rewrite map_map. apply map_ext. intros s.
      now destruct (slot_id s =? id). }
    split; simpl.
    + unfold ranked. simpl. now rewrite E.
    + rewrite Forall_forall in *. intros s Hs.
      apply in_map_iff in Hs as (y & <- & Hy).
      destruct (slot_id y =? id); simpl; now apply Hb.
  - split; simpl.
    + unfold ranked. simpl. rewrite map_app. simpl.
      apply sorted_app_one; [exact Hr|]. now apply Forall_map.
    + apply Forall_app. split.
      * eapply Forall_impl; [|exact Hb]. simpl. intros; lia.
      * constructor; [simpl; lia|constructor].
Qed.

Lemma mapDelete_wellRanked id (m : RoomMap) :
  wellRankedMap m -> wellRankedMap (mapDelete id m).
Proof.
  intros [Hr Hb]. split; simpl.
  - now apply ranked_filter.
  - rewrite Forall_forall in *. intros s Hs. apply filter_In in Hs as [Hs _].
    now apply Hb.
Qed.

Lemma Forall_set {V : Type} (P : string * V -> Prop) k v m :
  P (k, v) -> Forall P m -> Forall P (JsMap.set k v m).
Proof.
  intros Hp. induction 1 as [|[k' v'] m Hk Hm IH]; simpl.
  - now constructor.
  - destruct (k' =? k); constructor; easy.
Qed.

Lemma Forall_delete {V : Type} (P : string * V -> Prop) k m :
  Forall P m -> Forall P (JsMap.delete k m).
Proof.
  rewrite !Forall_forall. intros H x Hx. apply H.
  now apply JsMapFacts.In_delete in Hx.
Qed.

(** A property of the maps of the registry that the insertion of a valid
    profile and the deletion of an entry keep is kept by every step. *)
Lemma step_maps (P : RoomMap -> Prop) st i :
  (forall n, P (mkRoomMap n 0 [])) ->
  (forall id u m, validProfile u -> P m -> P (mapSet id u m)) ->
  (forall id m, P m -> P (mapDelete id m)) ->
  Forall (fun rm => P (snd rm)) (st_rooms st) ->
  Forall (fun rm => P (snd rm)) (st_rooms (fst (step st i))).
Proof.
  intros Hnew Hset Hdel H. destruct (callOf st i) as [c|] eqn:Ec.
  { now rewrite (step_rooms st i c Ec). }
  destruct i as [id room uname lang rl ts|id room message lang ts|id
                |t answer|t answer|t answer]; simpl in *.
  - unfold join.
    destruct (negb (truthy room) || negb (truthy uname)
              || negb (truthy lang) || negb (truthy rl)) eqn:Ev;
      [exact H|].
    assert (Hu : validProfile (mkUser uname lang rl)).
    { apply orb_false_iff in Ev as [Ev Ev4].
      apply orb_false_iff in Ev as [Ev Ev3].
      apply orb_false_iff in Ev as [_ Ev2].
      apply negb_false_iff in Ev2, Ev3, Ev4. now repeat split. }
    assert (H1 : forall rooms1 maps1,
               (if JsMap.has room (st_rooms st)
                then (st_rooms st, st_maps st)
                else (JsMap.set room (mkRoomMap (st_maps st) 0 [])
                                (st_rooms st), S (st_maps st)))
               = (rooms1, maps1) ->
               Forall (fun rm => P (snd rm)) rooms1).
    { intros rooms1 maps1 E. destruct (JsMap.has room (st_rooms st)).
      - injection E as <- _. exact H.
      - injection E as <- _. apply Forall_set; [|exact H]. apply Hnew. }
    destruct (if JsMap.has room (st_rooms st) then _ else _)
      as [rooms1 maps1] eqn:E.
    specialize (H1 _ _ eq_refl). simpl.
    apply Forall_set; [|exact H1]. simpl. apply Hset; [exact Hu|].
    destruct (JsMap.get room rooms1) as [m|] eqn:Eg.
    + apply JsMapFacts.get_In in Eg. rewrite Forall_forall in H1.
      exact (H1 _ Eg).
    + apply Hnew.
  - revert Ec. unfold chat.
    destruct (negb (truthy room) || negb (truthy message)
              || negb (truthy lang)); [easy|].
    destruct (JsMap.get room (st_rooms st)) as [m|]; [|easy].
    now destruct (mapGet id m).
  - unfold disconnect.
    destruct (find _ (st_rooms st)) as [[room m]|] eqn:Ef; [|exact H].
    apply find_some in Ef as [Hin _].
    assert (Hm : P m).
    { rewrite Forall_forall in H. exact (H _ Hin). }
    destruct (_ =? 0)%nat; simpl.
    + now apply Forall_delete.
    + apply Forall_set; [|exact H]. now apply Hdel.
  - now destruct (taskGet t (st_tasks st)) as [[c ph]|].
  - now destruct (taskGet t (st_tasks st)) as [[c ph]|].
  - now destruct (taskGet t (st_tasks st)) as [[c ph]|].
Qed.

Lemma step_wellRanked st i : wellRanked st -> wellRanked (fst (step st i)).
Proof.
  apply (step_maps wellRankedMap).
  - intros n. split; simpl; constructor.
  - intros id u m _. apply mapSet_wellRanked.
  - apply mapDelete_wellRanked.
Qed.

Lemma step_profilesValid st i :
  profilesValid st -> profilesValid (fst (step st i)).
Proof.
  apply (step_maps
           (fun m => Forall (fun sl => validProfile (slot_user sl))
                            (map_slots m))).
  - intros n. constructor.
  - intros id u m Hu Hm. unfold mapSet. destruct (mapHas id m); simpl.
    + rewrite Forall_forall in *. intros x Hx.
      apply in_map_iff in Hx as (y & <- & Hy).
      destruct (slot_id y =? id); [exact Hu|now apply Hm].
    + apply Forall_app. split; [exact Hm|]. now constructor.
  - intros id m Hm. simpl. rewrite Forall_forall in *. intros x Hx.
    apply filter_In in Hx as [Hx _]. now apply Hm.
Qed.

Lemma reachable_profilesValid st : reachable st -> profilesValid st.
Proof.
  induction 1 as [|st i _ IH]; [constructor|now apply step_profilesValid].
Qed.

Lemma profilesValid_live st c :
  profilesValid st ->
  Forall (fun sl => validProfile (slot_user sl)) (liveSlots st c).
Proof.
  intros H. unfold liveSlots.
  destruct (JsMap.get (call_room c) (st_rooms st)) as [m|] eqn:Eg;
    [|constructor].
  destruct (map_id m =? call_map c)%nat; [|constructor].
  apply JsMapFacts.get_In in Eg. unfold profilesValid in H.
  rewrite Forall_forall in H. exact (H _ Eg).
Qed.

Lemma reachable_wellRanked st : reachable st -> wellRanked st.
Proof.
  induction 1 as [|st i _ IH]; [constructor|now apply step_wellRanked].
Qed.

Lemma reachable_after (ins : list (Input KbDoc)) : forall st,
  reachable st -> reachable (after ins st).
Proof.
  induction ins as [|i ins IH]; simpl; intros st H; [exact H|].
  apply IH. now constructor.
Qed.

Lemma wellRanked_live st c : wellRanked st -> ranked (liveSlots st c).
Proof.
  intros H. unfold liveSlots.
  destruct (JsMap.get (call_room c) (st_rooms st)) as [m|] eqn:Eg;
    [|constructor].
  destruct (map_id m =? call_map c)%nat; [|constructor].
  apply JsMapFacts.get_In in Eg. unfold wellRanked in H.
  rewrite Forall_forall in H. exact (proj1 (H _ Eg)).
Qed.

Lemma filter_keeps {A : Type} (f : A -> bool) (l : list A) :
  Forall (fun x => f x = true) l -> filter f l = l.
Proof.
  induction 1 as [|a l Ha _ IH]; simpl; [reflexivity|].
  now rewrite Ha, IH.
Qed.

(** After the entry of rank [k] the iterator sees the entries that follow
    it. *)
Lemma ranked_rest (pre post : list Slot) sl :
  ranked (pre ++ sl :: post) ->
  filter (fun x => (S (slot_stamp sl) <=? slot_stamp x)%nat)
         (pre ++ sl :: post)
  = post.
Proof.
  unfold ranked. induction pre as [|a pre IH]; intros H;
    cbn [app filter map] in *; apply StronglySorted_inv in H as [Hs Ha].
  - assert (E : (S (slot_stamp sl) <=? slot_stamp sl)%nat = false)
      by (apply Nat.leb_gt; lia).
    rewrite E. apply filter_keeps. apply Forall_forall. intros x Hx.
    apply Nat.leb_le. rewrite Forall_forall in Ha.
    specialize (Ha (slot_stamp x) (in_map _ _ _ Hx)). lia.
  - assert (Hlt : slot_stamp a < slot_stamp sl).
    { rewrite Forall_forall in Ha. apply Ha. apply in_map.
      apply in_app_iff. right. now left. }
    assert (E : (S (slot_stamp sl) <=? slot_stamp a)%nat = false)
      by (apply Nat.leb_gt; lia).
    rewrite E. now apply IH.
Qed.

Lemma filter_from_start (l : list Slot) :
  filter (fun x => (0 <=? slot_stamp x)%nat) l = l.
Proof. apply filter_keeps. apply Forall_forall. now intros. Qed.

Lemma translationsDue_app c (l1 l2 : list Slot) :
  translationsDue c (l1 ++ l2) = translationsDue c l1 ++ translationsDue c l2.
Proof. unfold translationsDue. now rewrite filter_app, map_app. Qed.

(** *** The run of one handler *)

Lemma actor_other s i tid :
  tid < st_next s -> answered i <> Some tid -> actor s i <> Some tid.
Proof.
  intros Hlt Ha. destruct i; simpl in *; try exact Ha.
  intros [= E]. lia.
Qed.

Lemma answer_without_task s i tid :
  answered i = Some tid -> taskGet tid (st_tasks s) = None ->
  step s i = (s, []).
Proof.
  intros Ha Ht.
  destruct i; simpl in *; try discriminate; injection Ha as ->;
    now rewrite Ht.
Qed.

Lemma answer_with_task s i tid c ph :
  answered i = Some tid -> taskGet tid (st_tasks s) = Some (c, ph) ->
  callOf s i = Some c /\ actor s i = Some tid.
Proof.
  intros Ha Ht.
  destruct i; simpl in *; try discriminate; injection Ha as ->;
    now rewrite Ht.
Qed.

(** A handler that is finished does nothing more. *)
Lemma idle tid room (ins : list (Input KbDoc)) : forall s,
  taskGet tid (st_tasks s) = None -> tid < st_next s ->
  outputsFor tid ins s = []
  /\ taskGet tid (st_tasks (after ins s)) = None
  /\ logged tid room ins s.
Proof.
  induction ins as [|i ins IH]; simpl; intros s Ht Hlt; [easy|].
  destruct (answered i) as [t|] eqn:Ea.
  - destruct (Nat.eqb_spec t tid) as [->|Hne].
    + rewrite (answer_without_task s i tid Ea Ht). simpl.
      destruct (IH s Ht Hlt) as (E1 & E2 & E3).
      split; [exact E1|]. split; [exact E2|].
      split; [intros _; apply appended_refl|exact E3].
    + destruct (step_frame s i tid) as [Et _].
      { apply actor_other; [easy|congruence]. }
      destruct (IH (fst (step s i))) as (E1 & E2 & E3).
      * now rewrite Et.
      * pose proof (step_next s i). lia.
      * split; [exact E1|]. split; [exact E2|].
        split; [congruence|exact E3].
  - destruct (step_frame s i tid) as [Et _].
    { apply actor_other; [easy|congruence]. }
    destruct (IH (fst (step s i))) as (E1 & E2 & E3).
    + now rewrite Et.
    + pose proof (step_next s i). lia.
    + split; [exact E1|]. split; [exact E2|].
      split; [discriminate|exact E3].
Qed.

(** The loop and what follows it, given what a waiting handler does in the
    rest of the run. *)
Lemma after_loop c tid slots (ins : list (Input KbDoc))
    (IH : forall s ph rest,
        taskGet tid (st_tasks s) = Some (c, ph) -> tid < st_next s ->
        waiting c slots ph rest ->
        throughout (fun x => liveSlots x c = slots) ins s ->
        taskGet tid (st_tasks (after ins s)) = None ->
        Forall2 (visited c) rest (outcomes (outputsFor tid ins s))
        /\ translateRequests (outputsFor tid ins s)
           = translationsDue c
               (match ph with AwaitTranslation _ => tl rest | _ => rest end)
        /\ logged tid (call_room c) ins s) :
  forall from s0 pre rest0,
    slots = pre ++ rest0 ->
    filter (fun x => (from <=? slot_stamp x)%nat) slots = rest0 ->
    liveSlots s0 c = slots -> tid < st_next s0 ->
    throughout (fun x => liveSlots x c = slots) ins
               (fst (loopFrom tid c from s0)) ->
    taskGet tid (st_tasks (after ins (fst (loopFrom tid c from s0)))) = None ->
    Forall2 (visited c) rest0
      (outcomes (snd (loopFrom tid c from s0)
                 ++ outputsFor tid ins (fst (loopFrom tid c from s0))))
    /\ translateRequests
         (snd (loopFrom tid c from s0)
          ++ outputsFor tid ins (fst (loopFrom tid c from s0)))
       = translationsDue c rest0
    /\ logged tid (call_room c) ins (fst (loopFrom tid c from s0)).
Proof.
  intros from s0 pre rest0 Eslots Efilter Hlive Hlt.
  destruct (loopFrom_spec tid c from s0) as (h' & o & r & Hsv & ->). simpl.
  rewrite Hlive, Efilter in Hsv. intros Hthr Hfin.
  destruct (serve_split _ _ _ _ _ _ _ Hsv) as (done & Hf & Hr).
  rewrite outcomes_app, translateRequests_app.
  destruct r as [sl|].
  - destruct Hr as (Hl & post & -> & Hq).
    destruct (IH (mkState (st_rooms s0) h' (st_maps s0)
                    (taskPut tid (c, AwaitTranslation sl) (st_tasks s0))
                    (st_next s0))
                 (AwaitTranslation sl) (sl :: post))
      as (Hf2 & Hq2 & Hlog); simpl.
    + apply taskGet_put_eq.
    + exact Hlt.
    + split; [exact Hl|]. exists (pre ++ done), post.
      split; [|reflexivity]. now rewrite Eslots, <- app_assoc.
    + exact Hthr.
    + exact Hfin.
    + split; [now apply Forall2_app|]. split; [|exact Hlog].
      simpl in Hq2. rewrite Hq, Hq2, <- translationsDue_app, <- app_assoc.
      reflexivity.
  - destruct Hr as [-> Hq].
    destruct (idle tid (call_room c) ins
                (mkState (st_rooms s0) h' (st_maps s0)
                         (taskDrop tid (st_tasks s0)) (st_next s0)))
      as (E1 & _ & E3); simpl.
    + apply taskGet_drop_eq.
    + exact Hlt.
    + rewrite E1. simpl. rewrite !app_nil_r. now repeat split.
Qed.

Lemma handler_run c tid slots :
  ranked slots ->
  forall (ins : list (Input KbDoc)) s ph rest,
    taskGet tid (st_tasks s) = Some (c, ph) -> tid < st_next s ->
    waiting c slots ph rest ->
    throughout (fun x => liveSlots x c = slots) ins s ->
    taskGet tid (st_tasks (after ins s)) = None ->
    Forall2 (visited c) rest (outcomes (outputsFor tid ins s))
    /\ translateRequests (outputsFor tid ins s)
       = translationsDue c
           (match ph with AwaitTranslation _ => tl rest | _ => rest end)
    /\ logged tid (call_room c) ins s.
Proof.
  intros Hrank.
  induction ins as [|i ins IH]; intros s ph rest Ht Hlt Hw Hthr Hfin.
  { simpl in Hfin. rewrite Ht in Hfin. discriminate. }
  destruct Hthr as [Hlive Hthr]. simpl in Hfin |- *.
  assert (Hother : answered i <> Some tid ->
            Forall2 (visited c) rest
              (outcomes (outputsFor tid ins (fst (step s i))))
            /\ translateRequests (outputsFor tid ins (fst (step s i)))
               = translationsDue c
                   (match ph with
                    | AwaitTranslation _ => tl rest
                    | _ => rest
                    end)
            /\ logged tid (call_room c) ins (fst (step s i))).
  { intros Ha. destruct (step_frame s i tid) as [Et _].
    { now apply actor_other. }
    apply IH; try easy.
    - now rewrite Et.
    - pose proof (step_next s i). lia. }
  destruct (answered i) as [t|] eqn:Ea.
  2:{ destruct Hother as (H1 & H2 & H3); [discriminate|].
      simpl. repeat split; try easy. }
  destruct (Nat.eqb_spec t tid) as [->|Hne].
  2:{ destruct Hother as (H1 & H2 & H3); [congruence|].
      simpl. repeat split; try easy. congruence. }
  destruct (answer_with_task s i tid c ph Ea Ht) as [Ec Hact].
  pose proof (step_appended s i c Ec) as [Happ _].
  destruct (step_of_call s i c Ec) as (t & Hact' & Hs).
  assert (t = tid) by congruence. subst t.
  destruct Hs as [(_ & Hh & _ & [(_ & Es & Eo)|(ph' & rq & Eo & Et & Hph & Hrq & Hnot)])
                 |[(s0 & pre & Hr & Hh & Hk & Hn & Hnot & Hp & Es)
                  |(sl & ans & s0 & e1 & Ei & Ht' & Hr & Hk & Hn & He & Es)]].
  - rewrite Eo, Es in *. simpl.
    destruct (IH s ph rest) as (H1 & H2 & H3); try easy.
  - assert (Hrest : rest = slots).
    { destruct ph as [| |x]; try exact Hw.
      exfalso. exact (Hnot Ea x Ht). }
    subst rest.
    destruct (IH (fst (step s i)) ph' slots) as (H1 & H2 & H3); try easy.
    + rewrite Et. apply taskGet_put_eq.
    + pose proof (step_next s i). lia.
    + now destruct Hph as [->|[d ->]].
    + rewrite Eo. rewrite outcomes_app, translateRequests_app.
      assert (Eq : outcomes [Request (KbDoc:=KbDoc) tid rq] = []
                   /\ translateRequests [Request (KbDoc:=KbDoc) tid rq] = []).
      { now destruct Hrq as [->|(text & data & ->)]. }
      destruct Eq as [-> ->]. simpl. rewrite <- Eo.
      split; [exact H1|]. split; [|now split].
      rewrite H2. destruct Hph as [->|[d ->]];
        now destruct ph as [| |x]; [..|exfalso; exact (Hnot Ea x Ht)].
  - assert (Hrest : rest = slots).
    { destruct ph as [| |x]; try exact Hw.
      exfalso. exact (Hnot Ea x Ht). }
    subst rest.
    assert (Hph : match ph with
                  | AwaitTranslation _ => tl slots
                  | _ => slots
                  end = slots).
    { now destruct ph as [| |x]; [..|exfalso; exact (Hnot Ea x Ht)]. }
    rewrite Hph. clear Hother. revert Happ Hthr Hfin. rewrite Es. simpl.
    intros Happ Hthr Hfin.
    destruct (after_loop c tid slots ins IH 0 s0 [] slots) as (H1 & H2 & H3);
      try easy.
    + apply filter_from_start.
    + now rewrite (liveSlots_rooms s0 s c Hr).
    + lia.
    + destruct (suggestions_silent c pre Hp) as (_ & E2 & E3).
      rewrite <- app_assoc, outcomes_app, translateRequests_app, E2, E3.
      simpl. now repeat split.
  - rewrite Ht in Ht'. injection Ht' as ->.
    destruct Hw as (Hl & pre & post & Eslots & ->). simpl.
    clear Hother. revert Happ Hthr Hfin. rewrite Es. simpl.
    intros Happ Hthr Hfin.
    destruct (after_loop c tid slots ins IH (S (slot_stamp sl)) s0
                (pre ++ [sl]) post) as (H1 & H2 & H3); try easy.
    + now rewrite Eslots, <- app_assoc.
    + rewrite Eslots. apply ranked_rest. now rewrite <- Eslots.
    + now rewrite (liveSlots_rooms s0 s c Hr).
    + lia.
    + assert (He1 : exists oc,
                 visited c sl oc
                 /\ forall o', outcomes (e1 :: o') = oc :: outcomes o'
                               /\ translateRequests (e1 :: o')
                                  = translateRequests o').
      { assert (Hbad : visited c sl (slot_id sl, None))
          by (split; [reflexivity|now left]).
        destruct ans as [text|].
        - destruct (pushAndSend_cases (KbDoc:=KbDoc) c sl
                      (recordFor c text true) (st_history s))
            as [(log & _ & E)|(_ & E)]; rewrite E in He;
            injection He as _ ->.
          + exists (slot_id sl, Some (recordFor c text true)). split.
            * split; [reflexivity|]. right. exists text. rewrite Hl.
              split; [reflexivity|]. intros El.
              apply String.eqb_neq in Hl. contradiction.
            * now intros o'.
          + exists (slot_id sl, None). split; [exact Hbad|now intros o'].
        - injection He as _ ->. exists (slot_id sl, None).
          split; [exact Hbad|now intros o']. }
      destruct He1 as (oc & Hoc & Ho).
      destruct (Ho (snd (loopFrom tid c (S (slot_stamp sl)) s0)
                    ++ outputsFor tid ins
                         (fst (loopFrom tid c (S (slot_stamp sl)) s0))))
        as [Ho1 Ho2].
      simpl in Ho1, Ho2. rewrite Ho1, Ho2.
      split; [now constructor|]. split; [exact H2|]. now split.
Qed.

(** The run of the handler of a chat message, from its arrival to its end,
    while the entries of its map stay as they are: every entry is served
    once, in order, and a translation is asked for each entry of another
    language. *)
Lemma handler_served st0 id room message lang ts c
    (ins : list (Input KbDoc)) :
  ranked (liveSlots st0 c) ->
  callOf st0 (InChat id room message lang ts) = Some c ->
  throughout (fun s => liveSlots s c = liveSlots st0 c) ins
             (fst (step st0 (InChat id room message lang ts))) ->
  taskGet (st_next st0)
          (st_tasks (after ins (fst (step st0 (InChat id room message lang
                                                      ts))))) = None ->
  Forall2 (visited c) (liveSlots st0 c)
    (outcomes (snd (step st0 (InChat id room message lang ts))
               ++ outputsFor (st_next st0) ins
                    (fst (step st0 (InChat id room message lang ts)))))
  /\ translateRequests
       (snd (step st0 (InChat id room message lang ts))
        ++ outputsFor (st_next st0) ins
             (fst (step st0 (InChat id room message lang ts))))
     = translationsDue c (liveSlots st0 c)
  /\ logged (st_next st0) (call_room c) ins
            (fst (step st0 (InChat id room message lang ts))).
Proof.
  intros Hrank Ec. simpl in Ec |- *. unfold chat. revert Ec.
  destruct (negb (truthy room) || negb (truthy message)
            || negb (truthy lang)); [discriminate|].
  destruct (JsMap.get room (st_rooms st0)) as [m|] eqn:Eg; [|discriminate].
  destruct (mapGet id m) as [sender|]; [|discriminate].
  intros [= <-].
  set (c := mkCall id room (map_id m) sender message lang ts) in *.
  destruct (role sender =? "user"); simpl; intros Hthr Hfin.
  - apply (handler_run c (st_next st0) (liveSlots st0 c) Hrank ins _ AwaitKb);
      simpl; try easy.
    + now rewrite Nat.eqb_refl.
    + lia.
  - apply (after_loop c (st_next st0) (liveSlots st0 c) ins
             (handler_run c (st_next st0) (liveSlots st0 c) Hrank ins)
             0 _ [] (liveSlots st0 c)); try easy.
    + apply filter_from_start.
    + simpl. lia.
Qed.

End Runs.

Section Handlers.
Context {KbDoc : Type}.
Implicit Types (st : State KbDoc) (i : Input KbDoc) (o : list (Out KbDoc)).
Implicit Types (c : Call) (sl : Slot).

(** The step that takes the answer of the translator. *)
Lemma step_translation st tid c sl answer :
  taskGet tid (st_tasks st) = Some (c, AwaitTranslation sl) ->
  forall h1 e1,
    match answer with
    | Some text => pushAndSend c sl (recordFor c text true) (st_history st)
    | None => (st_history st, failedFor sl)
    end = (h1, e1) ->
    step st (TranslateAnswer tid answer)
    = (fst (loopFrom tid c (S (slot_stamp sl))
              (mkState (st_rooms st) h1 (st_maps st) (st_tasks st)
                       (st_next st))),
       e1 :: snd (loopFrom tid c (S (slot_stamp sl))
                    (mkState (st_rooms st) h1 (st_maps st) (st_tasks st)
                             (st_next st)))).
Proof.
  intros Ht h1 e1 E. simpl. rewrite Ht. simpl. rewrite E.
  now destruct (loopFrom _ _ _ _).
Qed.

Lemma loopFrom_appended tid c from (s : State KbDoc) :
  appended (call_room c) (st_history s)
           (st_history (fst (loopFrom tid c from s)))
           (snd (loopFrom tid c from s)).
Proof.
  destruct (loopFrom_spec tid c from s) as (h' & o & r & Hsv & ->). simpl.
  exact (proj1 (serve_appended _ _ _ _ _ _ _ Hsv)).
Qed.

Lemma callOf_chat st id room message lang ts c :
  callOf st (InChat id room message lang ts) = Some c ->
  exists m sender,
    JsMap.get room (st_rooms st) = Some m
    /\ mapGet id m = Some sender
    /\ c = mkCall id room (map_id m) sender message lang ts
    /\ liveSlots st c = map_slots m
    /\ truthy message = true.
Proof.
  simpl.
  destruct (negb (truthy room) || negb (truthy message)
            || negb (truthy lang)) eqn:Ev; [discriminate|].
  destruct (JsMap.get room (st_rooms st)) as [m|] eqn:Eg; [|discriminate].
  destruct (mapGet id m) as [sender|] eqn:Em; [|discriminate].
  intros [= <-]. exists m, sender.
  split; [reflexivity|]. split; [exact Em|]. split; [reflexivity|].
  split.
  - unfold liveSlots. simpl. now rewrite Eg, Nat.eqb_refl.
  - apply orb_false_iff in Ev as [Ev _].
    apply orb_false_iff in Ev as [_ Ev]. now apply negb_false_iff in Ev.
Qed.

Lemma answer_without_call st i tid :
  answered i = Some tid -> callOf st i = None -> step st i = (st, []).
Proof.
  intros Ha Ec. apply (answer_without_task st i tid Ha).
  destruct i; simpl in *; try discriminate; injection Ha as ->;
    now destruct (taskGet tid (st_tasks st)) as [[? ?]|].
Qed.

Lemma outputsFor_successes tid (ins : list (Input KbDoc)) : forall st,
  sentMessages (outputsFor tid ins st)
  = successes (outcomes (outputsFor tid ins st)).
Proof.
  induction ins as [|i ins IH]; intros st; [reflexivity|]. simpl.
  rewrite sentMessages_app, outcomes_app, successes_app, IH. f_equal.
  destruct (answered i) as [t|] eqn:Ea; [|reflexivity].
  destruct (t =? tid)%nat; [|reflexivity].
  destruct (callOf st i) as [c|] eqn:Ec.
  - now apply (step_successes st i c).
  - now rewrite (answer_without_call st i t Ea Ec).
Qed.

Lemma visited_delivered c (l : list Slot) outs :
  Forall2 (visited c) l outs ->
  (forall to, ~ In (to, None) outs) ->
  Forall2 (delivered c) l outs.
Proof.
  induction 1 as [|sl [to r] l outs [Hto Hv] _ IH]; intros Hn;
    constructor.
  - split; [exact Hto|]. destruct Hv as [Hv|Hv]; [|exact Hv].
    simpl in Hv. subst r. exfalso. apply (Hn to). now left.
  - apply IH. intros x Hx. apply (Hn x). now right.
Qed.

Lemma delivered_records c (l : list Slot) outs :
  Forall2 (delivered c) l outs ->
  length (successes outs) = length l
  /\ Forall (fun r => msg_timestamp r = call_timestamp c
                      /\ msg_type r = "public"
                      /\ msg_originalText r = Some (call_message c))
            (successes outs).
Proof.
  induction 1 as [|sl [to r] l outs [Hto (text & Hr & _)] _ [IH1 IH2]];
    simpl; [split; [reflexivity|constructor]|].
  simpl in Hr. subst r. simpl. split; [now rewrite IH1|].
  constructor; [now repeat split|exact IH2].
Qed.

Lemma Forall2_In_left {A B : Type} (R : A -> B -> Prop) l1 l2 x :
  Forall2 R l1 l2 -> In x l1 -> exists y, In y l2 /\ R x y.
Proof.
  induction 1 as [|a b l1 l2 Hab _ IH]; intros Hin; [contradiction|].
  destruct Hin as [->|Hin].
  - exists b. split; [now left|exact Hab].
  - destruct (IH Hin) as (y & Hy & Hr). exists y. split; [now right|exact Hr].
Qed.

Lemma mapGet_slot id (m : RoomMap) u :
  mapGet id m = Some u ->
  exists sl, In sl (map_slots m) /\ slot_id sl = id /\ slot_user sl = u.
Proof.
  unfold mapGet.
  destruct (find (fun s => slot_id s =? id) (map_slots m)) as [sl|] eqn:Ef;
    [|discriminate].
  intros [= <-]. apply find_some in Ef as [Hin He].
  apply String.eqb_eq in He. now exists sl.
Qed.

Lemma step_kb (st : State KbDoc) tid c a :
  taskGet tid (st_tasks st) = Some (c, AwaitKb) ->
  step st (KbAnswer tid a)
  = match a with
    | Some (d :: data) =>
        (mkState (st_rooms st) (st_history st) (st_maps st)
           (taskPut tid (c, AwaitModel (d :: data)) (st_tasks st))
           (st_next st),
         [Request tid (GenerateCall (call_message c) (d :: data))])
    | _ => (fst (loopFrom tid c 0 st),
            suggestionFailed c :: snd (loopFrom tid c 0 st))
    end.
Proof.
  intros H. cbn [step]. rewrite H. cbn [resume].
  destruct a as [[|d data]|]; try reflexivity;
    now destruct (loopFrom tid c 0 st).
Qed.

Lemma step_model (st : State KbDoc) tid c data a :
  taskGet tid (st_tasks st) = Some (c, AwaitModel data) ->
  step st (ModelAnswer tid a)
  = (fst (loopFrom tid c 0 st),
     match a with
     | Some body => suggestionsFor st c (nonBlankLines body)
     | None => [suggestionFailed c]
     end ++ snd (loopFrom tid c 0 st)).
Proof.
  intros H. cbn [step]. rewrite H. cbn [resume].
  destruct a as [body|]; now destruct (loopFrom tid c 0 st).
Qed.

End Handlers.
End AsyncFacts.

(** ** The chat handler among other events *)

Section AsyncClaims.
Import Async AsyncFacts.
Context {KbDoc : Type}.
Implicit Types (st : State KbDoc) (i : Input KbDoc) (o : list (Out KbDoc)).
Implicit Types (c : Call) (sl : Slot).



(** C10: a delivery that fails appends nothing.  Each step of a handler
    makes the log of its room grow by the messages it sends, which are
    those of the deliveries that succeeded, in order, and changes no other
    log; when the awaited translation fails, or the record cannot be
    appended, the step sends the failure to that entry and the log grows
    only by the messages for the entries that come after it.  Over the
    whole run of a handler whose map stays as it is, each entry has one
    outcome, and the records appended are those of the entries whose
    delivery succeeded. *)
Theorem failed_delivery_leaves_no_record (st : State KbDoc) (i : Input KbDoc)
    (c : Call) :
  callOf st i = Some c ->
  appended (call_room c) (st_history st) (st_history (fst (step st i)))
           (snd (step st i))
  /\ (forall room, room <> call_room c ->
        JsMap.get room (st_history (fst (step st i)))
        = JsMap.get room (st_history st))
  /\ sentMessages (snd (step st i)) = successes (outcomes (snd (step st i)))
  /\ (forall tid sl answer,
        i = TranslateAnswer tid answer ->
        taskGet tid (st_tasks st) = Some (c, AwaitTranslation sl) ->
        answer = None \/ JsMap.get (call_room c) (st_history st) = None ->
        exists rest,
          snd (step st i) = failedFor sl :: rest
          /\ appended (call_room c) (st_history st)
                      (st_history (fst (step st i))) rest
          /\ forall tgt m,
               In (Sent tgt (MessageP m)) rest ->
               exists sl',
                 In sl' (liveSlots st c)
                 /\ slot_stamp sl < slot_stamp sl'
                 /\ tgt = To (slot_id sl'))
  /\ forall id room message lang ts (ins : list (Input KbDoc)),
       i = InChat id room message lang ts ->
       reachable st ->
       throughout (fun s => liveSlots s c = liveSlots st c) ins
                  (fst (step st i)) ->
       taskGet (st_next st) (st_tasks (after ins (fst (step st i)))) = None ->
       Forall2 (visited c) (liveSlots st c)
         (outcomes (snd (step st i)
                    ++ outputsFor (st_next st) ins (fst (step st i))))
       /\ sentMessages (snd (step st i)
                        ++ outputsFor (st_next st) ins (fst (step st i)))
          = successes
              (outcomes (snd (step st i)
                         ++ outputsFor (st_next st) ins (fst (step st i))))
       /\ logged (st_next st) (call_room c) ins (fst (step st i)).
Proof.
  intros Ec. destruct (step_appended st i c Ec) as [Ha Hb].
  split; [exact Ha|]. split; [exact Hb|].
  split; [now apply (step_successes st i c)|]. split.
  - intros tid sl answer -> Ht Hfail.
    assert (E : match answer with
                | Some text =>
                    pushAndSend (KbDoc:=KbDoc) c sl (recordFor c text true)
                                (st_history st)
                | None => (st_history st, failedFor sl)
                end = (st_history st, failedFor sl)).
    { destruct answer as [text|]; [|reflexivity].
      destruct Hfail as [|Hg]; [discriminate|].
      destruct (pushAndSend_cases (KbDoc:=KbDoc) c sl (recordFor c text true)
                  (st_history st)) as [(log & Hg' & _)|(_ & E)];
        [congruence|exact E]. }
    rewrite (step_translation st tid c sl answer Ht _ _ E). simpl.
    eexists. split; [reflexivity|]. split.
    + apply (loopFrom_appended tid c (S (slot_stamp sl))
               (mkState (st_rooms st) (st_history st) (st_maps st)
                        (st_tasks st) (st_next st))).
    + intros tgt m Hin.
      destruct (loopFrom_kinds _ _ _ _ _ Hin)
        as [(x & Hx & Hr & _ & E')|[(x & _ & _ & E' & _)
           |(x & _ & _ & _ & E')]];
        try discriminate.
      injection E' as -> _. exists x. now repeat split.
  - intros id room message lang ts ins -> Hreach Hthr Hfin.
    destruct (handler_served st id room message lang ts c ins
                (wellRanked_live st c (reachable_wellRanked st Hreach))
                Ec Hthr Hfin) as (Hv & _ & Hlog).
    split; [exact Hv|]. split; [|exact Hlog].
    rewrite sentMessages_app, outcomes_app, successes_app.
    now rewrite (step_successes _ _ c Ec), outputsFor_successes.
Qed.

(** C8, amended: when the map of the room stays as it is from the arrival
    of a chat message to the end of its handler, and no delivery fails, the
    handler sends one record to each entry of the map, in order, the
    sender's own copy among them; these records, as many as the room has
    participants, carry the one timestamp read at the arrival, and each
    step appends those it sends to the log of the room. *)
Theorem one_record_per_recipient_same_timestamp
    (st : State KbDoc) (id room message lang ts : string) (c : Call)
    (ins : list (Input KbDoc)) :
  reachable st ->
  callOf st (InChat id room message lang ts) = Some c ->
  throughout (fun s => liveSlots s c = liveSlots st c) ins
             (fst (step st (InChat id room message lang ts))) ->
  taskGet (st_next st)
          (st_tasks (after ins
                       (fst (step st (InChat id room message lang ts)))))
  = None ->
  (forall to,
      ~ In (to, None)
           (outcomes (snd (step st (InChat id room message lang ts))
                      ++ outputsFor (st_next st) ins
                           (fst (step st (InChat id room message lang ts)))))) ->
  exists m,
    JsMap.get room (st_rooms st) = Some m
    /\ Forall2 (delivered c) (map_slots m)
         (outcomes (snd (step st (InChat id room message lang ts))
                    ++ outputsFor (st_next st) ins
                         (fst (step st (InChat id room message lang ts)))))
    /\ sentMessages (snd (step st (InChat id room message lang ts))
                     ++ outputsFor (st_next st) ins
                          (fst (step st (InChat id room message lang ts))))
       = successes
           (outcomes (snd (step st (InChat id room message lang ts))
                      ++ outputsFor (st_next st) ins
                           (fst (step st (InChat id room message lang ts)))))
    /\ length (sentMessages
                 (snd (step st (InChat id room message lang ts))
                  ++ outputsFor (st_next st) ins
                       (fst (step st (InChat id room message lang ts)))))
       = length (map_slots m)
    /\ Forall (fun r => msg_timestamp r = ts /\ msg_type r = "public"
                        /\ msg_originalText r = Some message)
              (sentMessages
                 (snd (step st (InChat id room message lang ts))
                  ++ outputsFor (st_next st) ins
                       (fst (step st (InChat id room message lang ts)))))
    /\ (exists r,
           In (id, Some r)
              (outcomes (snd (step st (InChat id room message lang ts))
                         ++ outputsFor (st_next st) ins
                              (fst (step st (InChat id room message lang
                                                    ts))))))
    /\ appended room (st_history st)
                (st_history (fst (step st (InChat id room message lang ts))))
                (snd (step st (InChat id room message lang ts)))
    /\ logged (st_next st) room ins
              (fst (step st (InChat id room message lang ts))).
Proof.
  intros Hreach Ec Hthr Hfin Hok.
  destruct (handler_served st id room message lang ts c ins
              (wellRanked_live st c (reachable_wellRanked st Hreach))
              Ec Hthr Hfin) as (Hv & _ & Hlog).
  destruct (callOf_chat _ _ _ _ _ _ _ Ec)
    as (m & sender & Hg & Hm & Hc & Hl & Hmsg).
  pose proof (visited_delivered _ _ _ Hv Hok) as Hd. rewrite Hl in Hd.
  destruct (delivered_records _ _ _ Hd) as [Hlen Hts].
  assert (Hs : sentMessages
                 (snd (step st (InChat id room message lang ts))
                  ++ outputsFor (st_next st) ins
                       (fst (step st (InChat id room message lang ts))))
               = successes
                   (outcomes
                      (snd (step st (InChat id room message lang ts))
                       ++ outputsFor (st_next st) ins
                            (fst (step st (InChat id room message lang
                                                  ts)))))).
  { rewrite sentMessages_app, outcomes_app, successes_app.
    now rewrite (step_successes _ _ c Ec), outputsFor_successes. }
  pose proof (proj1 (step_appended _ _ c Ec)) as Happ.
  subst c. simpl in Happ, Hlog, Hts.
  exists m. split; [exact Hg|]. split; [exact Hd|]. split; [exact Hs|].
  split; [now rewrite Hs|]. split; [|split; [|split]].
  - rewrite Hs. exact Hts.
  - destruct (mapGet_slot _ _ _ Hm) as (sl & Hin & Hid & _).
    destruct (Forall2_In_left _ _ _ _ Hd Hin)
      as ([to r] & Hy & Hto & text & Hr & _).
    simpl in Hto, Hr. subst to r. rewrite Hid in Hy. eexists. exact Hy.
  - exact Happ.
  - exact Hlog.
Qed.

(** While the map of the room stays as it is from the arrival of a chat
    message to the end of its handler, the handler asks the translator
    once for each entry whose language is not the language of the message,
    in the order of the entries, for the message and the language of that
    entry, whatever the answers are. *)
Theorem translator_called_once_per_other_language_recipient
    (st : State KbDoc) (id room message lang ts : string) (c : Call)
    (ins : list (Input KbDoc)) :
  reachable st ->
  callOf st (InChat id room message lang ts) = Some c ->
  throughout (fun s => liveSlots s c = liveSlots st c) ins
             (fst (step st (InChat id room message lang ts))) ->
  taskGet (st_next st)
          (st_tasks (after ins
                       (fst (step st (InChat id room message lang ts)))))
  = None ->
  exists m,
    JsMap.get room (st_rooms st) = Some m
    /\ translateRequests
         (snd (step st (InChat id room message lang ts))
          ++ outputsFor (st_next st) ins
               (fst (step st (InChat id room message lang ts))))
       = map (fun sl => (message, language (slot_user sl)))
             (filter (fun sl => negb (language (slot_user sl) =? lang))
                     (map_slots m)).
Proof.
  intros Hreach Ec Hthr Hfin.
  destruct (handler_served st id room message lang ts c ins
              (wellRanked_live st c (reachable_wellRanked st Hreach))
              Ec Hthr Hfin) as (_ & Hq & _).
  pose proof (profilesValid_live st c (reachable_profilesValid st Hreach))
    as Hvalid.
  destruct (callOf_chat _ _ _ _ _ _ _ Ec)
    as (m & sender & Hg & Hm & Hc & Hl & Hmsg).
  exists m. split; [exact Hg|]. rewrite Hq. unfold translationsDue.
  rewrite Hl in Hvalid |- *. rewrite Hc. simpl. f_equal.
  apply filter_ext_in. intros sl Hin. rewrite Forall_forall in Hvalid.
  destruct (Hvalid sl Hin) as (_ & Hlang & _).
  now rewrite Hmsg, Hlang, !andb_true_r.
Qed.

End AsyncClaims.

Section AsyncRuns.
Import Async AsyncFacts AsyncDemo.

Lemma lobby_reachable : reachable lobby.
Proof. apply reachable_after. constructor. Qed.



Lemma failed_delivery_leaves_no_record_witness :
  (exists rest,
      snd (step waitingForAnn (TranslateAnswer 0 None))
      = failedFor annSlot :: rest
      /\ appended (call_room bobsCall) (st_history waitingForAnn)
           (st_history (fst (step waitingForAnn (TranslateAnswer 0 None))))
           rest
      /\ forall tgt m,
           In (Sent tgt (MessageP m)) rest ->
           exists sl',
             In sl' (liveSlots waitingForAnn bobsCall)
             /\ slot_stamp annSlot < slot_stamp sl'
             /\ tgt = To (slot_id sl'))
  /\ (Forall2 (visited bobsCall) (liveSlots lobby bobsCall)
        (outcomes (snd (step lobby bonjour)
                   ++ outputsFor (st_next lobby) [TranslateAnswer 0 None]
                        (fst (step lobby bonjour))))
      /\ sentMessages (snd (step lobby bonjour)
                       ++ outputsFor (st_next lobby) [TranslateAnswer 0 None]
                            (fst (step lobby bonjour)))
         = successes
             (outcomes (snd (step lobby bonjour)
                        ++ outputsFor (st_next lobby) [TranslateAnswer 0 None]
                             (fst (step lobby bonjour))))
      /\ logged (st_next lobby) (call_room bobsCall) [TranslateAnswer 0 None]
                (fst (step lobby bonjour))).
Proof.
  split.
  - apply (proj1 (proj2 (proj2 (proj2
             (failed_delivery_leaves_no_record waitingForAnn
                (TranslateAnswer 0 None) bobsCall eq_refl))))
             0 annSlot None).
    + reflexivity.
    + reflexivity.
    + now left.
  - apply (proj2 (proj2 (proj2 (proj2
             (failed_delivery_leaves_no_record lobby bonjour bobsCall
                eq_refl))))
             "b1" "r1" "bonjour" "fr" "t3" [TranslateAnswer 0 None]).
    + reflexivity.
    + exact lobby_reachable.
    + vm_compute. now repeat split.
    + reflexivity.
Defined.

(** C8, as stated, fails.  Ann and Bob are the two participants of room r1
    when Bob's message arrives; Cy joins r1 while the handler waits for the
    translation for Ann.  No delivery fails, and the handler appends three
    records of the message to the log of r1, one of them for Cy. *)
Lemma fan_out_reaches_a_socket_that_joined_meanwhile :
  callOf lobby bonjour = Some bobsCall
  /\ JsMap.get "r1" (st_rooms lobby) = Some (mkRoomMap 0 2 [annSlot; bobSlot])
  /\ st_tasks (after cyJoinsMeanwhile (fst (step lobby bonjour))) = []
  /\ (forall to,
        ~ In (to, None)
             (outcomes (snd (step lobby bonjour)
                        ++ outputsFor 0 cyJoinsMeanwhile
                             (fst (step lobby bonjour)))))
  /\ sentMessages (snd (step lobby bonjour)
                   ++ outputsFor 0 cyJoinsMeanwhile (fst (step lobby bonjour)))
     = [recordFor bobsCall "hello" true;
        recordFor bobsCall "bonjour" false;
        recordFor bobsCall "hello" true]
  /\ outcomes (snd (step lobby bonjour)
               ++ outputsFor 0 cyJoinsMeanwhile (fst (step lobby bonjour)))
     = [("a1", Some (recordFor bobsCall "hello" true));
        ("b1", Some (recordFor bobsCall "bonjour" false));
        ("c1", Some (recordFor bobsCall "hello" true))]
  /\ JsMap.get "r1"
       (st_history (after cyJoinsMeanwhile (fst (step lobby bonjour))))
     = Some [joinMessage "Ann" "t1"; joinMessage "Bob" "t2";
             joinMessage "Cy" "t4";
             recordFor bobsCall "hello" true;
             recordFor bobsCall "bonjour" false;
             recordFor bobsCall "hello" true]
  /\ length (sentMessages
               (snd (step lobby bonjour)
                ++ outputsFor 0 cyJoinsMeanwhile (fst (step lobby bonjour))))
     <> length [annSlot; bobSlot].
Proof.
  repeat split; try reflexivity.
  - vm_compute. intros to [H|[H|[H|[]]]]; discriminate.
  - vm_compute. discriminate.
Qed.

Lemma one_record_per_recipient_same_timestamp_witness :
  exists m,
    JsMap.get "r1" (st_rooms lobby) = Some m
    /\ Forall2 (delivered bobsCall) (map_slots m)
         (outcomes (snd (step lobby bonjour)
                    ++ outputsFor (st_next lobby)
                         [TranslateAnswer 0 (Some "hello")]
                         (fst (step lobby bonjour))))
    /\ sentMessages (snd (step lobby bonjour)
                     ++ outputsFor (st_next lobby)
                          [TranslateAnswer 0 (Some "hello")]
                          (fst (step lobby bonjour)))
       = successes
           (outcomes (snd (step lobby bonjour)
                      ++ outputsFor (st_next lobby)
                           [TranslateAnswer 0 (Some "hello")]
                           (fst (step lobby bonjour))))
    /\ length (sentMessages
                 (snd (step lobby bonjour)
                  ++ outputsFor (st_next lobby)
                       [TranslateAnswer 0 (Some "hello")]
                       (fst (step lobby bonjour))))
       = length (map_slots m)
    /\ Forall (fun r => msg_timestamp r = "t3" /\ msg_type r = "public"
                        /\ msg_originalText r = Some "bonjour")
              (sentMessages
                 (snd (step lobby bonjour)
                  ++ outputsFor (st_next lobby)
                       [TranslateAnswer 0 (Some "hello")]
                       (fst (step lobby bonjour))))
    /\ (exists r,
           In ("b1", Some r)
              (outcomes (snd (step lobby bonjour)
                         ++ outputsFor (st_next lobby)
                              [TranslateAnswer 0 (Some "hello")]
                              (fst (step lobby bonjour)))))
    /\ appended "r1" (st_history lobby)
                (st_history (fst (step lobby bonjour)))
                (snd (step lobby bonjour))
    /\ logged (st_next lobby) "r1" [TranslateAnswer 0 (Some "hello")]
              (fst (step lobby bonjour)).
Proof.
  apply (one_record_per_recipient_same_timestamp lobby "b1" "r1" "bonjour"
           "fr" "t3" bobsCall [TranslateAnswer 0 (Some "hello")]).
  - exact lobby_reachable.
  - reflexivity.
  - vm_compute. now repeat split.
  - reflexivity.
  - vm_compute. intros to [H|[H|[]]]; discriminate.
Defined.

Lemma translator_called_once_per_other_language_recipient_witness :
  exists m,
    JsMap.get "r1" (st_rooms lobby) = Some m
    /\ translateRequests
         (snd (step lobby bonjour)
          ++ outputsFor (st_next lobby) [TranslateAnswer 0 None]
               (fst (step lobby bonjour)))
       = map (fun sl => ("bonjour", language (slot_user sl)))
             (filter (fun sl => negb (language (slot_user sl) =? "fr"))
                     (map_slots m)).
Proof.
  apply (translator_called_once_per_other_language_recipient lobby "b1" "r1"
           "bonjour" "fr" "t3" bobsCall [TranslateAnswer 0 None]).
  - exact lobby_reachable.
  - reflexivity.
  - vm_compute. now repeat split.
  - reflexivity.
Defined.

End AsyncRuns.

(** ** The handler left alone is [chatMessage] *)

Section AloneFacts.
Import Async AsyncFacts.
Variable World : Type.
Variable KbDoc : Type.
Variable now : World -> string * World.
Variable getDocs : World -> option (list KbDoc) * World.
Variable generateContent :
  string -> list KbDoc -> World -> option string * World.
Variable axiosTranslate : string -> string -> World -> option string * World.

#[local] Abbreviation answerAll' :=
  (answerAll World KbDoc getDocs generateContent axiosTranslate).
#[local] Abbreviation deliverAll' := (deliverAll World axiosTranslate).

Lemma emits_app (o1 o2 : list (Out KbDoc)) :
  emits KbDoc (o1 ++ o2) = emits KbDoc o1 ++ emits KbDoc o2.
Proof. unfold emits. apply flat_map_app. Qed.

Lemma get_snapshot room (rs : list (string * RoomMap)) :
  JsMap.get room
    (map (fun rm => (fst rm, entries (map_slots (snd rm)))) rs)
  = option_map (fun m => entries (map_slots m)) (JsMap.get room rs).
Proof.
  induction rs as [|[k m] rs IH]; simpl; [reflexivity|].
  now destruct (k =? room).
Qed.

Lemma get_entries id (m : RoomMap) :
  JsMap.get id (entries (map_slots m)) = mapGet id m.
Proof.
  unfold mapGet, entries. induction (map_slots m) as [|sl l IH]; simpl;
    [reflexivity|].
  now destruct (slot_id sl =? id).
Qed.

Lemma emits_suggestions (st : State KbDoc) c suggestions :
  emits KbDoc (suggestionsFor st c suggestions)
  = pushSuggestions suggestions (entries (liveSlots st c)).
Proof.
  unfold suggestionsFor, entries.
  induction (liveSlots st c) as [|sl l IH]; simpl; [reflexivity|].
  destruct (role (slot_user sl) =? "agent"); simpl; now rewrite IH.
Qed.

Lemma taskDrop_put tid t (tasks : list (nat * (Call * Phase KbDoc))) :
  taskDrop tid (taskPut tid t tasks) = taskDrop tid tasks.
Proof.
  unfold taskPut, taskDrop. simpl. rewrite Nat.eqb_refl. simpl.
  induction tasks as [|[k x] l IH]; simpl; [reflexivity|].
  destruct (k =? tid)%nat eqn:E; simpl; [exact IH|].
  now rewrite E, IH.
Qed.

Lemma taskPut_put tid t t' (tasks : list (nat * (Call * Phase KbDoc))) :
  taskPut tid t' (taskPut tid t tasks) = taskPut tid t' tasks.
Proof. unfold taskPut at 1. now rewrite taskDrop_put. Qed.

Lemma answerAll_translation fuel tid w (st : State KbDoc) c sl :
  taskGet tid (st_tasks st) = Some (c, AwaitTranslation sl) ->
  answerAll' (S fuel) tid w st
  = let '(a, w1) :=
      axiosTranslate (call_message c) (language (slot_user sl)) w in
    let '(st1, o) := step st (TranslateAnswer tid a) in
    let '(w2, st2, e) := answerAll' fuel tid w1 st1 in
    (w2, st2,
     TranslatePost (call_message c) (language (slot_user sl)) a
       :: emits KbDoc o ++ e).
Proof. intros H. cbn [answerAll]. now rewrite H. Qed.

(** The loop of the machine from an entry on, the handler being answered
    at once, is the loop of [chatMessage] over that entry and those after
    it. *)
Lemma serve_alone c tid (rest : list Slot) :
  forall pre rooms maps tasks next fuel w h,
    ranked (pre ++ rest) ->
    liveSlots (mkState (KbDoc:=KbDoc) rooms h maps tasks next) c
    = pre ++ rest ->
    length rest <= fuel ->
    forall h1 o r,
      serve (KbDoc:=KbDoc) tid c rest h = (h1, o, r) ->
      forall w' st' e,
        answerAll' fuel tid w
          (mkState rooms h1 maps
             (match r with
              | Some sl => taskPut tid (c, AwaitTranslation sl) tasks
              | None => taskDrop tid tasks
              end) next)
        = (w', st', e) ->
        deliverAll' (call_sender c) (call_room c) (call_message c)
                    (call_lang c) (call_timestamp c) (entries rest) w h
        = (w', st_history st', emits KbDoc o ++ e)
        /\ st_rooms st' = rooms
        /\ st_tasks st' = taskDrop tid tasks.
Proof.
  induction rest as [|sl rest IH];
    intros pre rooms maps tasks next fuel w h Hrank Hlive Hfuel h1 o r Hs
           w' st' e Ha.
  - simpl in Hs. injection Hs as <- <- <-. simpl.
    assert (E : answerAll' fuel tid w
                  (mkState rooms h maps (taskDrop tid tasks) next)
                = (w, mkState rooms h maps (taskDrop tid tasks) next, [])).
    { destruct fuel; [reflexivity|]. simpl.
      now rewrite taskGet_drop_eq. }
    rewrite E in Ha. injection Ha as <- <- <-. now repeat split.
  - assert (Hrank' : ranked ((pre ++ [sl]) ++ rest))
      by now rewrite <- app_assoc.
    assert (Hlive' : forall h0 tasks0,
               liveSlots (mkState (KbDoc:=KbDoc) rooms h0 maps tasks0 next) c
               = (pre ++ [sl]) ++ rest).
    { intros h0 tasks0. rewrite <- app_assoc. exact Hlive. }
    simpl in Hs. simpl entries. cbn [deliverAll]. unfold deliverTo.
    destruct (language (slot_user sl) =? call_lang c) eqn:El; simpl negb;
      cbv iota.
    + unfold pushAndSend in Hs.
      destruct (pushHistory (call_room c)
                  (recordFor c (call_message c) false) h) as [hp|] eqn:Ep;
        destruct (serve tid c rest _) as [[h2 o2] r2] eqn:Es;
        injection Hs as <- <- <-.
      * destruct (IH (pre ++ [sl]) rooms maps tasks next fuel w hp Hrank'
                    (Hlive' hp tasks) ltac:(simpl in Hfuel; lia)
                    _ _ _ Es _ _ _ Ha) as (Hd & Hr & Ht).
        fold (recordFor c (call_message c) false). rewrite Ep, Hd.
        now repeat split.
      * destruct (IH (pre ++ [sl]) rooms maps tasks next fuel w h Hrank'
                    (Hlive' h tasks) ltac:(simpl in Hfuel; lia)
                    _ _ _ Es _ _ _ Ha) as (Hd & Hr & Ht).
        fold (recordFor c (call_message c) false). rewrite Ep, Hd.
        now repeat split.
    + unfold translateText.
      destruct (negb (truthy (call_message c))
                || negb (truthy (language (slot_user sl)))) eqn:Ev.
      * destruct (serve tid c rest h) as [[h2 o2] r2] eqn:Es.
        injection Hs as <- <- <-.
        destruct (IH (pre ++ [sl]) rooms maps tasks next fuel w h Hrank'
                    (Hlive' h tasks) ltac:(simpl in Hfuel; lia)
                    _ _ _ Es _ _ _ Ha) as (Hd & Hr & Ht).
        simpl. rewrite Hd. now repeat split.
      * injection Hs as <- <- <-.
        destruct fuel as [|fuel]; [simpl in Hfuel; lia|].
        set (s1 := mkState rooms h maps
                     (taskPut tid (c, AwaitTranslation sl) tasks) next) in *.
        assert (Ht1 : taskGet tid (st_tasks s1)
                      = Some (c, AwaitTranslation sl))
          by apply taskGet_put_eq.
        rewrite (answerAll_translation fuel tid w s1 c sl Ht1) in Ha.
        destruct (axiosTranslate (call_message c) (language (slot_user sl)) w)
          as [a w1] eqn:Eax.
        destruct (match a with
                  | Some text =>
                      pushAndSend (KbDoc:=KbDoc) c sl (recordFor c text true) h
                  | None => (h, failedFor sl)
                  end) as [hp e1] eqn:Epush.
        rewrite (step_translation s1 tid c sl a Ht1 hp e1 Epush) in Ha.
        destruct (loopFrom_spec tid c (S (slot_stamp sl))
                    (mkState (st_rooms s1) hp (st_maps s1) (st_tasks s1)
                             (st_next s1)))
          as (h2 & o2 & r2 & Hs2 & EL).
        rewrite EL in Ha. cbn [fst snd] in Ha.
        assert (El2 : liveSlots
                        (mkState (st_rooms s1) hp (st_maps s1) (st_tasks s1)
                                 (st_next s1)) c
                      = pre ++ sl :: rest) by exact Hlive.
        rewrite El2, ranked_rest in Hs2 by exact Hrank.
        cbn [st_history st_rooms st_maps st_tasks st_next s1] in Hs2, Ha.
        assert (Etasks :
                  match r2 with
                  | Some sl0 =>
                      taskPut tid (c, AwaitTranslation sl0)
                        (taskPut tid (c, AwaitTranslation sl) tasks)
                  | None =>
                      taskDrop tid (taskPut tid (c, AwaitTranslation sl) tasks)
                  end
                  = match r2 with
                    | Some sl0 => taskPut tid (c, AwaitTranslation sl0) tasks
                    | None => taskDrop tid tasks
                    end).
        { destruct r2; [apply taskPut_put|apply taskDrop_put]. }
        rewrite Etasks in Ha.
        destruct (answerAll' fuel tid w1 _) as [[w2 st2] e2] eqn:Ea.
        injection Ha as <- <- <-.
        destruct (IH (pre ++ [sl]) rooms maps tasks next fuel w1 hp
                    Hrank' (Hlive' hp tasks) ltac:(simpl in Hfuel; lia)
                    _ _ _ Hs2 _ _ _ Ea) as (Hd & Hr & Ht).
        split; [|now split].
        assert (Es : emits KbDoc
                       (Request tid
                          (TranslateCall (call_message c)
                             (language (slot_user sl))) :: nil)
                     = []) by reflexivity.
        rewrite Es. cbn [app].
        destruct a as [text|].
        -- unfold pushAndSend, recordFor in Epush.
           destruct (pushHistory (call_room c)
                       (messageToSend (call_sender c) text (call_message c)
                          true (call_timestamp c)) h)
             as [hp'|]; injection Epush as <- <-; cbv beta iota zeta;
             rewrite Hd; simpl; rewrite <- ?app_assoc; reflexivity.
        -- injection Epush as <- <-. cbv beta iota zeta. rewrite Hd.
           simpl. rewrite <- ?app_assoc. reflexivity.
Qed.

Lemma loop_alone c tid (s : State KbDoc) fuel w :
  ranked (liveSlots s c) -> length (liveSlots s c) <= fuel ->
  forall w' st' e,
    answerAll' fuel tid w (fst (loopFrom tid c 0 s)) = (w', st', e) ->
    deliverAll' (call_sender c) (call_room c) (call_message c)
                (call_lang c) (call_timestamp c) (entries (liveSlots s c))
                w (st_history s)
    = (w', st_history st', emits KbDoc (snd (loopFrom tid c 0 s)) ++ e)
    /\ st_rooms st' = st_rooms s
    /\ taskGet tid (st_tasks st') = None.
Proof.
  intros Hrank Hfuel w' st' e.
  destruct (loopFrom_spec tid c 0 s) as (h' & o & r & Hs & ->).
  rewrite filter_from_start in Hs. cbn [fst snd]. intros Ha.
  destruct s as [rooms h maps tasks next]. cbn [st_history st_rooms] in *.
  destruct (serve_alone c tid (liveSlots (mkState rooms h maps tasks next) c)
              [] rooms maps tasks next fuel w h Hrank eq_refl Hfuel
              _ _ _ Hs _ _ _ Ha) as (Hd & Hr & Ht).
  split; [exact Hd|]. split; [exact Hr|]. rewrite Ht.
  apply taskGet_drop_eq.
Qed.

Lemma answerAll_kb fuel tid w (st : State KbDoc) c :
  taskGet tid (st_tasks st) = Some (c, AwaitKb) ->
  answerAll' (S fuel) tid w st
  = let '(a, w1) := getDocs w in
    let '(st1, o) := step st (KbAnswer tid a) in
    let '(w2, st2, e) := answerAll' fuel tid w1 st1 in
    (w2, st2, GetDocs :: emits KbDoc o ++ e).
Proof. intros H. cbn [answerAll]. now rewrite H. Qed.

Lemma answerAll_model fuel tid w (st : State KbDoc) c data :
  taskGet tid (st_tasks st) = Some (c, AwaitModel data) ->
  answerAll' (S fuel) tid w st
  = let '(a, w1) := generateContent (call_message c) data w in
    let '(st1, o) := step st (ModelAnswer tid a) in
    let '(w2, st2, e) := answerAll' fuel tid w1 st1 in
    (w2, st2, GenerateContent (call_message c) a :: emits KbDoc o ++ e).
Proof. intros H. cbn [answerAll]. now rewrite H. Qed.

(** [chatMessage] is the run of the machine in which the handler of the
    message is answered at once, nothing else being handled before it
    ends: from the snapshot of a reachable state it does the same calls
    and the same emits, in the same order, and ends on the snapshot of the
    state that the machine ends on. *)
Theorem chatMessage_is_the_handler_left_alone
    (id room message lang : string) (w : World) (st : State KbDoc)
    (fuel : nat) :
  reachable st ->
  2 + length (match JsMap.get room (st_rooms st) with
              | Some m => map_slots m
              | None => []
              end) <= fuel ->
  chatMessage World KbDoc now getDocs generateContent axiosTranslate
              id room message lang w (snapshot KbDoc st)
  = mkRun
      (fst (fst (chatAlone World KbDoc now getDocs generateContent
                           axiosTranslate fuel id room message lang w st)))
      (snapshot KbDoc
         (snd (fst (chatAlone World KbDoc now getDocs generateContent
                              axiosTranslate fuel id room message lang w st))))
      (snd (chatAlone World KbDoc now getDocs generateContent axiosTranslate
                      fuel id room message lang w st))
  /\ (callOf st (InChat id room message lang "") <> None ->
      taskGet (st_next st)
        (st_tasks
           (snd (fst (chatAlone World KbDoc now getDocs generateContent
                                axiosTranslate fuel id room message lang w
                                st))))
      = None).
Proof.
  intros Hreach Hfuel. apply reachable_wellRanked in Hreach.
  unfold chatMessage, chatAlone. cbn [callOf step]. unfold chat.
  destruct (negb (truthy room) || negb (truthy message)
            || negb (truthy lang)) eqn:Ev; [now split|].
  cbn [rooms snapshot]. rewrite get_snapshot.
  destruct (JsMap.get room (st_rooms st)) as [m|] eqn:Eg; cbn [option_map];
    [|now split].
  rewrite get_entries.
  destruct (mapGet id m) as [sender|] eqn:Em; [|now split].
  destruct (now w) as [ts w0].
  set (c := mkCall id room (map_id m) sender message lang ts).
  set (tid := st_next st).
  assert (Hmsg : negb (truthy message) = false).
  { apply orb_false_iff in Ev as [Ev _].
    now apply orb_false_iff in Ev as [_ Ev]. }
  assert (Hlive : forall h tasks next,
             liveSlots (mkState (KbDoc:=KbDoc) (st_rooms st) h (st_maps st)
                                tasks next) c
             = map_slots m).
  { intros h tasks next. unfold liveSlots. cbn [st_rooms call_room c].
    rewrite Eg. cbn [call_map]. now rewrite Nat.eqb_refl. }
  assert (Hrank : ranked (map_slots m)).
  { apply JsMapFacts.get_In in Eg. unfold wellRanked in Hreach.
    rewrite Forall_forall in Hreach. exact (proj1 (Hreach _ Eg)). }
  assert (Hloop : forall s f w1 w' st' e,
             st_rooms s = st_rooms st -> st_maps s = st_maps st ->
             st_history s = st_history st ->
             length (map_slots m) <= f ->
             answerAll' f tid w1 (fst (loopFrom tid c 0 s)) = (w', st', e) ->
             deliverAll' sender room message lang ts (entries (map_slots m))
                         w1 (st_history st)
             = (w', st_history st',
                emits KbDoc (snd (loopFrom tid c 0 s)) ++ e)
             /\ st_rooms st' = st_rooms st
             /\ taskGet tid (st_tasks st') = None).
  { intros s f w1 w' st' e Hr Hm Hh Hf Ha.
    assert (Hl : liveSlots s c = map_slots m).
    { destruct s as [rooms h maps tasks next]. cbn in Hr, Hm. subst rooms maps.
      apply Hlive. }
    destruct (loop_alone c tid s f w1) with (3 := Ha) as (Hd & Hrooms & Hend).
    - now rewrite Hl.
    - now rewrite Hl.
    - rewrite Hl, Hh in Hd. rewrite Hrooms, Hr. now repeat split. }
  cbn [messageHistory snapshot].
  unfold suggest. destruct (role sender =? "user") eqn:Er.
  - (* the sender is a user: the analysis comes first *)
    destruct fuel as [|fuel]; [simpl in Hfuel; lia|].
    rewrite (answerAll_kb fuel tid w0 _ c) by apply taskGet_put_eq.
    unfold analyzeMessage, getKnowledgeBase. rewrite Hmsg.
    destruct (getDocs w0) as [a w1].
    rewrite (step_kb _ tid c a) by apply taskGet_put_eq.
    destruct a as [[|d data]|].
    + destruct (answerAll' fuel tid w1 _) as [[w2 st2] e2] eqn:Ea.
      match type of Ea with
      | answerAll _ _ _ _ _ _ _ _ (fst (loopFrom _ _ _ ?s)) = _ =>
          destruct (Hloop s fuel w1 w2 st2 e2 eq_refl eq_refl eq_refl
                      ltac:(simpl in Hfuel; lia) Ea) as (Hd & Hr & Hend)
      end.
      rewrite Hd. cbn [fst snd]. unfold snapshot. rewrite Hr.
      split; [|intros _; exact Hend].
      f_equal; simpl; rewrite <- ?app_assoc; reflexivity.
    + destruct fuel as [|fuel]; [simpl in Hfuel; lia|].
      rewrite (answerAll_model fuel tid w1 _ c (d :: data))
        by apply taskGet_put_eq.
      cbn [call_message c].
      destruct (generateContent message (d :: data) w1) as [b w2].
      rewrite (step_model _ tid c (d :: data) b) by apply taskGet_put_eq.
      destruct (answerAll' fuel tid w2 _) as [[w3 st3] e3] eqn:Ea.
      match type of Ea with
      | answerAll _ _ _ _ _ _ _ _ (fst (loopFrom _ _ _ ?s)) = _ =>
          destruct (Hloop s fuel w2 w3 st3 e3 eq_refl eq_refl eq_refl
                      ltac:(simpl in Hfuel; lia) Ea) as (Hd & Hr & Hend)
      end.
      destruct b as [body|]; rewrite Hd; cbn [fst snd]; unfold snapshot;
        rewrite Hr; rewrite emits_app.
      * rewrite emits_suggestions, Hlive.
        split; [|intros _; exact Hend].
        f_equal; simpl; rewrite <- ?app_assoc; reflexivity.
      * split; [|intros _; exact Hend].
        f_equal; simpl; rewrite <- ?app_assoc; reflexivity.
    + destruct (answerAll' fuel tid w1 _) as [[w2 st2] e2] eqn:Ea.
      match type of Ea with
      | answerAll _ _ _ _ _ _ _ _ (fst (loopFrom _ _ _ ?s)) = _ =>
          destruct (Hloop s fuel w1 w2 st2 e2 eq_refl eq_refl eq_refl
                      ltac:(simpl in Hfuel; lia) Ea) as (Hd & Hr & Hend)
      end.
      rewrite Hd. cbn [fst snd]. unfold snapshot. rewrite Hr.
      split; [|intros _; exact Hend].
      f_equal; simpl; rewrite <- ?app_assoc; reflexivity.
  - (* any other sender: the loop starts at once *)
    destruct (loopFrom tid c 0 _) as [st1 o1] eqn:El.
    destruct (answerAll' fuel tid w0 st1) as [[w2 st2] e2] eqn:Ea.
    change st1 with (fst (st1, o1)) in Ea. rewrite <- El in Ea.
    match type of Ea with
    | answerAll _ _ _ _ _ _ _ _ (fst (loopFrom _ _ _ ?s)) = _ =>
        destruct (Hloop s fuel w0 w2 st2 e2 eq_refl eq_refl eq_refl
                    ltac:(simpl in Hfuel; lia) Ea) as (Hd & Hr & Hend)
    end.
    rewrite El in Hd. cbn [snd] in Hd.
    rewrite Hd. cbn [fst snd]. unfold snapshot. rewrite Hr.
    split; [reflexivity|intros _; exact Hend].
Qed.

End AloneFacts.

Lemma chatMessage_is_the_handler_left_alone_witness :
  chatMessage unit string Demo.now Demo.getDocs Demo.generateContent
              Demo.axiosTranslate "b1" "r1" "bonjour" "fr" tt
              (snapshot string AsyncDemo.lobby)
  = mkRun
      (fst (fst (chatAlone unit string Demo.now Demo.getDocs
                           Demo.generateContent Demo.axiosTranslate 4
                           "b1" "r1" "bonjour" "fr" tt AsyncDemo.lobby)))
      (snapshot string
         (snd (fst (chatAlone unit string Demo.now Demo.getDocs
                              Demo.generateContent Demo.axiosTranslate 4
                              "b1" "r1" "bonjour" "fr" tt AsyncDemo.lobby))))
      (snd (chatAlone unit string Demo.now Demo.getDocs Demo.generateContent
                      Demo.axiosTranslate 4 "b1" "r1" "bonjour" "fr" tt
                      AsyncDemo.lobby))
  /\ (Async.callOf AsyncDemo.lobby
                   (Async.InChat "b1" "r1" "bonjour" "fr" "") <> None ->
      Async.taskGet (Async.st_next AsyncDemo.lobby)
        (Async.st_tasks
           (snd (fst (chatAlone unit string Demo.now Demo.getDocs
                                Demo.generateContent Demo.axiosTranslate 4
                                "b1" "r1" "bonjour" "fr" tt AsyncDemo.lobby))))
      = None).
Proof.
  apply (chatMessage_is_the_handler_left_alone unit string Demo.now
           Demo.getDocs Demo.generateContent Demo.axiosTranslate
           "b1" "r1" "bonjour" "fr" tt AsyncDemo.lobby 4).
  - exact lobby_reachable.
  - vm_compute. lia.
Defined.
